(** * caplance client: relay pipeline, lifecycle state machine, control session

    A shallow embedding of [internal/client/networking.go].  The Go code
    talks to the kernel (netlink, raw sockets), to pcap and to the
    coordinator session; every such call is recorded as an [Event] in a
    trace and its answer is taken from an explicit environment [Env] or from
    an explicit list of inputs, so that each function of the source becomes
    an executable function on a small state. *)

From Stdlib Require Import List String Ascii Bool Arith ZArith NArith Lia.
From Stdlib Require Import Strings.Byte.
From Stdlib Require Import Sorting.Permutation.
Import ListNotations.

Open Scope string_scope.
Open Scope list_scope.

Set Implicit Arguments.

(* ================================================================== *)
(** ** Data model *)

(** Modelled from the spec: the lifecycle state type of the client (its Go
    declaration sits next to the [Client] struct, outside networking.go).
    The source names the three constants [Active], [Paused] and
    [Deregistering]. *)
Inductive State : Type := Active | Paused | Deregistering.

Definition State_eqb (a b : State) : bool :=
  match a, b with
  | Active, Active | Paused, Paused | Deregistering, Deregistering => true
  | _, _ => false
  end.

(** [c.state == Active || c.state == Paused], the guard of every loop. *)
Definition running (s : State) : bool :=
  State_eqb s Active || State_eqb s Paused.

(** [net.IP] and [net.IPMask] are byte slices. *)
Definition IP := list N.
Definition IPMask := list N.

Record IPNet : Type := mkIPNet { ipnIP : IP; ipnMask : IPMask }.

(** Modelled from the spec: the [Client] struct (declared outside
    networking.go); the fields are the ones networking.go reads or writes.
    The session handle [comm], the capture handle [dataListener] and the
    channel [packets] are handles on the outside world and live in the
    trace and in the relay state below. *)
Record Client : Type := mkClient {
  state : State;
  name : string;
  vip : IP;
  dataIP : IP;
  healthRate : Z
}.

Definition set_state (c : Client) (s : State) : Client :=
  mkClient s (name c) (vip c) (dataIP c) (healthRate c).

(** [netlink.Link], reduced to what the code uses. *)
Record Link : Type := mkLink { linkName : string; linkMTU : Z }.

Inductive Level : Type := Debug | Warn | Error | PanicLevel.

(** [pcap.InterfaceAddress] and [pcap.Interface], reduced to the fields read. *)
Record InterfaceAddress : Type :=
  mkInterfaceAddress { addrIP : IP; Netmask : IPMask }.

Record Interface : Type :=
  mkInterface { devName : string; Addresses : list InterfaceAddress }.

(** [rawPacket]: only the first [size] bytes of [payload] are a frame. *)
Record rawPacket : Type := mkRawPacket { size : Z; payload : list byte }.

(** A [*rawPacket] is the index of the packet in the heap of the model. *)
Definition ptr := nat.

(** [syscall.SockaddrInet4]. *)
Record SockaddrInet4 : Type := mkSockaddrInet4 { Port : Z; Addr : list N }.

(** Everything the code does to the outside world, in program order. *)
Inductive Event : Type :=
| EvWriteLine (line : string)            (* c.comm.WriteLine(line) *)
| EvCommClose                            (* c.comm.Close() *)
| EvListenerClose                        (* c.dataListener.Close() *)
| EvLinkByName (dev : string)            (* netlink.LinkByName(dev) *)
| EvAddrAdd (l : Link) (a : IPNet)       (* netlink.AddrAdd(l, a) *)
| EvAddrDel (l : Link) (a : IPNet)       (* netlink.AddrDel(l, a) *)
| EvLog (lvl : Level) (msg : string)     (* log.Debugln / Warnln / Errorln *)
| EvSpawnSendHealth                      (* go c.sendHealth() *)
| EvSpawnHandlePackets                   (* go c.handlePackets(pool) *)
| EvWgDone                               (* deferred wg.Done() *)
| EvFindAllDevs                          (* pcap.FindAllDevs() *)
| EvSocket                               (* syscall.Socket(...) *)
| EvPoolGet (p : ptr)                    (* pool.Get() yields p *)
| EvPoolPut (p : ptr)                    (* pool.Put(p) *)
| EvReadFrom (p : ptr)                   (* c.dataListener.ReadFrom(p.payload) *)
| EvSendto (fd : Z) (data : list byte) (to : SockaddrInet4)
                                         (* syscall.Sendto(fd, data, 0, &to) *)
| EvExit (code : Z).                     (* os.Exit(code) *)

(** Answers of the outside world.  An error is its message. *)
Record Env : Type := mkEnv {
  LinkByName : string -> Link + string;
  AddrAdd : Link -> IPNet -> option string;
  AddrDel : Link -> IPNet -> option string;
  WriteLine : string -> option string;
  CommClose : option string;
  ListenerClose : option string;
  FindAllDevs : list Interface + string;
  Socket : Z;
  (* what the builtin recover() yields where gracefulStop is called: a
     value only when gracefulStop runs as a deferred call of a goroutine
     that is panicking, nil (None) in every other calling context *)
  recover : option string
}.

(* ================================================================== *)
(** ** A small monad: client, trace, packet store, abrupt termination *)

Record Sys : Type := mkSys {
  cl : Client;
  trace : list Event;
  heap : list rawPacket;     (* every packet the pool ever allocated *)
  idle : list ptr;           (* the packets idle in the sync.Pool *)
  packets : list ptr;        (* the channel c.packets, oldest first *)
  poolSize : Z               (* the size captured by the pool's New *)
}.

Definition initSys (c : Client) : Sys := mkSys c [] [] [] [] 0.

Definition with_cl (s : Sys) (c : Client) : Sys :=
  mkSys c (trace s) (heap s) (idle s) (packets s) (poolSize s).
Definition with_trace (s : Sys) (t : list Event) : Sys :=
  mkSys (cl s) t (heap s) (idle s) (packets s) (poolSize s).
Definition with_heap (s : Sys) (h : list rawPacket) : Sys :=
  mkSys (cl s) (trace s) h (idle s) (packets s) (poolSize s).
Definition with_idle (s : Sys) (i : list ptr) : Sys :=
  mkSys (cl s) (trace s) (heap s) i (packets s) (poolSize s).
Definition with_packets (s : Sys) (q : list ptr) : Sys :=
  mkSys (cl s) (trace s) (heap s) (idle s) q (poolSize s).
Definition with_poolSize (s : Sys) (n : Z) : Sys :=
  mkSys (cl s) (trace s) (heap s) (idle s) (packets s) n.

(** A Go call returns, or the process exits ([os.Exit]), or the goroutine
    panics, or it waits for ever on a read or a channel with nothing left
    to deliver. *)
Inductive Outcome (A : Type) : Type :=
| Ret (a : A)
| Exited (code : Z)
| Panicked (v : string)
| Blocked.
Arguments Ret {A} a.
Arguments Exited {A} code.
Arguments Panicked {A} v.
Arguments Blocked {A}.

Definition M (A : Type) : Type := Sys -> Outcome A * Sys.

Definition ret {A} (a : A) : M A := fun s => (Ret a, s).

Definition bind {A B} (m : M A) (k : A -> M B) : M B :=
  fun s =>
    match m s with
    | (Ret a, s') => k a s'
    | (Exited code, s') => (Exited code, s')
    | (Panicked v, s') => (Panicked v, s')
    | (Blocked, s') => (Blocked, s')
    end.

Notation "x <- m ;; k" := (bind m (fun x => k))
  (at level 61, m at next level, right associativity).
Notation "m ;;; k" := (bind m (fun _ => k))
  (at level 61, right associativity).

Definition gets {A} (f : Sys -> A) : M A := fun s => (Ret (f s), s).

Definition modify (f : Sys -> Sys) : M unit := fun s => (Ret tt, f s).

Definition emit (e : Event) : M unit :=
  modify (fun s => with_trace s (trace s ++ [e])).

Definition getState : M State := gets (fun s => state (cl s)).

Definition getClient : M Client := gets cl.

Definition putState (st : State) : M unit :=
  modify (fun s => with_cl s (set_state (cl s) st)).

Definition osExit {A} (code : Z) : M A :=
  fun s => (Exited code, with_trace s (trace s ++ [EvExit code])).

Definition panic {A} (v : string) : M A := fun s => (Panicked v, s).

Definition blocked {A} : M A := fun s => (Blocked, s).

Definition when (b : bool) (m : M unit) : M unit := if b then m else ret tt.

(** [defer d] at the top of a function whose body is [body]: [d] runs when
    the body returns or panics, and does not run when the process exits. *)
Definition deferring {A} (d : M unit) (body : M A) : M A :=
  fun s =>
    match body s with
    | (Ret a, s') => (d ;;; ret a) s'
    | (Exited code, s') => (Exited code, s')
    | (Panicked v, s') => (d ;;; panic v) s'
    | (Blocked, s') => (Blocked, s')
    end.

(* ================================================================== *)
(** ** Go's [net] package, as far as the code calls it *)

Definition IPv4len : nat := 4.
Definition IPv6len : nat := 16.

Definition isZeros (p : list N) : bool := forallb (N.eqb 0) p.

(** [ip[lo:hi]] on a slice whose capacity is its length. *)
Definition slice {A} (l : list A) (lo hi : nat) : list A :=
  firstn (hi - lo) (skipn lo l).

(** [func (ip IP) To4() IP]; [None] is Go's nil. *)
Definition To4 (ip : IP) : option IP :=
  if Nat.eqb (List.length ip) IPv4len then Some ip
  else if Nat.eqb (List.length ip) IPv6len
          && isZeros (slice ip 0 10)
          && N.eqb (nth 10 ip 0%N) 255
          && N.eqb (nth 11 ip 0%N) 255
       then Some (slice ip 12 16)
       else None.

(** [net.CIDRMask(ones, bits)]; the nil mask is the empty slice. *)
Fixpoint cidrBytes (l : nat) (n : N) : IPMask :=
  match l with
  | O => []
  | S l' =>
      if (8 <=? n)%N then 255%N :: cidrBytes l' (n - 8)%N
      else N.lxor 255 (N.shiftr 255 n) :: cidrBytes l' 0%N
  end.

Definition CIDRMask (ones bits : Z) : IPMask :=
  if negb (Z.eqb bits 32) && negb (Z.eqb bits 128) then []
  else if (ones <? 0)%Z || (bits <? ones)%Z then []
  else cidrBytes (Z.to_nat (bits / 8)) (Z.to_N ones).

(** [networkNumberAndMask] and the [Contains] method of [IPNet]. *)
Definition networkNumberAndMask (n : IPNet) : option (IP * IPMask) :=
  let ip := match To4 (ipnIP n) with Some x => Some x
            | None => if Nat.eqb (List.length (ipnIP n)) IPv6len
                      then Some (ipnIP n) else None
            end in
  match ip with
  | None => None
  | Some ip =>
      if Nat.eqb (List.length (ipnMask n)) IPv4len then
        if Nat.eqb (List.length ip) IPv4len then Some (ip, ipnMask n) else None
      else if Nat.eqb (List.length (ipnMask n)) IPv6len then
        if Nat.eqb (List.length ip) IPv4len
        then Some (ip, skipn 12 (ipnMask n))
        else Some (ip, ipnMask n)
      else None
  end.

Fixpoint maskedEq (nn m ip : list N) : bool :=
  match nn, m, ip with
  | a :: nn', b :: m', x :: ip' =>
      N.eqb (N.land a b) (N.land x b) && maskedEq nn' m' ip'
  | _, _, _ => true
  end.

(** When [networkNumberAndMask] fails it returns two nil slices, and
    [Contains] goes on with them: a target of length zero is then
    "contained", every other target is not. *)
Definition Contains (n : IPNet) (ip : IP) : bool :=
  let (nn, m) := match networkNumberAndMask n with
                 | Some nm => nm
                 | None => ([], [])
                 end in
  let ip := match To4 ip with Some x => x | None => ip end in
  if Nat.eqb (List.length ip) (List.length nn) then maskedEq nn m ip else false.

(* ================================================================== *)
(** ** Device resolver: [findDevice] *)

Definition errMultipleDevices : string :=
  "multiple devices on the same subnet. VIP cannot be assigned".
Definition errNoDevice : string :=
  "no device on same subnet as VIP. VIP cannot be assigned".

Definition addrContains (ip : IP) (address : InterfaceAddress) : bool :=
  Contains (mkIPNet (addrIP address) (Netmask address)) ip.

(** The inner loop over [device.Addresses]; [inr] is the early return. *)
Fixpoint scanAddresses (ip : IP) (device : string)
         (addresses : list InterfaceAddress) (foundDevice : string)
  : string + string :=
  match addresses with
  | [] => inl foundDevice
  | address :: rest =>
      if addrContains ip address then
        if String.eqb foundDevice "" then scanAddresses ip device rest device
        else if negb (String.eqb foundDevice device)
             then inr errMultipleDevices
             else scanAddresses ip device rest foundDevice
      else scanAddresses ip device rest foundDevice
  end.

(** The outer loop over [devices]. *)
Fixpoint scanDevices (ip : IP) (devices : list Interface)
         (foundDevice : string) : string + string :=
  match devices with
  | [] => inl foundDevice
  | device :: rest =>
      match scanAddresses ip (devName device) (Addresses device) foundDevice with
      | inr err => inr err
      | inl found => scanDevices ip rest found
      end
  end.

(** [findDevice]; [allDevs] is the answer of [pcap.FindAllDevs()].  The Go
    pair [(name, error)] is [inl name] for a nil error and [inr err]
    otherwise. *)
Definition findDevice (allDevs : list Interface + string) (ip : IP)
  : string + string :=
  match allDevs with
  | inr err => inr err
  | inl devices =>
      match scanDevices ip devices "" with
      | inr err => inr err
      | inl foundDevice =>
          if String.eqb foundDevice "" then inr errNoDevice
          else inl foundDevice
      end
  end.

(** The interfaces with an address whose subnet contains [ip], by name, in
    enumeration order. *)
Definition devMatches (ip : IP) (device : Interface) : bool :=
  existsb (addrContains ip) (Addresses device).

Definition matches (ip : IP) (devices : list Interface) : list string :=
  map devName (filter (devMatches ip) devices).

(* ================================================================== *)
(** ** VIP lifecycle manager: [attachVIP], [detachVIP] *)

Definition vipNet (c : Client) : IPNet := mkIPNet (vip c) (CIDRMask 32 32).

(** The Go [error] result: [None] is nil. *)
Definition attachVIP (env : Env) : M (option string) :=
  emit (EvLinkByName "lo") ;;;
  match LinkByName env "lo" with
  | inr err => ret (Some err)
  | inl lo =>
      c <- getClient ;;
      emit (EvAddrAdd lo (vipNet c)) ;;;
      let _ := AddrAdd env lo (vipNet c) in
      ret None
  end.

Definition detachVIP (env : Env) : M (option string) :=
  emit (EvLinkByName "lo") ;;;
  match LinkByName env "lo" with
  | inr err => ret (Some err)
  | inl lo =>
      c <- getClient ;;
      emit (EvAddrDel lo (vipNet c)) ;;;
      let _ := AddrDel env lo (vipNet c) in
      ret None
  end.

(* ================================================================== *)
(** ** Lifecycle commands and the shutdown procedure *)

Definition deregister (env : Env) : M (option string) :=
  putState Deregistering ;;;
  c <- getClient ;;
  emit (EvWriteLine ("DEREGISTER " ++ name c)%string) ;;;
  ret (WriteLine env ("DEREGISTER " ++ name c)%string).

Definition gracefulStop (env : Env) : M unit :=
  st <- getState ;;
  when (negb (State_eqb st Deregistering)) (deregister env ;;; ret tt) ;;;
  emit EvCommClose ;;;
  let _ := CommClose env in
  emit EvListenerClose ;;;
  let _ := ListenerClose env in
  detachVIP env ;;;
  match recover env with
  | Some r => emit (EvLog Error r)
  | None => ret tt
  end ;;;
  osExit 0.




Definition errAlreadyPaused : string := "cannot pause an already paused client".
Definition errAlreadyActive : string := "cannot resume an already active client".

Definition pause (env : Env) : M (option string) :=
  st <- getState ;;
  if State_eqb st Paused then ret (Some errAlreadyPaused)
  else
    c <- getClient ;;
    emit (EvWriteLine ("PAUSE " ++ name c)%string) ;;;
    ret (WriteLine env ("PAUSE " ++ name c)%string).

Definition resume (env : Env) : M (option string) :=
  st <- getState ;;
  if State_eqb st Active then ret (Some errAlreadyActive)
  else
    c <- getClient ;;
    emit (EvWriteLine ("RESUME " ++ name c)%string) ;;;
    ret (WriteLine env ("RESUME " ++ name c)%string).

(* ================================================================== *)
(** ** Control session reader: [manageBalancerConnection] *)

(** [strings.Split(s, sep)] for a separator of one byte, which is how the
    source calls it: one more token than there are separators in [s]. *)
Fixpoint Split (s : string) (sep : ascii) : list string :=
  match s with
  | EmptyString => [EmptyString]
  | String ch rest =>
      if Ascii.eqb ch sep then EmptyString :: Split rest sep
      else match Split rest sep with
           | tok :: toks => String ch tok :: toks
           | [] => [String ch EmptyString]
           end
  end.

(** The [switch tokens[0]] of one iteration; [true] stands for falling out
    of the switch into the next iteration, [false] for [return]. *)
Definition dispatch (env : Env) (message : string) (tokens : list string)
  : M bool :=
  match nth_error tokens 0 with
  | None => panic "index out of range"
  | Some directive =>
      if String.eqb directive "INVALID" then
        emit (EvLog Debug message) ;;; ret true
      else if String.eqb directive "DEREGISTERED" then
        putState Deregistering ;;; gracefulStop env ;;; ret false
      else if String.eqb directive "PAUSED" then
        putState Paused ;;; ret true
      else if String.eqb directive "RESUMED" then
        putState Active ;;; ret true
      else if String.eqb directive "HEALTHACK" then
        when (Nat.ltb (List.length tokens) 2)
             (emit (EvLog Debug
                      "HEALTHACK received from server with no status code")) ;;;
        ret true
      else
        emit (EvLog Debug
                ("Message received from server not matching spec: "
                   ++ message)%string) ;;;
        ret true
  end.

(** The body of the loop for a line that [ReadLine] delivered. *)
Definition handleLine (env : Env) (message : string) : M bool :=
  let tokens := Split message " "%char in
  if Nat.ltb (List.length tokens) 1 then
    emit (EvLog Debug "Empty message received from server") ;;; ret true
  else dispatch env message tokens.

(** The bodies of the loop for the lines [messages], one after the other,
    up to the first that returns. *)
Fixpoint handleLines (env : Env) (messages : list string) : M bool :=
  match messages with
  | [] => ret true
  | message :: rest =>
      continue <- handleLine env message ;;
      if continue then handleLines env rest else ret false
  end.

(** The loop.  [inbound] is what the successive calls of [c.comm.ReadLine()]
    deliver: [inl message], or [inr err]; when the list is used up the read
    times out. *)
Fixpoint readerLoop (env : Env) (inbound : list (string + string)) : M unit :=
  st <- getState ;;
  if running st then
    match inbound with
    | inl message :: rest =>
        continue <- handleLine env message ;;
        if continue then readerLoop env rest else ret tt
    | _ =>
        emit (EvLog Error "Read timeout exceeded. Stopping") ;;;
        gracefulStop env ;;;
        ret tt
    end
  else ret tt.

Definition manageBalancerConnection (env : Env)
           (inbound : list (string + string)) : M unit :=
  deferring (emit EvWgDone)
    (emit EvSpawnSendHealth ;;;
     deferring (emit (EvLog Debug "ended balancer connection management"))
       (readerLoop env inbound)).

(** What another goroutine does to [c.state] in the meantime, if anything. *)
Definition assign (change : option State) : M unit :=
  match change with
  | Some st => putState st
  | None => ret tt
  end.

(** The loop among the other goroutines, which assign [c.state] too
    ([deregister], [listen], another [gracefulStop]).  Each element of
    [inbound] is one pass: the state somebody has assigned since the last
    pass, before the guard is tested; the state somebody assigns while the
    reader waits in [ReadLine]; and what [ReadLine] delivers.  When the
    list is used up nobody assigns anything any more and the read times
    out. *)
Fixpoint readerLoopAmong (env : Env)
         (inbound : list (option State * option State * (string + string)))
  : M unit :=
  match inbound with
  | [] => readerLoop env []
  | (before, during, r) :: rest =>
      assign before ;;;
      st <- getState ;;
      if running st then
        assign during ;;;
        match r with
        | inl message =>
            continue <- handleLine env message ;;
            if continue then readerLoopAmong env rest else ret tt
        | inr _ =>
            emit (EvLog Error "Read timeout exceeded. Stopping") ;;;
            gracefulStop env ;;;
            ret tt
        end
      else ret tt
  end.

Definition manageBalancerConnectionAmong (env : Env)
           (inbound : list (option State * option State * (string + string)))
  : M unit :=
  deferring (emit EvWgDone)
    (emit EvSpawnSendHealth ;;;
     deferring (emit (EvLog Debug "ended balancer connection management"))
       (readerLoopAmong env inbound)).

(* ================================================================== *)
(** ** Buffer pool *)

(** The [New] of [initPacketPool(size)], for a size that is not negative
    (the MTU of a link); [poolNew] below has the panic of [make] on a
    negative one. *)
Definition newPacket (n : Z) : rawPacket :=
  mkRawPacket 0 (repeat x00 (Z.to_nat n)).

Definition initPacketPool (n : Z) : M unit :=
  modify (fun s => with_poolSize (with_idle s []) n).

(** [pool.Get()] in the loop of [listen] taken alone: an idle packet when
    there is one, the one given back last, a new one otherwise.  What
    sync.Pool may do beyond that is [poolGetAny], in the pipeline below. *)
Definition poolGet : M ptr :=
  fun s =>
    match idle s with
    | p :: rest =>
        (Ret p, with_trace (with_idle s rest) (trace s ++ [EvPoolGet p]))
    | [] =>
        let p := List.length (heap s) in
        (Ret p, with_trace (with_heap s (heap s ++ [newPacket (poolSize s)]))
                           (trace s ++ [EvPoolGet p]))
    end.

(** [pool.Put(p)]. *)
Definition poolPut (p : ptr) : M unit :=
  modify (fun s => with_trace (with_idle s (p :: idle s))
                              (trace s ++ [EvPoolPut p])).

Definition load (p : ptr) : M rawPacket :=
  fun s =>
    match nth_error (heap s) p with
    | Some pkt => (Ret pkt, s)
    | None => (Panicked "invalid memory address or nil pointer dereference", s)
    end.

Fixpoint setNth {A} (l : list A) (i : nat) (x : A) : list A :=
  match l, i with
  | [], _ => []
  | _ :: t, O => x :: t
  | h :: t, S i' => h :: setNth t i' x
  end.

Definition store (p : ptr) (pkt : rawPacket) : M unit :=
  modify (fun s => with_heap s (setNth (heap s) p pkt)).

(** [c.packets <- p] when the channel has room.  The capacity of the
    channel is fixed where the client is built; a send that has to wait for
    room or for a receiver is in the pipeline below ([CapSend]). *)
Definition enqueue (p : ptr) : M unit :=
  modify (fun s => with_packets s (packets s ++ [p])).

(** [s[:n]] with its bounds check, on a slice whose capacity is its length. *)
Definition sliceTo {A} (l : list A) (n : Z) : option (list A) :=
  if (0 <=? n)%Z && (n <=? Z.of_nat (List.length l))%Z
  then Some (firstn (Z.to_nat n) l) else None.

(* ================================================================== *)
(** ** Capture loop: [getMTU], [listen] *)

Definition getMTU (env : Env) : M (Z + string) :=
  c <- getClient ;;
  emit EvFindAllDevs ;;;
  match findDevice (FindAllDevs env) (dataIP c) with
  | inr err => ret (inr err)
  | inl dev =>
      emit (EvLinkByName dev) ;;;
      match LinkByName env dev with
      | inr err => ret (inr err)
      | inl link => ret (inl (linkMTU link))
      end
  end.

(** One pass through the body of the capture loop.  [r] is what the
    blocking [ReadFrom] does: it never returns ([None]), it fails, or it
    copies a datagram into the payload and returns the number of bytes
    copied.  The result is [Some err] for [return err], [None] to go round
    again. *)
Definition captureStep (r : option (list byte + string))
  : M (option string) :=
  p <- poolGet ;;
  emit (EvReadFrom p) ;;;
  match r with
  | None => blocked
  | Some (inr err) => ret (Some err)
  | Some (inl datagram) =>
      pkt <- load p ;;
      let n := Nat.min (List.length datagram) (List.length (payload pkt)) in
      store p (mkRawPacket (size pkt)
                 (firstn n datagram ++ skipn n (payload pkt))) ;;;
      pkt' <- load p ;;
      store p (mkRawPacket (Z.of_nat n) (payload pkt')) ;;;
      enqueue p ;;;
      ret None
  end.

Fixpoint captureLoop (reads : list (list byte + string)) : M (option string) :=
  st <- getState ;;
  if running st then
    match reads with
    | [] => captureStep None
    | r :: rest =>
        res <- captureStep (Some r) ;;
        match res with
        | Some err => ret (Some err)
        | None => captureLoop rest
        end
    end
  else ret None.

Definition spawnWorkers (n : nat) : M unit :=
  modify (fun s => with_trace s (trace s ++ repeat EvSpawnHandlePackets n)).

(** [listen]: the Go [error] result, [None] for nil. *)
Definition listen (env : Env) (reads : list (list byte + string))
  : M (option string) :=
  deferring (emit EvWgDone)
    (r <- getMTU env ;;
     match r with
     | inr err => ret (Some err)
     | inl mtu =>
         initPacketPool mtu ;;;
         spawnWorkers 20 ;;;
         putState Active ;;;
         captureLoop reads
     end).

(* ================================================================== *)
(** ** Relay workers: [handlePackets] *)

(** [copy(vipFour[:], src)] into a zeroed [[4]byte]. *)
Definition copy4 (src : list N) : list N :=
  firstn 4 (src ++ repeat 0%N 4).

(** The start of [handlePackets], up to the loop: the descriptor and the
    destination the worker keeps for its lifetime. *)
Definition handlePacketsInit (env : Env) : M (Z * SockaddrInet4) :=
  emit EvSocket ;;;
  let fd := Socket env in
  c <- getClient ;;
  match To4 (vip c) with
  | None =>
      emit (EvLog PanicLevel "vip is not ipv4") ;;; panic "vip is not ipv4"
  | Some _ =>
      match sliceTo (vip c) 4 with
      | None => panic "slice bounds out of range"
      | Some first4 => ret (fd, mkSockaddrInet4 0 (copy4 first4))
      end
  end.

(** One pass through the body of a worker's loop, [sendErr] being the
    result of [syscall.Sendto]. *)
Definition relayStep (fd : Z) (addr : SockaddrInet4) (sendErr : option string)
  : M unit :=
  q <- gets packets ;;
  match q with
  | [] => blocked
  | p :: rest =>
      modify (fun s => with_packets s rest) ;;;
      pkt <- load p ;;
      match sliceTo (payload pkt) (size pkt) with
      | None => panic "slice bounds out of range"
      | Some data =>
          emit (EvSendto fd data addr) ;;;
          when (match sendErr with Some _ => true | None => false end)
               (emit (EvLog Warn "Failed to write packet to local vip")) ;;;
          poolPut p
      end
  end.

(** The worker's loop, one [Sendto] result per pass. *)
Fixpoint relayLoop (fd : Z) (addr : SockaddrInet4)
         (sends : list (option string)) : M unit :=
  st <- getState ;;
  if running st then
    match sends with
    | [] => ret tt
    | sendErr :: rest => relayStep fd addr sendErr ;;; relayLoop fd addr rest
    end
  else ret tt.

(** [handlePackets], run for as many passes as [sends] has results. *)
Definition handlePackets (env : Env) (sends : list (option string)) : M unit :=
  w <- handlePacketsInit env ;;
  relayLoop (fst w) (snd w) sends.

(* ================================================================== *)
(** ** The pipeline: the capture loop and its workers, statement by statement *)

(** [listen] starts twenty workers and enters its loop; from then on
    twenty-one goroutines run on the same client, pool and channel, and a
    run of the pipeline is an interleaving of their statements.  There is a
    program point for every place at which a goroutine can wait or be
    overtaken by another one. *)
Inductive CapPc : Type :=
| CapStart               (* c.state = Active *)
| CapGuard               (* the loop guard *)
| CapGet                 (* packet := pool.Get() *)
| CapRead (p : ptr)      (* in c.dataListener.ReadFrom(packet.payload) *)
| CapSend (p : ptr)      (* in c.packets <- packet *)
| CapReturned.           (* return err, return nil *)

Inductive LoopPc : Type :=
| LGuard                 (* the loop guard *)
| LRecv                  (* in <-c.packets *)
| LSend (p : ptr)        (* syscall.Sendto and the warning *)
| LPut (p : ptr).        (* pool.Put(packet) *)

(** A worker before its loop, in its loop with the descriptor and the
    destination it has built, or returned. *)
Inductive WorkPc : Type :=
| WStart
| WLoop (fd : Z) (addr : SockaddrInet4) (at_ : LoopPc)
| WReturned.

Record Pipe : Type := mkPipe {
  sys : Sys;
  chanCap : nat;             (* the capacity of c.packets, 0 when unbuffered *)
  capPc : CapPc;
  workPcs : list WorkPc;
  crashed : option string    (* the value of a panic that ended the process *)
}.

Definition with_sys (P : Pipe) (s : Sys) : Pipe :=
  mkPipe s (chanCap P) (capPc P) (workPcs P) (crashed P).
Definition with_capPc (P : Pipe) (pc : CapPc) : Pipe :=
  mkPipe (sys P) (chanCap P) pc (workPcs P) (crashed P).
Definition with_worker (P : Pipe) (w : nat) (pc : WorkPc) : Pipe :=
  mkPipe (sys P) (chanCap P) (capPc P) (setNth (workPcs P) w pc) (crashed P).
Definition with_crashed (P : Pipe) (v : string) : Pipe :=
  mkPipe (sys P) (chanCap P) (capPc P) (workPcs P) (Some v).

(** What the scheduler and the outside world do next. *)
Inductive Move : Type :=
| MCapture (choice : option nat)   (* the capture loop runs its next
                                      statement; [choice] is what the pool
                                      does if that is pool.Get() *)
| MRead (r : list byte + string)   (* the read of the capture loop returns *)
| MHandoff (w : nat)               (* the send of the capture loop meets the
                                      receive of worker [w] *)
| MWorker (w : nat) (sendErr : option string)
                                   (* worker [w] runs its next statement;
                                      [sendErr] is what Sendto answers if
                                      that is the Sendto *)
| MState (st : State)              (* another goroutine assigns c.state *)
| MCollect (k : nat).              (* the runtime drops the [k]-th idle
                                      packet of the pool *)

Definition removeNth {A} (l : list A) (k : nat) : list A :=
  firstn k l ++ skipn (S k) l.

(** The pool's [New]: [make([]byte, size)] panics on a negative size. *)
Definition poolNew : M ptr :=
  fun s =>
    if (poolSize s <? 0)%Z then (Panicked "makeslice: len out of range", s)
    else
      let p := List.length (heap s) in
      (Ret p, with_trace (with_heap s (heap s ++ [newPacket (poolSize s)]))
                         (trace s ++ [EvPoolGet p])).

(** [pool.Get()] as sync.Pool promises it: any idle packet, or a new one
    even when packets are idle.  [Some k] picks the [k]-th idle packet, and
    a new one when there is no such packet; [None] picks a new one. *)
Definition poolGetAny (choice : option nat) : M ptr :=
  fun s =>
    match choice with
    | None => poolNew s
    | Some k =>
        match nth_error (idle s) k with
        | Some p =>
            (Ret p, with_trace (with_idle s (removeNth (idle s) k))
                               (trace s ++ [EvPoolGet p]))
        | None => poolNew s
        end
    end.

(** What a [ReadFrom] that delivers [datagram] and the assignment of
    [packet.size] do to the packet. *)
Definition readInto (p : ptr) (datagram : list byte) : M unit :=
  pkt <- load p ;;
  let n := Nat.min (List.length datagram) (List.length (payload pkt)) in
  store p (mkRawPacket (size pkt)
             (firstn n datagram ++ skipn n (payload pkt))) ;;;
  pkt' <- load p ;;
  store p (mkRawPacket (Z.of_nat n) (payload pkt')).

(** [syscall.Sendto(fd, packet.payload[:packet.size], 0, &addr)] and the
    warning. *)
Definition sendPacket (fd : Z) (addr : SockaddrInet4)
           (sendErr : option string) (p : ptr) : M unit :=
  pkt <- load p ;;
  match sliceTo (payload pkt) (size pkt) with
  | None => panic "slice bounds out of range"
  | Some data =>
      emit (EvSendto fd data addr) ;;;
      when (match sendErr with Some _ => true | None => false end)
           (emit (EvLog Warn "Failed to write packet to local vip"))
  end.

(** A statement of one goroutine run on the shared state.  A panic that
    nothing recovers ends the process; the statements used below neither
    exit nor wait. *)
Definition act {A} (P : Pipe) (m : M A) (k : A -> Pipe -> Pipe) : Pipe :=
  match m (sys P) with
  | (Ret a, s') => k a (with_sys P s')
  | (Panicked v, s') => with_crashed (with_sys P s') v
  | (_, s') => with_sys P s'
  end.

(** The capture loop of [listen], lines 119 to 130.  A return runs the
    deferred [wg.Done()]. *)
Definition captureMove (choice : option nat) (P : Pipe) : Pipe :=
  match capPc P with
  | CapStart => act P (putState Active) (fun _ P' => with_capPc P' CapGuard)
  | CapGuard =>
      if running (state (cl (sys P))) then with_capPc P CapGet
      else act P (emit EvWgDone) (fun _ P' => with_capPc P' CapReturned)
  | CapGet =>
      act P (p <- poolGetAny choice ;; emit (EvReadFrom p) ;;; ret p)
          (fun p P' => with_capPc P' (CapRead p))
  | CapRead _ => P
  | CapSend p =>
      if Nat.ltb (List.length (packets (sys P))) (chanCap P)
      then act P (enqueue p) (fun _ P' => with_capPc P' CapGuard)
      else P
  | CapReturned => P
  end.

Definition readMove (r : list byte + string) (P : Pipe) : Pipe :=
  match capPc P with
  | CapRead p =>
      match r with
      | inl datagram =>
          act P (readInto p datagram) (fun _ P' => with_capPc P' (CapSend p))
      | inr _ => act P (emit EvWgDone) (fun _ P' => with_capPc P' CapReturned)
      end
  | _ => P
  end.

(** A send that finds a worker waiting in its receive hands the packet
    over; on an unbuffered channel that is the only way to send. *)
Definition handoffMove (w : nat) (P : Pipe) : Pipe :=
  match capPc P, packets (sys P), nth_error (workPcs P) w with
  | CapSend p, [], Some (WLoop fd addr LRecv) =>
      with_capPc (with_worker P w (WLoop fd addr (LSend p))) CapGuard
  | _, _, _ => P
  end.

(** A worker, [handlePackets], lines 167 to 189. *)
Definition workerMove (env : Env) (w : nat) (sendErr : option string)
           (P : Pipe) : Pipe :=
  match nth_error (workPcs P) w with
  | None => P
  | Some WStart =>
      act P (handlePacketsInit env)
          (fun r P' => with_worker P' w (WLoop (fst r) (snd r) LGuard))
  | Some (WLoop fd addr LGuard) =>
      with_worker P w (if running (state (cl (sys P)))
                       then WLoop fd addr LRecv else WReturned)
  | Some (WLoop fd addr LRecv) =>
      match packets (sys P) with
      | p :: rest =>
          with_worker (with_sys P (with_packets (sys P) rest)) w
                      (WLoop fd addr (LSend p))
      | [] => P
      end
  | Some (WLoop fd addr (LSend p)) =>
      act P (sendPacket fd addr sendErr p)
          (fun _ P' => with_worker P' w (WLoop fd addr (LPut p)))
  | Some (WLoop fd addr (LPut p)) =>
      act P (poolPut p) (fun _ P' => with_worker P' w (WLoop fd addr LGuard))
  | Some WReturned => P
  end.

Definition pstep (env : Env) (m : Move) (P : Pipe) : Pipe :=
  match crashed P with
  | Some _ => P
  | None =>
      match m with
      | MCapture choice => captureMove choice P
      | MRead r => readMove r P
      | MHandoff w => handoffMove w P
      | MWorker w sendErr => workerMove env w sendErr P
      | MState st => act P (putState st) (fun _ P' => P')
      | MCollect k =>
          with_sys P (with_idle (sys P) (removeNth (idle (sys P)) k))
      end
  end.

Definition prun (env : Env) (moves : list Move) (P : Pipe) : Pipe :=
  fold_left (fun P m => pstep env m P) moves P.

(** The pipeline where [listen] has made its pool and started its workers:
    nothing allocated, nothing queued, the capture loop about to set the
    state, no worker started yet. *)
Definition pipeStart (c : Client) (mtu : Z) (cap : nat) : Pipe :=
  mkPipe (mkSys c (repeat EvSpawnHandlePackets 20) [] [] [] mtu) cap
         CapStart (repeat WStart 20) None.

(** How often a packet was taken from and given back to the pool. *)
Definition isGet (p : ptr) (e : Event) : bool :=
  match e with EvPoolGet q => Nat.eqb p q | _ => false end.
Definition isPut (p : ptr) (e : Event) : bool :=
  match e with EvPoolPut q => Nat.eqb p q | _ => false end.

Definition countGet (p : ptr) (t : list Event) : nat :=
  List.length (filter (isGet p) t).
Definition countPut (p : ptr) (t : list Event) : nat :=
  List.length (filter (isPut p) t).

(* ================================================================== *)
(** ** Two goroutines in the shutdown procedure *)

(** [gracefulStop] holds no lock, so two goroutines that call it run its
    statements interleaved.  A program point per statement of
    [gracefulStop], with the two statements of [deregister] in line. *)
Inductive Pc : Type :=
| PcTest            (* if c.state != Deregistering *)
| PcSetState        (* c.state = Deregistering *)
| PcWrite           (* c.comm.WriteLine("DEREGISTER " + c.name) *)
| PcCommClose       (* c.comm.Close() *)
| PcListenerClose   (* c.dataListener.Close() *)
| PcDetach          (* c.detachVIP() *)
| PcRecover         (* if r := recover(); r != nil { log.Errorln(r) } *)
| PcExit.           (* os.Exit(0) *)

(** The statement at [pc], and the program point after it. *)
Definition threadStep (env : Env) (pc : Pc) : M Pc :=
  match pc with
  | PcTest =>
      st <- getState ;;
      ret (if negb (State_eqb st Deregistering) then PcSetState
           else PcCommClose)
  | PcSetState => putState Deregistering ;;; ret PcWrite
  | PcWrite =>
      c <- getClient ;;
      emit (EvWriteLine ("DEREGISTER " ++ name c)%string) ;;;
      ret PcCommClose
  | PcCommClose => emit EvCommClose ;;; ret PcListenerClose
  | PcListenerClose => emit EvListenerClose ;;; ret PcDetach
  | PcDetach => detachVIP env ;;; ret PcRecover
  | PcRecover =>
      match recover env with
      | Some r => emit (EvLog Error r)
      | None => ret tt
      end ;;;
      ret PcExit
  | PcExit => osExit 0
  end.

(** One goroutine alone, for [n] statements. *)
Fixpoint runThread (env : Env) (n : nat) (pc : Pc) : M Pc :=
  match n with
  | O => ret pc
  | S n' => pc' <- threadStep env pc ;; runThread env n' pc'
  end.

(** Two goroutines; [true] in the schedule lets the first one run its next
    statement, [false] the second.  [os.Exit] in either ends both. *)
Fixpoint runTwo (env : Env) (sched : list bool) (pcA pcB : Pc)
  : M (Pc * Pc) :=
  match sched with
  | [] => ret (pcA, pcB)
  | true :: rest =>
      pcA' <- threadStep env pcA ;; runTwo env rest pcA' pcB
  | false :: rest =>
      pcB' <- threadStep env pcB ;; runTwo env rest pcA pcB'
  end.

Definition isDeregister (e : Event) : bool :=
  match e with
  | EvWriteLine line => String.prefix "DEREGISTER " line
  | _ => false
  end.

(** A detachment attempt starts with the lookup of the loopback interface. *)
Definition isDetach (e : Event) : bool :=
  match e with
  | EvLinkByName dev => String.eqb dev "lo"
  | _ => false
  end.

Definition countDeregister (t : list Event) : nat :=
  List.length (filter isDeregister t).
Definition countDetach (t : list Event) : nat :=
  List.length (filter isDetach t).

(* ================================================================== *)
(** ** Sample values used by the examples *)

Definition lo : Link := mkLink "lo" 65536.
Definition eth0 : Link := mkLink "eth0" 1500.

Definition sampleDevices : list Interface :=
  [ mkInterface "lo" [mkInterfaceAddress [127;0;0;1]%N [255;0;0;0]%N];
    mkInterface "eth0" [mkInterfaceAddress [10;0;0;7]%N [255;255;255;0]%N] ].

(** An environment in which every call succeeds. *)
Definition okEnv : Env :=
  mkEnv (fun dev => if String.eqb dev "lo" then inl lo
                    else if String.eqb dev "eth0" then inl eth0
                    else inr "Link not found")
        (fun _ _ => None) (fun _ _ => None) (fun _ => None) None None
        (inl sampleDevices) 3 None.

(** An environment in which the address calls and the session fail, and a
    panic is in flight where [gracefulStop] is called. *)
Definition badEnv : Env :=
  mkEnv (fun dev => if String.eqb dev "lo" then inl lo
                    else inr "Link not found")
        (fun _ _ => Some "file exists")
        (fun _ _ => Some "cannot assign requested address")
        (fun _ => Some "broken pipe") (Some "closed") (Some "closed")
        (inr "permission denied") (-1) (Some "boom").





Definition node1 (st : State) : Client :=
  mkClient st "node1" [10;0;0;100]%N [10;0;0;7]%N 5.

(* ================================================================== *)
(** ** Expected behaviour, as functions of the inputs *)

(** The events of one detachment attempt. *)
Definition detachEvents (env : Env) (c : Client) : list Event :=
  EvLinkByName "lo" ::
  match LinkByName env "lo" with
  | inl l => [EvAddrDel l (vipNet c)]
  | inr _ => []
  end.

(** The events of the shutdown procedure entered in state [st]. *)
Definition shutdownEvents (env : Env) (c : Client) : list Event :=
  (if State_eqb (state c) Deregistering then []
   else [EvWriteLine ("DEREGISTER " ++ name c)%string])
  ++ [EvCommClose; EvListenerClose]
  ++ detachEvents env c
  ++ match recover env with Some r => [EvLog Error r] | None => [] end
  ++ [EvExit 0].

(** The first space-separated token of a line. *)
Definition directiveOf (message : string) : string :=
  hd "" (Split message " "%char).

(** What the reader logs for a line whose directive changes nothing. *)
Definition directiveLog (message : string) : list Event :=
  if String.eqb (directiveOf message) "INVALID" then [EvLog Debug message]
  else if String.eqb (directiveOf message) "HEALTHACK" then
    if Nat.ltb (List.length (Split message " "%char)) 2
    then [EvLog Debug "HEALTHACK received from server with no status code"]
    else []
  else [EvLog Debug
          ("Message received from server not matching spec: " ++ message)%string].

Definition addTrace (s : Sys) (evs : list Event) : Sys :=
  with_trace s (trace s ++ evs).

Definition setState (s : Sys) (st : State) : Sys :=
  with_cl s (set_state (cl s) st).

(* ================================================================== *)
(** ** States, invariants and measures used in the statements *)

(** What one matching address does to [foundDevice]. *)
Definition stepName (foundDevice device : string) : string + string :=
  if String.eqb foundDevice "" then inl device
  else if negb (String.eqb foundDevice device) then inr errMultipleDevices
  else inl foundDevice.

Fixpoint scanNames (names : list string) (foundDevice : string)
  : string + string :=
  match names with
  | [] => inl foundDevice
  | n :: rest =>
      match stepName foundDevice n with
      | inr err => inr err
      | inl found => scanNames rest found
      end
  end.

(** The packet [pool.Get()] hands out in [s], and the pool after it. *)
Definition acquired (s : Sys) : ptr :=
  match idle s with p :: _ => p | [] => List.length (heap s) end.

Definition heapAfterGet (s : Sys) : list rawPacket :=
  match idle s with
  | _ :: _ => heap s
  | [] => heap s ++ [newPacket (poolSize s)]
  end.

(** The packet after [ReadFrom] copied [datagram] into it and [size] was
    set to the number of bytes copied. *)
Definition filled (pkt : rawPacket) (datagram : list byte) : rawPacket :=
  let n := Nat.min (List.length datagram) (List.length (payload pkt)) in
  mkRawPacket (Z.of_nat n) (firstn n datagram ++ skipn n (payload pkt)).

Definition wellSized (pkt : rawPacket) : Prop :=
  (0 <= size pkt <= Z.of_nat (List.length (payload pkt)))%Z.





(** How many DEREGISTER lines a goroutine at [pc] can have sent, and how
    many detachments it has attempted. *)
Definition sentBound (pc : Pc) : nat :=
  match pc with PcTest | PcSetState | PcWrite => 0 | _ => 1 end.

Definition detached (pc : Pc) : nat :=
  match pc with PcRecover | PcExit => 1 | _ => 0 end.

(** A goroutine that is not between its test of the state and its send. *)
Definition settled (pc : Pc) : bool :=
  match pc with PcSetState | PcWrite => false | _ => true end.

(* ================================================================== *)
(** ** Heartbeat: [sendHealth] *)





(* ================================================================== *)
(** ** Further states and measures used in the statements *)

(** The names of the matching interfaces from the first named one on. *)
Fixpoint dropUnnamed (names : list string) : list string :=
  match names with
  | [] => []
  | n :: rest => if String.eqb n "" then dropUnnamed rest else n :: rest
  end.

(** The state a control line leaves behind, when it is not DEREGISTERED. *)
Definition messageState (st : State) (message : string) : State :=
  if String.eqb (directiveOf message) "PAUSED" then Paused
  else if String.eqb (directiveOf message) "RESUMED" then Active
  else st.

(** What the reader logs for a line that is not DEREGISTERED. *)
Definition lineLog (message : string) : list Event :=
  if String.eqb (directiveOf message) "PAUSED" then []
  else if String.eqb (directiveOf message) "RESUMED" then []
  else directiveLog message.

Definition isTerminal (message : string) : bool :=
  String.eqb (directiveOf message) "DEREGISTERED".

(** Whether a DEREGISTERED line arrives before the first failed read. *)
Fixpoint endsByDirective (inbound : list (string + string)) : bool :=
  match inbound with
  | inl message :: rest =>
      if isTerminal message then true else endsByDirective rest
  | _ => false
  end.

(** An assignment by another goroutine of a state other than Active and
    Paused. *)
Definition stops (change : option State) : bool :=
  match change with Some st => negb (running st) | None => false end.

Definition stoppedByOther
           (inbound : list (option State * option State * (string + string)))
  : bool :=
  existsb (fun x => stops (fst (fst x)) || stops (snd (fst x))) inbound.

(** No other goroutine assigns the state. *)
Definition alone
           (inbound : list (option State * option State * (string + string)))
  : bool :=
  forallb (fun x => match x with (None, None, _) => true | _ => false end)
          inbound.

Definition isWgDone (e : Event) : bool :=
  match e with EvWgDone => true | _ => false end.

Definition countWgDone (t : list Event) : nat :=
  List.length (filter isWgDone t).

(** A token without a space. *)
Fixpoint noSpace (s : string) : bool :=
  match s with
  | EmptyString => true
  | String ch rest => negb (Ascii.eqb ch " "%char) && noSpace rest
  end.

(** The frames handed to [syscall.Sendto], in order. *)
Definition sentData (t : list Event) : list (list byte) :=
  flat_map (fun e => match e with EvSendto _ d _ => [d] | _ => [] end) t.

(** The frame a queued packet holds: the first [size] bytes of its payload. *)
Definition frameOf (h : list rawPacket) (p : ptr) : list byte :=
  match nth_error h p with
  | Some pkt => firstn (Z.to_nat (size pkt)) (payload pkt)
  | None => []
  end.

(* ================================================================== *)
(** ** Who holds a packet *)

(** The packet the capture loop holds, for its read or for its send. *)
Definition capHeld (pc : CapPc) : list ptr :=
  match pc with
  | CapRead p | CapSend p => [p]
  | _ => []
  end.

(** The packet a worker holds between its receive and its release. *)
Definition wheld (pc : WorkPc) : list ptr :=
  match pc with
  | WLoop _ _ (LSend p) | WLoop _ _ (LPut p) => [p]
  | _ => []
  end.

(** The packets that are out of the pool and held by somebody: by the
    capture loop, by the channel, by a worker. *)
Definition heldOut (P : Pipe) : list ptr :=
  capHeld (capPc P) ++ packets (sys P) ++ flat_map wheld (workPcs P).

(** How often [p] occurs in [l]. *)
Definition occ (l : list ptr) (p : ptr) : nat := count_occ Nat.eq_dec l p.

(** A packet is at one place at most, every packet that is somewhere
    exists, a packet that is held has been taken once more than given back,
    an idle one as often, and none was ever given back more often than
    taken, or taken twice without being given back. *)
Record Accounted (P : Pipe) : Prop := mkAccounted {
  acc_one : forall p, occ (idle (sys P)) p + occ (heldOut P) p <= 1;
  acc_heap : forall p,
      1 <= occ (idle (sys P)) p + occ (heldOut P) p ->
      p < List.length (heap (sys P));
  acc_count : forall p,
      countPut p (trace (sys P)) + occ (heldOut P) p
      <= countGet p (trace (sys P)) <= S (countPut p (trace (sys P)));
  acc_idle : forall p,
      1 <= occ (idle (sys P)) p ->
      countGet p (trace (sys P)) = countPut p (trace (sys P));
  acc_new : forall p,
      List.length (heap (sys P)) <= p -> countGet p (trace (sys P)) = 0;
  acc_sized : Forall wellSized (heap (sys P))
}.

(** The conditions of [Accounted] on one packet. *)
Definition acctAt (P : Pipe) (p : ptr) : Prop :=
  occ (idle (sys P)) p + occ (heldOut P) p <= 1
  /\ (1 <= occ (idle (sys P)) p + occ (heldOut P) p ->
      p < List.length (heap (sys P)))
  /\ countPut p (trace (sys P)) + occ (heldOut P) p
     <= countGet p (trace (sys P)) <= S (countPut p (trace (sys P)))
  /\ (1 <= occ (idle (sys P)) p ->
      countGet p (trace (sys P)) = countPut p (trace (sys P)))
  /\ (List.length (heap (sys P)) <= p -> countGet p (trace (sys P)) = 0).

(** What one move can do to the whereabouts of packet [p]: nothing; or [p]
    is taken from the idle packets; or [p] is new; or [p] is given back by
    its holder; or the runtime drops [p] from the idle packets; or, when
    the move is a read that fails, its holder forgets [p]. *)
Definition moved (m : Move) (P P' : Pipe) (p : ptr) : Prop :=
  let I := occ (idle (sys P)) p in
  let O := occ (heldOut P) p in
  let G := countGet p (trace (sys P)) in
  let U := countPut p (trace (sys P)) in
  let I' := occ (idle (sys P')) p in
  let O' := occ (heldOut P') p in
  let G' := countGet p (trace (sys P')) in
  let U' := countPut p (trace (sys P')) in
  (I' = I /\ O' = O /\ G' = G /\ U' = U)
  \/ (I = S I' /\ O' = S O /\ G' = S G /\ U' = U)
  \/ (List.length (heap (sys P)) <= p < List.length (heap (sys P'))
      /\ I' = I /\ O' = S O /\ G' = S G /\ U' = U)
  \/ (I' = S I /\ O = S O' /\ G' = G /\ U' = S U)
  \/ (I = S I' /\ O' = O /\ G' = G /\ U' = U)
  \/ (match m with MRead (inr _) => True | _ => False end
      /\ I' = I /\ O = S O' /\ G' = G /\ U' = U).

(** No packet is lost: one that was taken and not given back is held. *)
Definition NoLoss (P : Pipe) : Prop :=
  forall p, countGet p (trace (sys P))
            = countPut p (trace (sys P)) + occ (heldOut P) p.

Definition noReadError (moves : list Move) : bool :=
  forallb (fun m => match m with MRead (inr _) => false | _ => true end)
          moves.

(** The packets that hold a frame not yet sent: the one the capture loop
    is sending to the channel, the ones in the channel, the ones the
    workers have received and not yet passed to Sendto. *)
Definition capFramed (pc : CapPc) : list ptr :=
  match pc with CapSend p => [p] | _ => [] end.

Definition wFramed (pc : WorkPc) : list ptr :=
  match pc with WLoop _ _ (LSend p) => [p] | _ => [] end.

Definition unsent (P : Pipe) : list ptr :=
  capFramed (capPc P) ++ packets (sys P) ++ flat_map wFramed (workPcs P).

(** Their frames. *)
Definition framesOf (P : Pipe) : list (list byte) :=
  map (frameOf (heap (sys P))) (unsent P).

(** How often the frame [f] occurs in [l]. *)
Definition focc (l : list (list byte)) (f : list byte) : nat :=
  count_occ (list_eq_dec Byte.byte_eq_dec) l f.

(** The datagrams that the reads of a run deliver, in order. *)
Definition delivered (moves : list Move) : list (list byte) :=
  flat_map (fun m => match m with MRead (inl d) => [d] | _ => [] end) moves.

(** Every payload has the size the pool was made for. *)
Definition payloadLen (P : Pipe) : Prop :=
  Forall (fun pkt => List.length (payload pkt) = Z.to_nat (poolSize (sys P)))
         (heap (sys P)).

(** The workers that are in a pass: waiting for a packet or holding one
    they have not passed to Sendto yet. *)
Definition inPass (pc : WorkPc) : nat :=
  match pc with
  | WLoop _ _ LRecv | WLoop _ _ (LSend _) => 1
  | _ => 0
  end.

Definition passes (ws : list WorkPc) : nat := list_sum (map inPass ws).

(** The capture loop between its guard and its [pool.Get()]. *)
Definition getPending (pc : CapPc) : nat :=
  match pc with CapGet => 1 | _ => 0 end.

(** How many packets were taken from the pool. *)
Definition allGets (t : list Event) : nat :=
  List.length
    (filter (fun e => match e with EvPoolGet _ => true | _ => false end) t).

Definition noStateMove (moves : list Move) : bool :=
  forallb (fun m => match m with MState _ => false | _ => true end) moves.

(* ================================================================== *)
(** ** Basic facts *)

Ltac run :=
  unfold bind, ret, emit, getState, getClient, putState, modify, gets,
    osExit, panic, blocked, when, addTrace, setState; cbn.

Lemma State_eqb_spec (a b : State) : reflect (a = b) (State_eqb a b).
Proof. destruct a, b; constructor; congruence. Qed.

Lemma with_trace_same (s : Sys) : with_trace s (trace s) = s.
Proof. destruct s; reflexivity. Qed.

Lemma addTrace_nil (s : Sys) : addTrace s [] = s.
Proof. unfold addTrace. rewrite app_nil_r. apply with_trace_same. Qed.

Lemma detachVIP_run (env : Env) (s : Sys) :
  detachVIP env s =
  (Ret (match LinkByName env "lo" with inl _ => None | inr err => Some err end),
   addTrace s (detachEvents env (cl s))).
Proof.
  unfold detachVIP, detachEvents. run.
  destruct (LinkByName env "lo"); cbn; unfold with_trace; cbn;
    now rewrite <- ?app_assoc.
Qed.

Lemma attachVIP_run (env : Env) (s : Sys) :
  attachVIP env s =
  match LinkByName env "lo" with
  | inl l => (Ret None, addTrace s [EvLinkByName "lo"; EvAddrAdd l (vipNet (cl s))])
  | inr err => (Ret (Some err), addTrace s [EvLinkByName "lo"])
  end.
Proof.
  unfold attachVIP. run.
  destruct (LinkByName env "lo"); cbn; unfold with_trace; cbn;
    now rewrite <- ?app_assoc.
Qed.

Lemma deregister_run (env : Env) (s : Sys) :
  deregister env s =
  (Ret (WriteLine env ("DEREGISTER " ++ name (cl s))%string),
   addTrace (setState s Deregistering)
            [EvWriteLine ("DEREGISTER " ++ name (cl s))%string]).
Proof. reflexivity. Qed.

Lemma gracefulStop_run (env : Env) (s : Sys) :
  gracefulStop env s =
  (Exited 0, addTrace (setState s Deregistering) (shutdownEvents env (cl s))).
Proof.
  unfold gracefulStop, shutdownEvents, deregister, detachVIP, detachEvents.
  destruct s as [c t h i q n]; destruct c as [st nm v d hr].
  run. unfold with_trace, with_cl, set_state; cbn.
  destruct st; cbn; destruct (LinkByName env "lo"); cbn;
    destruct (recover env); cbn; rewrite <- ?app_assoc; reflexivity.
Qed.

Lemma prefix_app (a b : string) : String.prefix a (a ++ b)%string = true.
Proof.
  induction a as [|ch a IH]; cbn.
  - now destruct b.
  - destruct (ascii_dec ch ch); [exact IH | congruence].
Qed.

Lemma countDeregister_app (a b : list Event) :
  countDeregister (a ++ b) = countDeregister a + countDeregister b.
Proof. unfold countDeregister. now rewrite filter_app, length_app. Qed.

Lemma countDetach_app (a b : list Event) :
  countDetach (a ++ b) = countDetach a + countDetach b.
Proof. unfold countDetach. now rewrite filter_app, length_app. Qed.

(* ================================================================== *)
(** ** The shutdown procedure and the lifecycle commands *)



(** C6.  [pause] in state Paused returns its local error and sends nothing,
    in any other state it sends exactly "PAUSE <name>"; [resume] in state
    Active returns its local error and sends nothing, in any other state it
    sends exactly "RESUME <name>"; neither changes the state.  [deregister]
    sets the state to Deregistering and sends "DEREGISTER <name>". *)
Theorem lifecycle_commands (env : Env) (s : Sys) :
  pause env s =
    (if State_eqb (state (cl s)) Paused
     then (Ret (Some errAlreadyPaused), s)
     else (Ret (WriteLine env ("PAUSE " ++ name (cl s))%string),
           addTrace s [EvWriteLine ("PAUSE " ++ name (cl s))%string]))
  /\ resume env s =
    (if State_eqb (state (cl s)) Active
     then (Ret (Some errAlreadyActive), s)
     else (Ret (WriteLine env ("RESUME " ++ name (cl s))%string),
           addTrace s [EvWriteLine ("RESUME " ++ name (cl s))%string]))
  /\ cl (snd (pause env s)) = cl s
  /\ cl (snd (resume env s)) = cl s
  /\ deregister env s =
    (Ret (WriteLine env ("DEREGISTER " ++ name (cl s))%string),
     addTrace (setState s Deregistering)
       [EvWriteLine ("DEREGISTER " ++ name (cl s))%string]).
Proof.
  unfold pause, resume. run.
  repeat split; try (destruct (state (cl s)); reflexivity).
Qed.

(* ================================================================== *)
(** ** The control reader *)

Lemma Split_cons (s : string) (sep : ascii) :
  exists tok toks, Split s sep = tok :: toks.
Proof.
  induction s as [|ch s [tok [toks IH]]]; cbn.
  - now eexists _, _.
  - destruct (Ascii.eqb ch sep); [now eexists _, _|].
    rewrite IH. now eexists _, _.
Qed.

Lemma handleLine_dispatch (env : Env) (message : string) :
  handleLine env message =
  dispatch env message (Split message " "%char).
Proof.
  unfold handleLine.
  destruct (Split_cons message " "%char) as [tok [toks E]].
  now rewrite E.
Qed.

Lemma dispatch_directive (message : string) :
  nth_error (Split message " "%char) 0 = Some (directiveOf message).
Proof.
  unfold directiveOf.
  destruct (Split_cons message " "%char) as [tok [toks E]].
  now rewrite E.
Qed.

(** The outcome of one line, by directive. *)
Lemma handleLine_run (env : Env) (message : string) (s : Sys) :
  handleLine env message s =
  if String.eqb (directiveOf message) "PAUSED" then (Ret true, setState s Paused)
  else if String.eqb (directiveOf message) "RESUMED" then
    (Ret true, setState s Active)
  else if String.eqb (directiveOf message) "DEREGISTERED" then
    (Exited 0,
     addTrace (setState s Deregistering)
       ([EvCommClose; EvListenerClose] ++ detachEvents env (cl s)
        ++ match recover env with Some r => [EvLog Error r] | None => [] end
        ++ [EvExit 0]))
  else (Ret true, addTrace s (directiveLog message)).
Proof.
  rewrite handleLine_dispatch. unfold dispatch, directiveLog.
  rewrite dispatch_directive.
  destruct (String.eqb_spec (directiveOf message) "INVALID") as [E|_];
    [rewrite E; reflexivity|].
  destruct (String.eqb_spec (directiveOf message) "DEREGISTERED") as [E|_].
  { rewrite E. cbn [String.eqb Ascii.eqb Bool.eqb].
    unfold bind at 1. unfold putState at 1, modify. unfold bind at 1.
    rewrite gracefulStop_run.
    unfold shutdownEvents, setState, addTrace, with_trace, with_cl; cbn.
    reflexivity. }
  destruct (String.eqb_spec (directiveOf message) "PAUSED") as [E|_];
    [reflexivity|].
  destruct (String.eqb_spec (directiveOf message) "RESUMED") as [E|_];
    [reflexivity|].
  destruct (String.eqb_spec (directiveOf message) "HEALTHACK") as [E|_].
  - destruct (Nat.ltb (List.length (Split message " "%char)) 2);
      [reflexivity|].
    now rewrite addTrace_nil.
  - reflexivity.
Qed.

(** C3.  A line read while the state is Active or Paused has exactly the
    effect of the directive table on the lifecycle state: first token PAUSED
    sets Paused and the loop goes on; RESUMED sets Active and the loop goes
    on; DEREGISTERED sets Deregistering, runs the shutdown procedure (which
    then sends no DEREGISTER line) and ends the loop with the exit of the
    process; every other line (INVALID, HEALTHACK with or without a code,
    the empty line, anything unrecognised) leaves the state as it was, at
    most logs, and the loop goes on.  No line makes the reader panic. *)
Theorem control_directive_table (env : Env) (message : string)
        (rest : list (string + string)) (s : Sys) :
  running (state (cl s)) = true ->
  handleLine env message s =
    (if String.eqb (directiveOf message) "PAUSED" then
       (Ret true, setState s Paused)
     else if String.eqb (directiveOf message) "RESUMED" then
       (Ret true, setState s Active)
     else if String.eqb (directiveOf message) "DEREGISTERED" then
       (Exited 0,
        addTrace (setState s Deregistering)
          ([EvCommClose; EvListenerClose] ++ detachEvents env (cl s)
           ++ match recover env with Some r => [EvLog Error r] | None => [] end
           ++ [EvExit 0]))
     else (Ret true, addTrace s (directiveLog message)))
  /\ readerLoop env (inl message :: rest) s =
     (continue <- handleLine env message ;;
      if continue then readerLoop env rest else ret tt) s
  /\ cl (addTrace s (directiveLog message)) = cl s
  /\ (forall v, fst (handleLine env message s) <> Panicked v)
  /\ directiveLog "" =
       [EvLog Debug "Message received from server not matching spec: "]
  /\ directiveLog "HEALTHACK 200" = []
  /\ directiveLog "HEALTHACK" =
       [EvLog Debug "HEALTHACK received from server with no status code"].
Proof.
  intros Hrun. repeat split.
  - apply handleLine_run.
  - cbn [readerLoop]. unfold bind at 1. unfold getState at 1, gets.
    now rewrite Hrun.
  - intros v. rewrite handleLine_run.
    destruct (String.eqb (directiveOf message) "PAUSED"); [discriminate|].
    destruct (String.eqb (directiveOf message) "RESUMED"); [discriminate|].
    destruct (String.eqb (directiveOf message) "DEREGISTERED"); discriminate.
Qed.

Lemma control_directive_table_witness :
  running (state (cl (initSys (node1 Active)))) = true
  /\ handleLine okEnv "PAUSED" (initSys (node1 Active))
     = (Ret true, setState (initSys (node1 Active)) Paused)
  /\ readerLoop okEnv [inl "PAUSED"; inl "RESUMED extra"]
       (initSys (node1 Active))
     = (continue <- handleLine okEnv "PAUSED" ;;
        if continue then readerLoop okEnv [inl "RESUMED extra"] else ret tt)
         (initSys (node1 Active)).
Proof.
  split; [reflexivity|].
  split.
  - exact (proj1 (control_directive_table okEnv "PAUSED" []
                    (initSys (node1 Active)) eq_refl)).
  - exact (proj1 (proj2 (control_directive_table okEnv "PAUSED"
                           [inl "RESUMED extra"]
                           (initSys (node1 Active)) eq_refl))).
Defined.

(* ================================================================== *)
(** ** The device resolver *)

Lemma stepName_same (dev : string) : stepName dev dev = inl dev.
Proof.
  unfold stepName. rewrite String.eqb_refl. cbn.
  now destruct (String.eqb dev "").
Qed.

Lemma scanAddresses_run (ip : IP) (dev : string)
      (addrs : list InterfaceAddress) :
  forall found,
    scanAddresses ip dev addrs found =
    if existsb (addrContains ip) addrs then stepName found dev else inl found.
Proof.
  induction addrs as [|a addrs IH]; intros found; cbn; [reflexivity|].
  destruct (addrContains ip a); cbn; [|apply IH].
  unfold stepName.
  destruct (String.eqb found "") eqn:E0.
  - rewrite IH, stepName_same. now destruct (existsb _ addrs).
  - destruct (String.eqb_spec found dev) as [->|N]; cbn; [|reflexivity].
    rewrite IH, stepName_same. now destruct (existsb _ addrs).
Qed.

Lemma scanDevices_names (ip : IP) (devices : list Interface) :
  forall found,
    scanDevices ip devices found = scanNames (matches ip devices) found.
Proof.
  unfold matches.
  induction devices as [|d devices IH]; intros found; cbn; [reflexivity|].
  rewrite scanAddresses_run. unfold devMatches at 1.
  destruct (existsb (addrContains ip) (Addresses d)); cbn.
  - destruct (stepName found (devName d)); [apply IH | reflexivity].
  - apply IH.
Qed.

Lemma scanNames_found (names : list string) (found : string) :
  found <> "" ->
  scanNames names found =
  if forallb (String.eqb found) names then inl found
  else inr errMultipleDevices.
Proof.
  intros Hf. induction names as [|n names IH]; cbn; [reflexivity|].
  unfold stepName. destruct (String.eqb_spec found "") as [?|_]; [easy|].
  destruct (String.eqb found n); cbn; [exact IH | reflexivity].
Qed.

(** [findDevice] in closed form, when the matching interfaces have names. *)
Lemma findDevice_run (ip : IP) (devices : list Interface) :
  Forall (fun n => n <> "") (matches ip devices) ->
  findDevice (inl devices) ip =
  match matches ip devices with
  | [] => inr errNoDevice
  | n :: rest =>
      if forallb (String.eqb n) rest then inl n else inr errMultipleDevices
  end.
Proof.
  intros Hne. unfold findDevice. rewrite scanDevices_names.
  destruct (matches ip devices) as [|n rest]; cbn; [reflexivity|].
  inversion Hne as [|? ? Hn _]; subst.
  rewrite scanNames_found by exact Hn.
  destruct (forallb (String.eqb n) rest); [|reflexivity].
  now destruct (String.eqb_spec n "").
Qed.

Lemma forallb_eqb_Forall (n : string) (l : list string) :
  forallb (String.eqb n) l = true <-> Forall (eq n) l.
Proof.
  rewrite forallb_forall, Forall_forall.
  split; intros H x Hx; specialize (H x Hx).
  - now apply String.eqb_eq.
  - now apply String.eqb_eq.
Qed.

(** C2, amended.  When every interface whose subnet contains the target has
    a non-empty name: resolution returns a name exactly when at least one
    interface matches and all matches carry that one name; it fails with the
    no-matching-device error exactly when nothing matches; it fails with the
    ambiguous-device error exactly when two matches carry different names. *)
Theorem findDevice_resolution (ip : IP) (devices : list Interface) :
  Forall (fun n => n <> "") (matches ip devices) ->
  (forall dev,
      findDevice (inl devices) ip = inl dev <->
      matches ip devices <> [] /\ Forall (eq dev) (matches ip devices))
  /\ (findDevice (inl devices) ip = inr errNoDevice <->
      matches ip devices = [])
  /\ (findDevice (inl devices) ip = inr errMultipleDevices <->
      exists a b, In a (matches ip devices) /\ In b (matches ip devices)
                  /\ a <> b).
Proof.
  intros Hne. rewrite (findDevice_run _ _ Hne).
  destruct (matches ip devices) as [|n rest] eqn:E.
  - split; [intros dev; split | split; split].
    + discriminate.
    + now intros [H _].
    + reflexivity.
    + reflexivity.
    + intros H. inversion H.
    + intros [a [b [[] _]]].
  - destruct (forallb (String.eqb n) rest) eqn:F.
    + apply forallb_eqb_Forall in F.
      split; [intros dev; split | split; split].
      * intros H. inversion H; subst. split; [discriminate | now constructor].
      * intros [_ H]. inversion H; now subst.
      * discriminate.
      * discriminate.
      * discriminate.
      * intros [a [b [Ha [Hb Hab]]]]. exfalso. apply Hab.
        assert (Hall : Forall (eq n) (n :: rest)) by now constructor.
        rewrite Forall_forall in Hall.
        now rewrite <- (Hall a Ha), <- (Hall b Hb).
    + assert (NF : ~ Forall (eq n) rest).
      { intros H. apply forallb_eqb_Forall in H. congruence. }
      split; [intros dev; split | split; split].
      * discriminate.
      * intros [_ H]. inversion H; subst. contradiction.
      * intros H. inversion H.
      * discriminate.
      * intros _. apply neg_Forall_Exists_neg in NF.
        -- apply Exists_exists in NF. destruct NF as [b [Hb Hnb]].
           exists n, b. repeat split; [now left | now right | exact Hnb].
        -- intros x. destruct (string_dec n x); [now left | now right].
      * reflexivity.
Qed.

Lemma findDevice_resolution_witness :
  Forall (fun n => n <> "") (matches [10;0;0;100]%N sampleDevices)
  /\ (findDevice (inl sampleDevices) [10;0;0;100]%N = inl "eth0" <->
      matches [10;0;0;100]%N sampleDevices <> []
      /\ Forall (eq "eth0") (matches [10;0;0;100]%N sampleDevices)).
Proof.
  assert (H : Forall (fun n => n <> "") (matches [10;0;0;100]%N sampleDevices)).
  { cbn. constructor; [discriminate | constructor]. }
  split; [exact H|].
  exact (proj1 (findDevice_resolution [10;0;0;100]%N sampleDevices H) "eth0").
Defined.

(** C2 as stated fails on an interface without a name: the empty string is
    also the marker of "nothing found yet".  One interface matches, and
    resolution reports that none does. *)
Lemma findDevice_unnamed_interface :
  let devices :=
    [mkInterface "" [mkInterfaceAddress [10;0;0;7]%N [255;255;255;0]%N]] in
  matches [10;0;0;100]%N devices = [""]
  /\ findDevice (inl devices) [10;0;0;100]%N = inr errNoDevice
  /\ ~ (findDevice (inl devices) [10;0;0;100]%N = inl "" <->
        matches [10;0;0;100]%N devices <> []
        /\ Forall (eq "") (matches [10;0;0;100]%N devices)).
Proof.
  cbn. repeat split.
  intros [_ H]. discriminate H. split; [discriminate | now constructor].
Qed.

(* ================================================================== *)
(** ** The VIP lifecycle manager *)

(** C9.  [attachVIP] returns an error exactly when the lookup of the
    loopback interface fails, and then that error; when the lookup succeeds
    it calls the address addition and returns nil whatever the addition
    answers.  [detachVIP] does the same with the address removal. *)
Theorem vip_errors_only_from_lookup (env : Env) (s : Sys) :
  (forall err, fst (attachVIP env s) = Ret (Some err) <->
               LinkByName env "lo" = inr err)
  /\ (forall err, fst (detachVIP env s) = Ret (Some err) <->
                  LinkByName env "lo" = inr err)
  /\ (forall l addErr delErr,
        LinkByName env "lo" = inl l ->
        AddrAdd env l (vipNet (cl s)) = addErr ->
        AddrDel env l (vipNet (cl s)) = delErr ->
        attachVIP env s =
          (Ret None, addTrace s [EvLinkByName "lo"; EvAddrAdd l (vipNet (cl s))])
        /\ detachVIP env s =
          (Ret None, addTrace s [EvLinkByName "lo"; EvAddrDel l (vipNet (cl s))])).
Proof.
  rewrite attachVIP_run, detachVIP_run. unfold detachEvents.
  destruct (LinkByName env "lo") as [l|e]; cbn.
  - split; [|split].
    + intros err; split; discriminate.
    + intros err; split; discriminate.
    + intros l' ? ? H _ _. now inversion H.
  - split; [|split].
    + intros err; split; intros H; inversion H; reflexivity.
    + intros err; split; intros H; inversion H; reflexivity.
    + intros l' ? ? H. discriminate H.
Qed.

Lemma vip_errors_only_from_lookup_witness :
  LinkByName badEnv "lo" = inl lo
  /\ AddrAdd badEnv lo (vipNet (node1 Active)) = Some "file exists"
  /\ AddrDel badEnv lo (vipNet (node1 Active))
     = Some "cannot assign requested address"
  /\ fst (attachVIP badEnv (initSys (node1 Active))) = Ret None
  /\ fst (detachVIP badEnv (initSys (node1 Active))) = Ret None.
Proof.
  refine (conj eq_refl (conj eq_refl (conj eq_refl _))).
  destruct (proj2 (proj2 (vip_errors_only_from_lookup badEnv
                            (initSys (node1 Active))))
              lo (Some "file exists")
              (Some "cannot assign requested address")
              eq_refl eq_refl eq_refl) as [Ha Hd].
  split; [now rewrite Ha | now rewrite Hd].
Defined.

(* ================================================================== *)
(** ** Relay workers *)

Lemma To4_length (ip x : IP) :
  To4 ip = Some x -> List.length ip = 4 \/ List.length ip = 16.
Proof.
  unfold To4, IPv4len, IPv6len.
  destruct (Nat.eqb_spec (List.length ip) 4) as [E|_]; [now left|].
  destruct (Nat.eqb_spec (List.length ip) 16) as [E|_]; [now right|].
  discriminate.
Qed.

Lemma sliceTo_4 (ip : IP) :
  4 <= List.length ip -> sliceTo ip 4 = Some (firstn 4 ip).
Proof.
  intros H. unfold sliceTo.
  replace (4 <=? Z.of_nat (List.length ip))%Z with true; [reflexivity|].
  symmetry. apply Z.leb_le. lia.
Qed.

Lemma copy4_firstn (ip : IP) :
  4 <= List.length ip -> copy4 (firstn 4 ip) = firstn 4 ip.
Proof.
  intros H. unfold copy4.
  rewrite firstn_app, firstn_firstn.
  replace (4 - List.length (firstn 4 ip)) with 0
    by (rewrite length_firstn; lia).
  cbn. now rewrite app_nil_r.
Qed.

(** C10.  A worker opens its socket and then, before its loop, panics when
    the VIP has no IPv4 form; when the VIP has one the worker does not panic
    and enters its loop with the destination made of port 0 and the first
    four bytes of the VIP. *)
Theorem handlePackets_requires_ipv4 (env : Env)
        (sends : list (option string)) (s : Sys) :
  (To4 (vip (cl s)) = None ->
   handlePackets env sends s =
     (Panicked "vip is not ipv4",
      addTrace s [EvSocket; EvLog PanicLevel "vip is not ipv4"]))
  /\ (To4 (vip (cl s)) <> None ->
      handlePacketsInit env s =
        (Ret (Socket env, mkSockaddrInet4 0 (firstn 4 (vip (cl s)))),
         addTrace s [EvSocket])
      /\ List.length (firstn 4 (vip (cl s))) = 4
      /\ handlePackets env sends s =
           relayLoop (Socket env)
             (mkSockaddrInet4 0 (firstn 4 (vip (cl s)))) sends
             (addTrace s [EvSocket])).
Proof.
  unfold handlePackets, handlePacketsInit. split.
  - intros H. run. rewrite H. cbn. unfold with_trace; cbn.
    now rewrite <- app_assoc.
  - intros H. destruct (To4 (vip (cl s))) as [x|] eqn:E; [|congruence].
    assert (L : 4 <= List.length (vip (cl s))).
    { destruct (To4_length _ E) as [L|L]; rewrite L; lia. }
    unfold bind, ret, emit, getClient, modify, gets, panic, addTrace.
    cbn [cl with_trace fst snd].
    rewrite E, (sliceTo_4 _ L), (copy4_firstn _ L).
    repeat split. rewrite length_firstn. lia.
Qed.

Lemma handlePackets_requires_ipv4_witness :
  To4 (vip (cl (initSys (node1 Active)))) <> None
  /\ To4 (vip (cl (initSys (mkClient Active "node6" [1;2;3]%N [] 5)))) = None
  /\ fst (handlePacketsInit okEnv (initSys (node1 Active)))
     = Ret (3%Z, mkSockaddrInet4 0 [10;0;0;100]%N)
  /\ fst (handlePackets okEnv []
            (initSys (mkClient Active "node6" [1;2;3]%N [] 5)))
     = Panicked "vip is not ipv4".
Proof.
  assert (H4 : To4 (vip (cl (initSys (node1 Active)))) <> None)
    by discriminate.
  split; [exact H4|]. split; [reflexivity|]. split.
  - now rewrite (proj1 (proj2 (handlePackets_requires_ipv4 okEnv []
                                 (initSys (node1 Active))) H4)).
  - now rewrite (proj1 (handlePackets_requires_ipv4 okEnv []
                          (initSys (mkClient Active "node6" [1;2;3]%N [] 5)))
                   eq_refl).
Defined.

(** The IPv4-mapped 16-byte form of an address also has an IPv4 form, and
    then the first four bytes of the VIP are zero. *)
Example handlePackets_mapped_vip :
  fst (handlePacketsInit okEnv
         (initSys (mkClient Active "node1"
                     [0;0;0;0;0;0;0;0;0;0;255;255;10;0;0;100]%N [] 5)))
  = Ret (3%Z, mkSockaddrInet4 0 [0;0;0;0]%N).
Proof. reflexivity. Qed.

(* ================================================================== *)
(** ** The pool and the loops, pass by pass *)

Lemma poolGet_run (s : Sys) :
  poolGet s =
  (Ret (acquired s),
   mkSys (cl s) (trace s ++ [EvPoolGet (acquired s)]) (heapAfterGet s)
         (tl (idle s)) (packets s) (poolSize s)).
Proof.
  unfold poolGet, acquired, heapAfterGet.
  destruct s as [c t h i q n]; cbn. now destruct i.
Qed.

Lemma nth_error_setNth {A} (l : list A) (i : nat) (x : A) :
  i < List.length l -> nth_error (setNth l i x) i = Some x.
Proof.
  revert i. induction l as [|a l IH]; intros [|i] H; cbn in *;
    try lia; [reflexivity|]. apply IH. lia.
Qed.

Lemma setNth_setNth {A} (l : list A) (i : nat) (x y : A) :
  setNth (setNth l i x) i y = setNth l i y.
Proof.
  revert i. induction l as [|a l IH]; intros [|i]; cbn;
    try reflexivity. now rewrite IH.
Qed.

Lemma length_setNth {A} (l : list A) (i : nat) (x : A) :
  List.length (setNth l i x) = List.length l.
Proof.
  revert i. induction l as [|a l IH]; intros [|i]; cbn;
    try reflexivity. now rewrite IH.
Qed.

Lemma Forall_setNth {A} (P : A -> Prop) (l : list A) (i : nat) (x : A) :
  Forall P l -> P x -> Forall P (setNth l i x).
Proof.
  intros Hl Hx. revert i.
  induction Hl as [|a l Ha Hl IH]; intros [|i]; cbn; constructor; auto.
Qed.


(** A pass of the capture loop whose read delivers [datagram]. *)
Lemma captureStep_ok (datagram : list byte) (s : Sys) (pkt : rawPacket) :
  nth_error (heapAfterGet s) (acquired s) = Some pkt ->
  captureStep (Some (inl datagram)) s =
  (Ret None,
   mkSys (cl s) (trace s ++ [EvPoolGet (acquired s); EvReadFrom (acquired s)])
         (setNth (heapAfterGet s) (acquired s) (filled pkt datagram))
         (tl (idle s)) (packets s ++ [acquired s]) (poolSize s)).
Proof.
  intros Hp.
  assert (Hlt : acquired s < List.length (heapAfterGet s))
    by (apply nth_error_Some; congruence).
  unfold captureStep. unfold bind at 1. rewrite poolGet_run.
  unfold bind, emit, load, store, enqueue, modify, ret, with_trace,
    with_heap, with_packets.
  cbn [cl trace heap idle packets poolSize].
  rewrite Hp. cbn [cl trace heap idle packets poolSize payload size].
  rewrite nth_error_setNth by exact Hlt.
  cbn [cl trace heap idle packets poolSize payload size].
  rewrite setNth_setNth.
  unfold filled. now rewrite <- app_assoc.
Qed.

(** A pass of a worker's loop on a channel whose oldest packet is [p]. *)
Lemma relayStep_run (fd : Z) (addr : SockaddrInet4) (sendErr : option string)
      (s : Sys) (p : ptr) (rest : list ptr) (pkt : rawPacket) :
  packets s = p :: rest ->
  nth_error (heap s) p = Some pkt ->
  wellSized pkt ->
  relayStep fd addr sendErr s =
  (Ret tt,
   mkSys (cl s)
         (trace s
          ++ [EvSendto fd (firstn (Z.to_nat (size pkt)) (payload pkt)) addr]
          ++ match sendErr with
             | Some _ => [EvLog Warn "Failed to write packet to local vip"]
             | None => []
             end
          ++ [EvPoolPut p])
         (heap s) (p :: idle s) rest (poolSize s)).
Proof.
  intros Hq Hp [Hlo Hhi].
  unfold relayStep, bind, load, emit, poolPut, when, gets, modify, ret,
    with_trace, with_idle, with_packets.
  rewrite Hq. cbn [cl trace heap idle packets poolSize].
  rewrite Hp. unfold sliceTo.
  replace (0 <=? size pkt)%Z with true by (symmetry; now apply Z.leb_le).
  replace (size pkt <=? Z.of_nat (List.length (payload pkt)))%Z with true
    by (symmetry; now apply Z.leb_le).
  cbn [andb]. destruct sendErr; cbn [cl trace heap idle packets poolSize];
    now rewrite <- ?app_assoc.
Qed.

(* ================================================================== *)
(** ** Sizes within the payloads *)

Lemma wellSized_new (n : Z) : wellSized (newPacket n).
Proof. unfold wellSized, newPacket; cbn. lia. Qed.

Lemma wellSized_filled (pkt : rawPacket) (d : list byte) :
  wellSized (filled pkt d).
Proof.
  unfold wellSized, filled; cbn.
  rewrite length_app, length_firstn, length_skipn. lia.
Qed.

(* ================================================================== *)
(** ** The capture loop and the shutdown procedure *)




















(* ================================================================== *)
(** ** Two concurrent invocations of the shutdown procedure *)

(** The statement-wise run of one goroutine is [gracefulStop]. *)
Lemma runThread_gracefulStop (env : Env) (s : Sys) :
  fst (runThread env 8 PcTest s) = Exited 0
  /\ snd (runThread env 8 PcTest s) = snd (gracefulStop env s).
Proof.
  rewrite gracefulStop_run.
  unfold shutdownEvents, detachEvents, addTrace, setState.
  destruct env as [lbn aa ad wl cc lc fad sock rc].
  destruct s as [c t h i q n]; destruct c as [st nm v d hr].
  cbv beta iota delta
      [runThread threadStep detachVIP bind ret emit getState getClient
       putState modify gets osExit with_trace with_cl set_state fst snd
       cl trace heap idle packets poolSize state name vip dataIP healthRate
       LinkByName recover negb State_eqb].
  destruct st; destruct (lbn "lo"); destruct rc; cbn;
    rewrite <- ?app_assoc; now split.
Qed.

Lemma isDeregister_line (n : string) :
  isDeregister (EvWriteLine ("DEREGISTER " ++ n)%string) = true.
Proof. apply (prefix_app "DEREGISTER " n). Qed.

(** One statement of one goroutine, and what it does to the two counts. *)
Lemma threadStep_cases (env : Env) (pc : Pc) (s : Sys) :
  (exists pc' s',
      threadStep env pc s = (Ret pc', s')
      /\ countDeregister (trace s') + sentBound pc
         <= countDeregister (trace s) + sentBound pc'
      /\ countDetach (trace s') + detached pc
         = countDetach (trace s) + detached pc'
      /\ (state (cl s) = Deregistering -> settled pc = true ->
          state (cl s') = Deregistering /\ settled pc' = true
          /\ countDeregister (trace s') = countDeregister (trace s)))
  \/ (pc = PcExit
      /\ threadStep env pc s = (Exited 0, addTrace s [EvExit 0])).
Proof.
  assert (Hc1 : forall t e, isDeregister e = false ->
                  countDeregister (t ++ [e]) = countDeregister t).
  { intros t e He. rewrite countDeregister_app. unfold countDeregister at 2.
    cbn. rewrite He. cbn. lia. }
  assert (Hc2 : forall t e, isDetach e = false ->
                  countDetach (t ++ [e]) = countDetach t).
  { intros t e He. rewrite countDetach_app. unfold countDetach at 2.
    cbn. rewrite He. cbn. lia. }
  destruct pc; [left .. | right; split; reflexivity]; cbn [threadStep].
  - (* PcTest *)
    eexists _, s. split; [reflexivity|].
    destruct (state (cl s)) eqn:St; cbn [trace with_cl with_trace sentBound detached settled cl state set_state negb State_eqb];
      (split; [lia | split; [lia | intros Hs _; try discriminate]]).
    now repeat split.
  - (* PcSetState *)
    eexists _, _. split; [reflexivity|].
    cbn [trace with_cl with_trace sentBound detached settled cl state set_state negb State_eqb].
    split; [lia | split; [lia | intros _ Hp; discriminate]].
  - (* PcWrite *)
    eexists _, _. split; [reflexivity|].
    cbn [trace with_trace sentBound detached settled].
    rewrite countDeregister_app, Hc2 by reflexivity.
    unfold countDeregister at 2. cbn [filter].
    rewrite isDeregister_line. cbn.
    split; [lia | split; [lia | intros _ Hp; discriminate]].
  - (* PcCommClose *)
    eexists _, _. split; [reflexivity|].
    cbn [trace with_trace sentBound detached settled cl].
    rewrite Hc1, Hc2 by reflexivity.
    split; [lia | split; [lia | intros Hs _; now repeat split]].
  - (* PcListenerClose *)
    eexists _, _. split; [reflexivity|].
    cbn [trace with_trace sentBound detached settled cl].
    rewrite Hc1, Hc2 by reflexivity.
    split; [lia | split; [lia | intros Hs _; now repeat split]].
  - (* PcDetach *)
    unfold bind. rewrite detachVIP_run. unfold ret.
    eexists _, _. split; [reflexivity|].
    unfold addTrace, detachEvents.
    cbn [trace with_trace sentBound detached settled cl].
    rewrite countDeregister_app, countDetach_app.
    destruct (LinkByName env "lo"); cbn;
      (split; [lia | split; [lia | intros Hs _]]);
      (split; [exact Hs | split; [reflexivity | lia]]).
  - (* PcRecover *)
    destruct (recover env) as [r|].
    + eexists _, _. split; [reflexivity|].
      cbn [trace with_trace sentBound detached settled cl].
      rewrite Hc1, Hc2 by reflexivity.
      split; [lia | split; [lia | intros Hs _; now repeat split]].
    + eexists _, s. split; [reflexivity|].
      cbn [trace with_cl with_trace sentBound detached settled cl state set_state negb State_eqb].
      split; [lia | split; [lia | intros Hs _; now repeat split]].
Qed.

Lemma sentBound_le (pc : Pc) : sentBound pc <= 1.
Proof. destruct pc; cbn; lia. Qed.

Lemma detached_le (pc : Pc) : detached pc <= 1.
Proof. destruct pc; cbn; lia. Qed.

(** Whatever the interleaving, when the process exits. *)
Lemma runTwo_bounds (env : Env) (sched : list bool) :
  forall pcA pcB s code s',
    runTwo env sched pcA pcB s = (Exited code, s') ->
    code = 0%Z
    /\ countDeregister (trace s') + sentBound pcA + sentBound pcB
       <= countDeregister (trace s) + 2
    /\ countDetach (trace s) + 1
       <= countDetach (trace s') + detached pcA + detached pcB
       <= countDetach (trace s) + 2.
Proof.
  induction sched as [|b sched IH]; intros pcA pcB s code s' H;
    [discriminate|].
  pose proof (sentBound_le pcA). pose proof (sentBound_le pcB).
  pose proof (detached_le pcA). pose proof (detached_le pcB).
  destruct b; cbn [runTwo] in H; unfold bind in H.
  - destruct (threadStep_cases env pcA s)
      as [(pc' & s1 & E & Hd & Ht & _) | (-> & E)]; rewrite E in H.
    + destruct (IH _ _ _ _ _ H) as (Hc & Hd' & Ht').
      split; [exact Hc | lia].
    + inversion H; subst. unfold addTrace; cbn [trace with_trace].
      rewrite countDeregister_app, countDetach_app. cbn. lia.
  - destruct (threadStep_cases env pcB s)
      as [(pc' & s1 & E & Hd & Ht & _) | (-> & E)]; rewrite E in H.
    + destruct (IH _ _ _ _ _ H) as (Hc & Hd' & Ht').
      split; [exact Hc | lia].
    + inversion H; subst. unfold addTrace; cbn [trace with_trace].
      rewrite countDeregister_app, countDetach_app. cbn. lia.
Qed.

(** Once the state is Deregistering and neither goroutine is about to
    send, no DEREGISTER line is sent any more. *)
Lemma runTwo_settled (env : Env) (sched : list bool) :
  forall pcA pcB s o s',
    state (cl s) = Deregistering ->
    settled pcA = true -> settled pcB = true ->
    runTwo env sched pcA pcB s = (o, s') ->
    countDeregister (trace s') = countDeregister (trace s).
Proof.
  induction sched as [|b sched IH]; intros pcA pcB s o s' Hs HA HB H.
  - now inversion H.
  - destruct b; cbn [runTwo] in H; unfold bind in H.
    + destruct (threadStep_cases env pcA s)
        as [(pc' & s1 & E & _ & _ & Hk) | (-> & E)]; rewrite E in H.
      * destruct (Hk Hs HA) as (Hs1 & HA1 & Hc).
        rewrite (IH _ _ _ _ _ Hs1 HA1 HB H). exact Hc.
      * inversion H; subst. unfold addTrace; cbn [trace with_trace].
        rewrite countDeregister_app. cbn. lia.
    + destruct (threadStep_cases env pcB s)
        as [(pc' & s1 & E & _ & _ & Hk) | (-> & E)]; rewrite E in H.
      * destruct (Hk Hs HB) as (Hs1 & HB1 & Hc).
        rewrite (IH _ _ _ _ _ Hs1 HA HB1 H). exact Hc.
      * inversion H; subst. unfold addTrace; cbn [trace with_trace].
        rewrite countDeregister_app. cbn. lia.
Qed.

(** C8, amended.  Two goroutines that run the shutdown procedure at the
    same time, from the state Active or Paused, until the process exits,
    send at most two DEREGISTER lines and attempt the detachment once or
    twice; exactly one DEREGISTER line is sent when one goroutine has gone
    through its [deregister] before the other tests the state. *)
Theorem concurrent_shutdown_bounds (env : Env) (c : Client)
        (sched : list bool) (s' : Sys) :
  running (state c) = true ->
  runTwo env sched PcTest PcTest (initSys c) = (Exited 0, s') ->
  countDeregister (trace s') <= 2
  /\ 1 <= countDetach (trace s') <= 2
  /\ (forall sched', sched = true :: true :: true :: sched' ->
                     countDeregister (trace s') = 1).
Proof.
  intros R H.
  destruct (runTwo_bounds env sched _ _ _ H) as (_ & Hd & Ht).
  cbn in Hd, Ht. split; [lia|]. split; [lia|].
  intros sched' ->.
  assert (R' : negb (State_eqb (state c) Deregistering) = true)
    by (destruct (state c); [reflexivity | reflexivity | discriminate]).
  cbn [runTwo threadStep] in H.
  unfold bind, getState, getClient, putState, emit, modify, gets, ret in H.
  cbn [cl initSys state with_cl with_trace trace set_state name] in H.
  rewrite R' in H.
  cbn [threadStep] in H.
  unfold bind, getState, getClient, putState, emit, modify, gets, ret in H.
  cbn [cl initSys state with_cl with_trace trace set_state name
       heap idle packets poolSize threadStep] in H.
  unfold bind, getState, getClient, putState, emit, modify, gets, ret in H.
  cbn [cl initSys state with_cl with_trace trace set_state name
       heap idle packets poolSize app] in H.
  apply runTwo_settled in H; try reflexivity.
  rewrite H. cbn [trace with_trace]. unfold countDeregister. cbn [filter].
  now rewrite isDeregister_line.
Qed.

Lemma concurrent_shutdown_bounds_witness :
  running (state (node1 Paused)) = true
  /\ (exists s',
         runTwo okEnv
           [true; true; true; false; true; false; true; true; false; true;
            true] PcTest PcTest (initSys (node1 Paused)) = (Exited 0, s')
         /\ countDeregister (trace s') = 1
         /\ 1 <= countDetach (trace s') <= 2).
Proof.
  split; [reflexivity|].
  eexists. split; [reflexivity|].
  destruct (@concurrent_shutdown_bounds okEnv (node1 Paused)
              [true; true; true; false; true; false; true; true; false; true;
               true] _ eq_refl eq_refl) as (_ & Ht & H1).
  split; [exact (H1 _ eq_refl) | exact Ht].
Defined.

(** C8 as stated fails.  When both goroutines test the state before either
    sets it, two DEREGISTER lines go out and the VIP is detached twice;
    when one goroutine exits the process while the other is between its
    assignment and its send, no DEREGISTER line goes out at all. *)
Lemma concurrent_shutdown_runs_twice :
  let both := runTwo okEnv
                [true; false; true; false; true; false; true; true; true;
                 false; false; false; true; true]
                PcTest PcTest (initSys (node1 Active)) in
  let none := runTwo okEnv
                [false; false; true; true; true; true; true; true]
                PcTest PcTest (initSys (node1 Active)) in
  fst both = Exited 0
  /\ countDeregister (trace (snd both)) = 2
  /\ countDetach (trace (snd both)) = 2
  /\ fst none = Exited 0
  /\ countDeregister (trace (snd none)) = 0.
Proof. cbv zeta. repeat split. Qed.

(* ================================================================== *)
(** ** More on the device resolver and on the start of [listen] *)

Lemma scanNames_unnamed (names : list string) :
  scanNames names "" =
  match dropUnnamed names with
  | [] => inl ""
  | n :: rest => scanNames rest n
  end.
Proof.
  induction names as [|n names IH]; cbn; [reflexivity|].
  destruct (String.eqb_spec n "") as [->|N]; [exact IH | reflexivity].
Qed.

Lemma dropUnnamed_head (names : list string) (n : string)
      (rest : list string) :
  dropUnnamed names = n :: rest -> n <> "".
Proof.
  induction names as [|m names IH]; cbn; [discriminate|].
  destruct (String.eqb_spec m "") as [->|N]; [exact IH|].
  intros H. inversion H; subst. exact N.
Qed.

Lemma dropUnnamed_incl (names : list string) :
  incl (dropUnnamed names) names.
Proof.
  induction names as [|m names IH]; cbn; [easy|].
  destruct (String.eqb m ""); [now apply incl_tl | apply incl_refl].
Qed.

Lemma dropUnnamed_named (names : list string) :
  Forall (fun n => n <> "") names -> dropUnnamed names = names.
Proof.
  intros H. destruct H as [|n names Hn _]; cbn; [reflexivity|].
  now destruct (String.eqb_spec n "").
Qed.

(** X1.  [findDevice] on any interface list: matching interfaces without a
    name that come before the first named match are passed over; from the
    first named match on, the result is that name when every later match
    carries it, the ambiguous-device error otherwise (a later unnamed match
    included), and the no-matching-device error when no named match is
    left. *)
Theorem findDevice_closed_form (ip : IP) (devices : list Interface) :
  findDevice (inl devices) ip =
  match dropUnnamed (matches ip devices) with
  | [] => inr errNoDevice
  | n :: rest =>
      if forallb (String.eqb n) rest then inl n else inr errMultipleDevices
  end.
Proof.
  unfold findDevice. rewrite scanDevices_names, scanNames_unnamed.
  destruct (dropUnnamed (matches ip devices)) as [|n rest] eqn:E;
    [reflexivity|].
  pose proof (dropUnnamed_head _ E) as Hn.
  rewrite (scanNames_found rest Hn).
  destruct (forallb (String.eqb n) rest); [|reflexivity].
  now destruct (String.eqb_spec n "").
Qed.

(** X2.  A successful resolution is sound: the name returned is not empty
    and is the name of an enumerated interface one of whose addresses
    contains the target in its subnet. *)
Theorem findDevice_sound (allDevs : list Interface + string) (ip : IP)
        (dev : string) :
  findDevice allDevs ip = inl dev ->
  dev <> ""
  /\ exists devices device,
      allDevs = inl devices /\ In device devices
      /\ devName device = dev
      /\ existsb (addrContains ip) (Addresses device) = true.
Proof.
  destruct allDevs as [devices|err]; [|discriminate].
  rewrite findDevice_closed_form.
  destruct (dropUnnamed (matches ip devices)) as [|n rest] eqn:E;
    [discriminate|].
  destruct (forallb (String.eqb n) rest); [|discriminate].
  intros H. inversion H; subst dev. split; [exact (dropUnnamed_head _ E)|].
  assert (Hin : In n (matches ip devices)).
  { apply (dropUnnamed_incl (matches ip devices)). rewrite E. now left. }
  unfold matches in Hin. apply in_map_iff in Hin.
  destruct Hin as (device & Hname & Hf). apply filter_In in Hf.
  destruct Hf as [Hd Hm].
  exists devices, device. repeat split; assumption.
Qed.

Lemma findDevice_sound_witness :
  findDevice (inl sampleDevices) [10;0;0;100]%N = inl "eth0"
  /\ "eth0" <> ""
  /\ exists devices device,
      inl sampleDevices = @inl _ string devices /\ In device devices
      /\ devName device = "eth0"
      /\ existsb (addrContains [10;0;0;100]%N) (Addresses device) = true.
Proof.
  split; [reflexivity|].
  exact (findDevice_sound (inl sampleDevices) [10;0;0;100]%N eq_refl).
Defined.

Lemma Permutation_filter {A} (f : A -> bool) (l l' : list A) :
  Permutation l l' -> Permutation (filter f l) (filter f l').
Proof.
  induction 1 as [|x l l' _ IH|x y l|l l' l'' _ IH1 _ IH2]; cbn.
  - constructor.
  - destruct (f x); [now constructor | exact IH].
  - destruct (f x), (f y); try reflexivity. apply perm_swap.
  - now transitivity (filter f l').
Qed.

Lemma matches_Permutation (ip : IP) (devices devices' : list Interface) :
  Permutation devices devices' ->
  Permutation (matches ip devices) (matches ip devices').
Proof.
  intros H. unfold matches. now apply Permutation_map, Permutation_filter.
Qed.

(** X3.  When the matching interfaces have names, the resolution does not
    depend on the order in which the interfaces are enumerated. *)
Theorem findDevice_order_independent (ip : IP)
        (devices devices' : list Interface) :
  Permutation devices devices' ->
  Forall (fun n => n <> "") (matches ip devices) ->
  findDevice (inl devices) ip = findDevice (inl devices') ip.
Proof.
  intros HP Hne. pose proof (matches_Permutation ip HP) as HM.
  assert (Hne' : Forall (fun n => n <> "") (matches ip devices'))
    by (eapply Permutation_Forall; eassumption).
  rewrite !findDevice_closed_form, !dropUnnamed_named by assumption.
  destruct (matches ip devices) as [|n rest] eqn:E.
  - apply Permutation_nil in HM. now rewrite HM.
  - destruct (matches ip devices') as [|n' rest'] eqn:E'.
    { symmetry in HM. apply Permutation_nil in HM. discriminate. }
    destruct (forallb (String.eqb n) rest) eqn:F.
    + assert (Hall : Forall (eq n) (n :: rest))
        by (constructor; [reflexivity | now apply forallb_eqb_Forall]).
      pose proof (Permutation_Forall HM Hall) as Hall'.
      inversion Hall' as [|? ? Hn' Hr']; subst.
      apply forallb_eqb_Forall in Hr'. now rewrite Hr'.
    + destruct (forallb (String.eqb n') rest') eqn:F'; [|reflexivity].
      assert (Hall' : Forall (eq n') (n' :: rest'))
        by (constructor; [reflexivity | now apply forallb_eqb_Forall]).
      symmetry in HM. pose proof (Permutation_Forall HM Hall') as Hall.
      inversion Hall as [|? ? Hn Hr]; subst.
      apply forallb_eqb_Forall in Hr. congruence.
Qed.

Lemma findDevice_order_independent_witness :
  Permutation sampleDevices (rev sampleDevices)
  /\ Forall (fun n => n <> "") (matches [10;0;0;100]%N sampleDevices)
  /\ findDevice (inl sampleDevices) [10;0;0;100]%N
     = findDevice (inl (rev sampleDevices)) [10;0;0;100]%N.
Proof.
  assert (HP : Permutation sampleDevices (rev sampleDevices))
    by apply Permutation_rev.
  assert (Hne : Forall (fun n => n <> "")
                  (matches [10;0;0;100]%N sampleDevices)).
  { cbn. constructor; [discriminate | constructor]. }
  split; [exact HP|]. split; [exact Hne|].
  exact (findDevice_order_independent [10;0;0;100]%N HP Hne).
Defined.

Lemma getMTU_run (env : Env) (s : Sys) :
  getMTU env s =
  match findDevice (FindAllDevs env) (dataIP (cl s)) with
  | inr err => (Ret (inr err), addTrace s [EvFindAllDevs])
  | inl dev =>
      match LinkByName env dev with
      | inr err => (Ret (inr err), addTrace s [EvFindAllDevs; EvLinkByName dev])
      | inl link =>
          (Ret (inl (linkMTU link)),
           addTrace s [EvFindAllDevs; EvLinkByName dev])
      end
  end.
Proof.
  unfold getMTU, bind, getClient, gets, emit, modify, ret, addTrace.
  cbn [cl with_trace].
  destruct (findDevice (FindAllDevs env) (dataIP (cl s))) as [dev|err];
    [|reflexivity].
  cbn [cl with_trace trace].
  destruct (LinkByName env dev); unfold with_trace; cbn;
    now rewrite <- app_assoc.
Qed.

(** X4.  The MTU that [getMTU] returns is the MTU of the link looked up
    under the name of an enumerated, named interface whose subnet contains
    the client's data address; and [getMTU] leaves the client, the pool
    and the channel as they were. *)
Theorem getMTU_sound (env : Env) (s s1 : Sys) (mtu : Z) :
  getMTU env s = (Ret (inl mtu), s1) ->
  (exists devices device link,
      FindAllDevs env = inl devices /\ In device devices
      /\ devName device <> ""
      /\ existsb (addrContains (dataIP (cl s))) (Addresses device) = true
      /\ LinkByName env (devName device) = inl link
      /\ linkMTU link = mtu)
  /\ cl s1 = cl s /\ heap s1 = heap s /\ idle s1 = idle s
  /\ packets s1 = packets s.
Proof.
  rewrite getMTU_run.
  destruct (findDevice (FindAllDevs env) (dataIP (cl s))) as [dev|err] eqn:F;
    [|discriminate].
  destruct (LinkByName env dev) as [link|err] eqn:L; [|discriminate].
  intros H. inversion H; subst mtu s1.
  split; [|now repeat split].
  destruct (findDevice_sound _ _ F) as (Hn & devices & device & HA & Hin & Hd & Hm).
  exists devices, device, link. subst dev. repeat split; assumption.
Qed.

Lemma getMTU_sound_witness :
  (exists s1, getMTU okEnv (initSys (node1 Active)) = (Ret (inl 1500%Z), s1))
  /\ exists devices device link,
      FindAllDevs okEnv = inl devices /\ In device devices
      /\ devName device <> ""
      /\ existsb (addrContains (dataIP (cl (initSys (node1 Active)))))
                 (Addresses device) = true
      /\ LinkByName okEnv (devName device) = inl link
      /\ linkMTU link = 1500%Z.
Proof.
  split; [eexists; reflexivity|].
  exact (proj1 (@getMTU_sound okEnv (initSys (node1 Active))
                  (snd (getMTU okEnv (initSys (node1 Active)))) 1500
                  eq_refl)).
Defined.

(** X5.  When the device resolution or the link lookup fails, [listen]
    returns that error after its deferred [wg.Done()] and has done nothing
    else: the lifecycle state is not set to Active, no worker is started,
    no packet is taken from the pool and no read is attempted, whatever
    reads were to come. *)
Theorem listen_startup_error (env : Env)
        (reads : list (list byte + string)) (s s1 : Sys) (err : string) :
  getMTU env s = (Ret (inr err), s1) ->
  listen env reads s = (Ret (Some err), addTrace s1 [EvWgDone])
  /\ cl s1 = cl s /\ heap s1 = heap s /\ idle s1 = idle s
  /\ packets s1 = packets s /\ poolSize s1 = poolSize s
  /\ (trace s1 = trace s ++ [EvFindAllDevs]
      \/ exists dev, trace s1 = trace s ++ [EvFindAllDevs; EvLinkByName dev]).
Proof.
  intros H. split.
  - unfold listen, deferring. unfold bind at 1. now rewrite H.
  - rewrite getMTU_run in H.
    destruct (findDevice (FindAllDevs env) (dataIP (cl s))) as [dev|e];
      [destruct (LinkByName env dev) as [link|e]; [discriminate|]|];
      inversion H; subst; repeat split; [right; now exists dev | now left].
Qed.

Lemma listen_startup_error_witness :
  (exists s1, getMTU badEnv (initSys (node1 Paused))
              = (Ret (inr "permission denied"), s1))
  /\ listen badEnv [inl [x01]] (initSys (node1 Paused))
     = (Ret (Some "permission denied"),
        addTrace (initSys (node1 Paused)) [EvFindAllDevs; EvWgDone]).
Proof.
  split; [eexists; reflexivity|].
  exact (proj1 (@listen_startup_error badEnv [inl [x01]]
                  (initSys (node1 Paused))
                  (snd (getMTU badEnv (initSys (node1 Paused))))
                  "permission denied" eq_refl)).
Defined.

(* ================================================================== *)
(** ** The reader loop as a whole *)

Lemma setState_same (s : Sys) : setState s (state (cl s)) = s.
Proof. destruct s as [c t h i q n]; destruct c; reflexivity. Qed.

Lemma countWgDone_app (a b : list Event) :
  countWgDone (a ++ b) = countWgDone a + countWgDone b.
Proof. unfold countWgDone. now rewrite filter_app, length_app. Qed.

Lemma directiveLog_counts (message : string) :
  countDeregister (directiveLog message) = 0
  /\ countWgDone (directiveLog message) = 0.
Proof.
  unfold directiveLog.
  destruct (String.eqb (directiveOf message) "INVALID"); [now split|].
  destruct (String.eqb (directiveOf message) "HEALTHACK"); [|now split].
  destruct (Nat.ltb _ 2); now split.
Qed.

Lemma shutdownEvents_counts (env : Env) (c : Client) :
  countDeregister (shutdownEvents env c)
  = (if State_eqb (state c) Deregistering then 0 else 1)
  /\ countWgDone (shutdownEvents env c) = 0
  /\ exists evs, shutdownEvents env c = evs ++ [EvExit 0].
Proof.
  unfold shutdownEvents, detachEvents. split; [|split].
  - rewrite countDeregister_app.
    destruct (State_eqb (state c) Deregistering);
      [|unfold countDeregister at 1; cbn [filter];
        rewrite isDeregister_line];
      destruct (LinkByName env "lo"), (recover env); reflexivity.
  - destruct (State_eqb (state c) Deregistering);
      destruct (LinkByName env "lo"), (recover env); reflexivity.
  - eexists. rewrite !app_assoc. reflexivity.
Qed.

Lemma readerLoop_cons (env : Env) (message : string)
      (rest : list (string + string)) (s : Sys) :
  running (state (cl s)) = true ->
  readerLoop env (inl message :: rest) s =
  match handleLine env message s with
  | (Ret true, s1) => readerLoop env rest s1
  | (Ret false, s1) => (Ret tt, s1)
  | (Exited code, s1) => (Exited code, s1)
  | (Panicked v, s1) => (Panicked v, s1)
  | (Blocked, s1) => (Blocked, s1)
  end.
Proof.
  intros R. cbn [readerLoop]. unfold bind at 1. unfold getState at 1, gets.
  rewrite R. unfold bind at 1.
  destruct (handleLine env message s) as [[[|]| | |] s1]; reflexivity.
Qed.

Lemma readerLoop_read_error (env : Env) (inbound : list (string + string))
      (s : Sys) :
  running (state (cl s)) = true ->
  match inbound with inl _ :: _ => False | _ => True end ->
  readerLoop env inbound s =
  (Exited 0,
   addTrace (setState s Deregistering)
     (EvLog Error "Read timeout exceeded. Stopping"
      :: shutdownEvents env (cl s))).
Proof.
  intros R Hin.
  assert (E : readerLoop env inbound s =
              (emit (EvLog Error "Read timeout exceeded. Stopping") ;;;
               gracefulStop env ;;; ret tt) s).
  { destruct inbound as [|[m|e] rest]; [|contradiction|];
      cbn [readerLoop]; unfold bind at 1; unfold getState at 1, gets;
      now rewrite R. }
  rewrite E. unfold bind at 1. unfold emit at 1, modify.
  unfold bind at 1. rewrite gracefulStop_run.
  unfold addTrace, setState, with_trace, with_cl; cbn.
  now rewrite <- app_assoc.
Qed.

Lemma readerLoop_exits (env : Env) (inbound : list (string + string)) :
  forall s,
    running (state (cl s)) = true ->
    exists s',
      readerLoop env inbound s = (Exited 0, s')
      /\ state (cl s') = Deregistering
      /\ countDeregister (trace s')
         = countDeregister (trace s)
           + (if endsByDirective inbound then 0 else 1)
      /\ countWgDone (trace s') = countWgDone (trace s)
      /\ exists t, trace s' = t ++ [EvExit 0].
Proof.
  assert (Herr : forall inbound s,
             running (state (cl s)) = true ->
             match inbound with inl _ :: _ => False | _ => True end ->
             endsByDirective inbound = false ->
             exists s',
               readerLoop env inbound s = (Exited 0, s')
               /\ state (cl s') = Deregistering
               /\ countDeregister (trace s')
                  = countDeregister (trace s)
                    + (if endsByDirective inbound then 0 else 1)
               /\ countWgDone (trace s') = countWgDone (trace s)
               /\ exists t, trace s' = t ++ [EvExit 0]).
  { intros inb s R Hin He. rewrite He.
    destruct (shutdownEvents_counts env (cl s)) as (Hd & Hw & evs & Hev).
    eexists. split; [now apply readerLoop_read_error|].
    unfold addTrace; cbn [cl trace setState with_cl with_trace state set_state].
    split; [reflexivity|].
    change (EvLog Error "Read timeout exceeded. Stopping"
              :: shutdownEvents env (cl s))
      with ([EvLog Error "Read timeout exceeded. Stopping"]
              ++ shutdownEvents env (cl s)).
    rewrite !countDeregister_app, !countWgDone_app, Hd, Hw.
    assert (Hnd : State_eqb (state (cl s)) Deregistering = false)
      by (destruct (state (cl s)); [reflexivity | reflexivity | discriminate]).
    rewrite Hnd. split; [cbn; lia|]. split; [cbn; lia|].
    exists (trace s ++ [EvLog Error "Read timeout exceeded. Stopping"] ++ evs).
    rewrite Hev, <- !app_assoc. reflexivity. }
  induction inbound as [|[message|err] rest IH]; intros s R.
  - now apply Herr.
  - rewrite (readerLoop_cons env message rest s R), handleLine_run.
    cbn [endsByDirective]. unfold isTerminal.
    destruct (String.eqb_spec (directiveOf message) "PAUSED") as [E|_].
    { rewrite E. cbn [String.eqb Ascii.eqb Bool.eqb].
      destruct (IH (setState s Paused) eq_refl) as (s' & H1 & H2 & H3 & H4).
      exists s'. now repeat split. }
    destruct (String.eqb_spec (directiveOf message) "RESUMED") as [E|_].
    { rewrite E. cbn [String.eqb Ascii.eqb Bool.eqb].
      destruct (IH (setState s Active) eq_refl) as (s' & H1 & H2 & H3 & H4).
      exists s'. now repeat split. }
    destruct (String.eqb (directiveOf message) "DEREGISTERED").
    + eexists. split; [reflexivity|].
      unfold addTrace;
        cbn [cl trace setState with_cl with_trace state set_state].
      split; [reflexivity|].
      rewrite countDeregister_app, countWgDone_app. unfold detachEvents.
      split; [|split].
      * destruct (LinkByName env "lo"), (recover env); cbn; lia.
      * destruct (LinkByName env "lo"), (recover env); cbn; lia.
      * eexists. rewrite !app_assoc. reflexivity.
    + destruct (directiveLog_counts message) as [Hd Hw].
      destruct (IH (addTrace s (directiveLog message)) R)
        as (s' & H1 & H2 & H3 & H4 & H5).
      exists s'. split; [exact H1|]. split; [exact H2|].
      unfold addTrace in H3, H4; cbn [trace with_trace] in H3, H4.
      rewrite countDeregister_app, Hd in H3.
      rewrite countWgDone_app, Hw in H4.
      split; [lia|]. split; [lia | exact H5].
  - now apply Herr.
Qed.

(** X8.  A run of control lines none of which is DEREGISTERED, handled one
    after the other, leaves the lifecycle state named by the last PAUSED or
    RESUMED line among them, or the state as it was when there is none;
    the other lines only add their log entries; no line ends the loop. *)
Theorem reader_lines_compose (env : Env) (messages : list string) :
  forall s,
    forallb (fun m => negb (isTerminal m)) messages = true ->
    handleLines env messages s =
    (Ret true,
     addTrace (setState s (fold_left messageState messages (state (cl s))))
              (flat_map lineLog messages)).
Proof.
  induction messages as [|m messages IH]; intros s Hnt.
  - cbn. now rewrite setState_same, addTrace_nil.
  - cbn [forallb] in Hnt. apply andb_prop in Hnt. destruct Hnt as [Hm Hnt].
    cbn [handleLines fold_left flat_map]. unfold bind at 1.
    rewrite handleLine_run.
    unfold isTerminal in Hm. unfold messageState at 2. unfold lineLog at 1.
    destruct (String.eqb (directiveOf m) "PAUSED").
    { rewrite (IH (setState s Paused) Hnt). reflexivity. }
    destruct (String.eqb (directiveOf m) "RESUMED").
    { rewrite (IH (setState s Active) Hnt). reflexivity. }
    destruct (String.eqb (directiveOf m) "DEREGISTERED"); [discriminate|].
    rewrite (IH (addTrace s (directiveLog m)) Hnt).
    f_equal. unfold addTrace, setState, with_trace, with_cl; cbn.
    now rewrite <- app_assoc.
Qed.

Lemma reader_lines_compose_witness :
  forallb (fun m => negb (isTerminal m))
          ["PAUSED"; "HEALTHACK"; "RESUMED 1"; "PAUSED"; "INVALID x"] = true
  /\ handleLines okEnv
       ["PAUSED"; "HEALTHACK"; "RESUMED 1"; "PAUSED"; "INVALID x"]
       (initSys (node1 Active))
     = (Ret true,
        addTrace (setState (initSys (node1 Active)) Paused)
          [EvLog Debug "HEALTHACK received from server with no status code";
           EvLog Debug "INVALID x"]).
Proof.
  split; [reflexivity|].
  exact (@reader_lines_compose okEnv
           ["PAUSED"; "HEALTHACK"; "RESUMED 1"; "PAUSED"; "INVALID x"]
           (initSys (node1 Active)) eq_refl).
Defined.

Lemma assign_run (change : option State) (s : Sys) :
  assign change s =
  (Ret tt, match change with Some st => setState s st | None => s end).
Proof. now destruct change. Qed.

Lemma readerLoop_stopped (env : Env) (inbound : list (string + string))
      (s : Sys) :
  running (state (cl s)) = false -> readerLoop env inbound s = (Ret tt, s).
Proof.
  intros R. destruct inbound as [|[m|e] rest]; cbn [readerLoop];
    unfold bind at 1; unfold getState at 1, gets; now rewrite R.
Qed.

Lemma shutdown_ends (env : Env) (s : Sys) (pre : list Event) :
  countDeregister pre = 0 -> countWgDone pre = 0 ->
  countWgDone (trace s ++ pre ++ shutdownEvents env (cl s))
  = countWgDone (trace s)
  /\ countDeregister (trace s ++ pre ++ shutdownEvents env (cl s))
     <= countDeregister (trace s) + 1
  /\ exists t, trace s ++ pre ++ shutdownEvents env (cl s) = t ++ [EvExit 0].
Proof.
  intros Hd Hw.
  destruct (shutdownEvents_counts env (cl s)) as (Sd & Sw & evs & Sev).
  rewrite !countWgDone_app, !countDeregister_app, Hd, Hw, Sd, Sw.
  split; [lia|]. split.
  - destruct (State_eqb (state (cl s)) Deregistering); lia.
  - exists (trace s ++ pre ++ evs). rewrite Sev, <- !app_assoc. reflexivity.
Qed.

Lemma readerLoopAmong_cons (env : Env) (before during : option State)
      (r : string + string)
      (rest : list (option State * option State * (string + string)))
      (s : Sys) :
  readerLoopAmong env ((before, during, r) :: rest) s =
  let s1 := match before with Some st => setState s st | None => s end in
  if running (state (cl s1)) then
    let s2 := match during with Some st => setState s1 st | None => s1 end in
    match r with
    | inl message =>
        match handleLine env message s2 with
        | (Ret true, s3) => readerLoopAmong env rest s3
        | (Ret false, s3) => (Ret tt, s3)
        | (Exited code, s3) => (Exited code, s3)
        | (Panicked v, s3) => (Panicked v, s3)
        | (Blocked, s3) => (Blocked, s3)
        end
    | inr _ =>
        (Exited 0,
         addTrace (setState s2 Deregistering)
           (EvLog Error "Read timeout exceeded. Stopping"
            :: shutdownEvents env (cl s2)))
    end
  else (Ret tt, s1).
Proof.
  cbn [readerLoopAmong]. unfold bind at 1. rewrite assign_run.
  cbv beta iota zeta.
  unfold bind at 1. unfold getState at 1, gets. cbv beta iota.
  destruct (running
              (state (cl match before with
                         | Some st => setState s st
                         | None => s
                         end))); [|reflexivity].
  unfold bind at 1. rewrite assign_run. cbv beta iota.
  destruct r as [message|err].
  - unfold bind at 1.
    destruct (handleLine env message _) as [[[|]| | |] s3]; reflexivity.
  - unfold bind at 1. unfold emit at 1, modify. cbv beta iota.
    unfold bind at 1. rewrite gracefulStop_run.
    unfold addTrace, setState, with_trace, with_cl; cbn.
    now rewrite <- app_assoc.
Qed.

Lemma readerLoopAmong_ends (env : Env)
      (inbound : list (option State * option State * (string + string))) :
  forall s,
    (exists s',
        readerLoopAmong env inbound s = (Exited 0, s')
        /\ countWgDone (trace s') = countWgDone (trace s)
        /\ countDeregister (trace s') <= countDeregister (trace s) + 1
        /\ exists t, trace s' = t ++ [EvExit 0])
    \/ (exists s',
           readerLoopAmong env inbound s = (Ret tt, s')
           /\ running (state (cl s')) = false
           /\ countWgDone (trace s') = countWgDone (trace s)
           /\ countDeregister (trace s') = countDeregister (trace s)
           /\ (running (state (cl s)) = true ->
               stoppedByOther inbound = true)).
Proof.
  induction inbound as [|[[before during] r] rest IH]; intros s.
  - cbn [readerLoopAmong].
    destruct (running (state (cl s))) eqn:R.
    + left. eexists. split; [now apply readerLoop_read_error|].
      unfold addTrace. cbn [trace with_trace setState with_cl cl].
      change (EvLog Error "Read timeout exceeded. Stopping"
                :: shutdownEvents env (cl s))
        with ([EvLog Error "Read timeout exceeded. Stopping"]
                ++ shutdownEvents env (cl s)).
      now apply shutdown_ends.
    + right. exists s. rewrite readerLoop_stopped by exact R.
      repeat split; [exact R | discriminate].
  - rewrite readerLoopAmong_cons. cbv zeta.
    set (s1 := match before with Some st => setState s st | None => s end).
    assert (T1 : trace s1 = trace s) by (subst s1; now destruct before).
    destruct (running (state (cl s1))) eqn:R1.
    2:{ right. exists s1. split; [reflexivity|]. split; [exact R1|].
        rewrite T1. split; [reflexivity|]. split; [reflexivity|].
        intros R. cbn [stoppedByOther existsb fst snd].
        subst s1. destruct before as [st|]; [|congruence].
        cbn [stops]. cbn in R1. now rewrite R1. }
    set (s2 := match during with Some st => setState s1 st | None => s1 end).
    assert (T2 : trace s2 = trace s)
      by (subst s2; destruct during; [cbn|]; exact T1).
    assert (Hstop : running (state (cl s2)) = false ->
                    stoppedByOther ((before, during, r) :: rest) = true).
    { intros R2. cbn [stoppedByOther existsb fst snd].
      subst s2. destruct during as [st|]; [|congruence].
      cbn [stops]. cbn in R2. rewrite R2. cbn. now rewrite orb_true_r. }
    assert (Hrest : stoppedByOther rest = true ->
                    stoppedByOther ((before, during, r) :: rest) = true).
    { intros H. cbn [stoppedByOther existsb]. unfold stoppedByOther in H.
      rewrite H. apply orb_true_r. }
    destruct r as [message|err].
    + rewrite handleLine_run.
      destruct (String.eqb (directiveOf message) "PAUSED").
      { destruct (IH (setState s2 Paused))
          as [(s' & E & A & B & C) | (s' & E & A & B & C & D)].
        - left. exists s'. cbn [trace setState with_cl] in A, B.
          rewrite T2 in A, B. now repeat split.
        - right. exists s'. cbn [trace setState with_cl] in B, C.
          rewrite T2 in B, C. split; [exact E|]. split; [exact A|].
          split; [exact B|]. split; [exact C|].
          intros _. apply Hrest. now apply D. }
      destruct (String.eqb (directiveOf message) "RESUMED").
      { destruct (IH (setState s2 Active))
          as [(s' & E & A & B & C) | (s' & E & A & B & C & D)].
        - left. exists s'. cbn [trace setState with_cl] in A, B.
          rewrite T2 in A, B. now repeat split.
        - right. exists s'. cbn [trace setState with_cl] in B, C.
          rewrite T2 in B, C. split; [exact E|]. split; [exact A|].
          split; [exact B|]. split; [exact C|].
          intros _. apply Hrest. now apply D. }
      destruct (String.eqb (directiveOf message) "DEREGISTERED").
      { left. eexists. split; [reflexivity|].
        unfold addTrace. cbn [trace with_trace setState with_cl].
        rewrite T2, !countWgDone_app, !countDeregister_app.
        unfold detachEvents.
        split; [|split].
        - destruct (LinkByName env "lo"), (recover env); cbn; lia.
        - destruct (LinkByName env "lo"), (recover env); cbn; lia.
        - eexists. rewrite !app_assoc. reflexivity. }
      destruct (directiveLog_counts message) as [Hd Hw].
      destruct (IH (addTrace s2 (directiveLog message)))
        as [(s' & E & A & B & C) | (s' & E & A & B & C & D)].
      * left. exists s'. unfold addTrace in A, B.
        cbn [trace with_trace] in A, B.
        rewrite countWgDone_app, Hw, T2 in A.
        rewrite countDeregister_app, Hd, T2 in B.
        split; [exact E|]. split; [lia|]. split; [lia | exact C].
      * right. exists s'. unfold addTrace in B, C, D.
        cbn [trace with_trace cl] in B, C, D.
        rewrite countWgDone_app, Hw, T2 in B.
        rewrite countDeregister_app, Hd, T2 in C.
        split; [exact E|]. split; [exact A|].
        split; [lia|]. split; [lia|].
        intros _. destruct (running (state (cl s2))) eqn:R2.
        -- apply Hrest. now apply D.
        -- now apply Hstop.
    + left. eexists. split; [reflexivity|].
      unfold addTrace. cbn [trace with_trace setState with_cl cl].
      rewrite T2.
      change (EvLog Error "Read timeout exceeded. Stopping"
                :: shutdownEvents env (cl s2))
        with ([EvLog Error "Read timeout exceeded. Stopping"]
                ++ shutdownEvents env (cl s2)).
      rewrite <- T2. now apply shutdown_ends.
Qed.

Lemma readerLoopAmong_alone (env : Env)
      (inbound : list (option State * option State * (string + string))) :
  alone inbound = true ->
  forall s, readerLoopAmong env inbound s
            = readerLoop env (map snd inbound) s.
Proof.
  induction inbound as [|[[before during] r] rest IH]; intros Ha s;
    [reflexivity|].
  cbn [alone forallb] in Ha. apply andb_prop in Ha. destruct Ha as [Hx Ha].
  destruct before; [discriminate|]. destruct during; [discriminate|].
  rewrite readerLoopAmong_cons. cbv zeta. cbn [map snd].
  destruct (running (state (cl s))) eqn:R;
    [|now rewrite readerLoop_stopped].
  destruct r as [message|err].
  - rewrite (readerLoop_cons env message _ s R).
    destruct (handleLine env message s) as [[[|]| | |] s1]; try reflexivity.
    now apply IH.
  - now rewrite readerLoop_read_error.
Qed.

(** X6.  Started in the state Active or Paused, and whatever the other
    goroutines assign to the state meanwhile, the reader neither panics nor
    waits for ever.  It ends in the shutdown procedure and the exit of the
    process, its deferred [wg.Done()] not run and at most one DEREGISTER
    line sent; or, only when another goroutine has assigned a state other
    than Active and Paused, it returns through its deferred calls and has
    sent nothing.  When no other goroutine assigns the state, it always
    ends in the shutdown procedure, with one DEREGISTER line, or none when
    the end came from a DEREGISTERED line. *)
Theorem reader_ends_in_shutdown (env : Env)
        (inbound : list (option State * option State * (string + string)))
        (s : Sys) :
  running (state (cl s)) = true ->
  ((exists s',
       manageBalancerConnectionAmong env inbound s = (Exited 0, s')
       /\ countWgDone (trace s') = countWgDone (trace s)
       /\ countDeregister (trace s') <= countDeregister (trace s) + 1
       /\ exists t, trace s' = t ++ [EvExit 0])
   \/ (stoppedByOther inbound = true
       /\ exists s',
           manageBalancerConnectionAmong env inbound s = (Ret tt, s')
           /\ running (state (cl s')) = false
           /\ countWgDone (trace s') = S (countWgDone (trace s))
           /\ countDeregister (trace s') = countDeregister (trace s)))
  /\ (alone inbound = true ->
      manageBalancerConnectionAmong env inbound s
      = manageBalancerConnection env (map snd inbound) s
      /\ exists s',
          manageBalancerConnectionAmong env inbound s = (Exited 0, s')
          /\ state (cl s') = Deregistering
          /\ countDeregister (trace s')
             = countDeregister (trace s)
               + (if endsByDirective (map snd inbound) then 0 else 1)).
Proof.
  intros R. split.
  - destruct (readerLoopAmong_ends env inbound (addTrace s [EvSpawnSendHealth]))
      as [(s' & E & A & B & C) | (s' & E & A & B & C & D)].
    + left. exists s'. split.
      * unfold manageBalancerConnectionAmong, deferring.
        unfold bind at 1. unfold emit at 1, modify.
        fold (addTrace s [EvSpawnSendHealth]). now rewrite E.
      * unfold addTrace in A, B. cbn [trace with_trace] in A, B.
        rewrite countWgDone_app in A. rewrite countDeregister_app in B.
        cbn in A, B. split; [lia|]. split; [lia | exact C].
    + right. split; [now apply D|].
      eexists. split.
      * unfold manageBalancerConnectionAmong, deferring.
        unfold bind at 1. unfold emit at 1, modify.
        fold (addTrace s [EvSpawnSendHealth]). rewrite E.
        unfold bind, emit, modify, ret. reflexivity.
      * cbn [cl trace with_trace].
        unfold addTrace in B, C. cbn [trace with_trace] in B, C.
        rewrite countWgDone_app in B. rewrite countDeregister_app in C.
        rewrite !countWgDone_app, !countDeregister_app.
        cbn in B, C. cbn. split; [exact A|]. split; lia.
  - intros Ha.
    assert (E : manageBalancerConnectionAmong env inbound s
                = manageBalancerConnection env (map snd inbound) s).
    { unfold manageBalancerConnectionAmong, manageBalancerConnection,
        deferring.
      unfold bind at 1 3. unfold emit at 1 4, modify.
      now rewrite (readerLoopAmong_alone env inbound Ha). }
    split; [exact E|]. rewrite E.
    destruct (readerLoop_exits env (map snd inbound)
                (addTrace s [EvSpawnSendHealth]) R)
      as (s' & H1 & H2 & H3 & _).
    exists s'. split.
    + unfold manageBalancerConnection, deferring.
      unfold bind at 1. unfold emit at 1, modify.
      fold (addTrace s [EvSpawnSendHealth]). now rewrite H1.
    + unfold addTrace in H3. cbn [trace with_trace] in H3.
      rewrite countDeregister_app in H3. cbn in H3.
      split; [exact H2 | lia].
Qed.

Lemma reader_ends_in_shutdown_witness :
  running (state (cl (initSys (node1 Active)))) = true
  /\ alone [(None, None, inl "PAUSED"); (None, None, inl "HEALTHACK 200");
            (None, None, inr "i/o timeout")] = true
  /\ (exists s',
        manageBalancerConnectionAmong okEnv
          [(None, None, inl "PAUSED"); (None, None, inl "HEALTHACK 200");
           (None, None, inr "i/o timeout")]
          (initSys (node1 Active)) = (Exited 0, s')
        /\ state (cl s') = Deregistering
        /\ countDeregister (trace s') = 1)
  /\ manageBalancerConnectionAmong okEnv
       [(None, None, inl "PAUSED");
        (Some Deregistering, None, inl "RESUMED")]
       (initSys (node1 Active))
     = (Ret tt,
        addTrace (setState (initSys (node1 Active)) Deregistering)
          [EvSpawnSendHealth;
           EvLog Debug "ended balancer connection management"; EvWgDone]).
Proof.
  split; [reflexivity|]. split; [reflexivity|]. split; [|reflexivity].
  destruct (proj2 (@reader_ends_in_shutdown okEnv
              [(None, None, inl "PAUSED"); (None, None, inl "HEALTHACK 200");
               (None, None, inr "i/o timeout")]
              (initSys (node1 Active)) eq_refl) eq_refl)
    as (_ & s' & H1 & H2 & H3).
  exists s'. split; [exact H1|]. split; [exact H2 | exact H3].
Defined.

(** X7.  Started in any other state, the reader does start the heartbeat
    goroutine, reads nothing, and returns through its two deferred calls;
    it neither shuts the client down nor changes the state. *)
Theorem reader_not_started (env : Env) (inbound : list (string + string))
        (s : Sys) :
  running (state (cl s)) = false ->
  manageBalancerConnection env inbound s =
  (Ret tt,
   addTrace s [EvSpawnSendHealth;
               EvLog Debug "ended balancer connection management";
               EvWgDone]).
Proof.
  intros R. unfold manageBalancerConnection, deferring.
  unfold bind at 1. unfold emit at 1, modify.
  assert (E : forall s0, running (state (cl s0)) = false ->
                         readerLoop env inbound s0 = (Ret tt, s0)).
  { intros s0 R0. destruct inbound as [|[m|e] rest]; cbn [readerLoop];
      unfold bind at 1; unfold getState at 1, gets; now rewrite R0. }
  rewrite E by exact R.
  unfold bind, emit, modify, ret, addTrace, with_trace; cbn.
  now rewrite <- !app_assoc.
Qed.

Lemma reader_not_started_witness :
  running (state (cl (initSys (node1 Deregistering)))) = false
  /\ manageBalancerConnection okEnv [inl "RESUMED"]
       (initSys (node1 Deregistering))
     = (Ret tt,
        addTrace (initSys (node1 Deregistering))
          [EvSpawnSendHealth;
           EvLog Debug "ended balancer connection management"; EvWgDone]).
Proof.
  split; [reflexivity|].
  exact (reader_not_started okEnv [inl "RESUMED"]
           (initSys (node1 Deregistering)) eq_refl).
Defined.

Lemma directiveOf_token (d rest : string) :
  noSpace d = true ->
  directiveOf (d ++ String " " rest)%string = d /\ directiveOf d = d.
Proof.
  unfold directiveOf. induction d as [|ch d IH]; intros H; cbn.
  - now split.
  - cbn in H. apply andb_prop in H. destruct H as [Hc Hd].
    destruct (Ascii.eqb ch " "); [discriminate|].
    destruct (IH Hd) as [IH1 IH2].
    destruct (Split_cons (d ++ String " " rest)%string " "%char)
      as (t1 & ts1 & E1).
    destruct (Split_cons d " "%char) as (t2 & ts2 & E2).
    rewrite E1 in *. rewrite E2 in *. cbn in *. now subst.
Qed.

(** X9.  Only the text before the first space selects what a control line
    does: with the same first token, a line with further tokens and the
    line without them make the same change of the lifecycle state and end
    or continue the loop alike. *)
Theorem directive_ignores_arguments (env : Env) (d rest : string) (s : Sys) :
  noSpace d = true ->
  fst (handleLine env (d ++ String " " rest)%string s)
  = fst (handleLine env d s)
  /\ cl (snd (handleLine env (d ++ String " " rest)%string s))
     = cl (snd (handleLine env d s)).
Proof.
  intros H. destruct (directiveOf_token d rest H) as [E1 E2].
  rewrite !handleLine_run, E1, E2.
  destruct (String.eqb d "PAUSED"); [now split|].
  destruct (String.eqb d "RESUMED"); [now split|].
  destruct (String.eqb d "DEREGISTERED"); now split.
Qed.

Lemma directive_ignores_arguments_witness :
  noSpace "PAUSED" = true
  /\ cl (snd (handleLine okEnv "PAUSED by operator" (initSys (node1 Active))))
     = cl (snd (handleLine okEnv "PAUSED" (initSys (node1 Active)))).
Proof.
  split; [reflexivity|].
  exact (proj2 (directive_ignores_arguments okEnv "PAUSED" "by operator"
                  (initSys (node1 Active)) eq_refl)).
Defined.

(* ================================================================== *)
(** ** Lifecycle commands, acknowledgements and the heartbeat *)

Lemma pause_run (env : Env) (s : Sys) :
  pause env s =
  if State_eqb (state (cl s)) Paused
  then (Ret (Some errAlreadyPaused), s)
  else (Ret (WriteLine env ("PAUSE " ++ name (cl s))%string),
        addTrace s [EvWriteLine ("PAUSE " ++ name (cl s))%string]).
Proof. unfold pause. run. now destruct (state (cl s)). Qed.

Lemma resume_run (env : Env) (s : Sys) :
  resume env s =
  if State_eqb (state (cl s)) Active
  then (Ret (Some errAlreadyActive), s)
  else (Ret (WriteLine env ("RESUME " ++ name (cl s))%string),
        addTrace s [EvWriteLine ("RESUME " ++ name (cl s))%string]).
Proof. unfold resume. run. now destruct (state (cl s)). Qed.

(** X10.  [pause] and [resume] only ask: the state changes when the
    coordinator's PAUSED or RESUMED line is read.  Until then a repeated
    [pause] sends its line again; after the acknowledgement the next
    [pause] fails locally and sends nothing.  The same holds for [resume]
    and RESUMED. *)
Theorem pause_until_acknowledged (env : Env) (s : Sys) :
  (state (cl s) <> Paused ->
   (pause env ;;; pause env) s =
     (Ret (WriteLine env ("PAUSE " ++ name (cl s))%string),
      addTrace s [EvWriteLine ("PAUSE " ++ name (cl s))%string;
                  EvWriteLine ("PAUSE " ++ name (cl s))%string])
   /\ (pause env ;;; handleLine env "PAUSED" ;;; pause env) s =
     (Ret (Some errAlreadyPaused),
      addTrace (setState s Paused)
        [EvWriteLine ("PAUSE " ++ name (cl s))%string]))
  /\ (state (cl s) <> Active ->
      (resume env ;;; resume env) s =
        (Ret (WriteLine env ("RESUME " ++ name (cl s))%string),
         addTrace s [EvWriteLine ("RESUME " ++ name (cl s))%string;
                     EvWriteLine ("RESUME " ++ name (cl s))%string])
      /\ (resume env ;;; handleLine env "RESUMED" ;;; resume env) s =
        (Ret (Some errAlreadyActive),
         addTrace (setState s Active)
           [EvWriteLine ("RESUME " ++ name (cl s))%string])).
Proof.
  split; intros Hs.
  - assert (E : State_eqb (state (cl s)) Paused = false)
      by (destruct (state (cl s)); try reflexivity; congruence).
    split.
    + unfold bind. rewrite pause_run, E, pause_run.
      unfold addTrace; cbn [cl with_trace trace]. rewrite E.
      unfold with_trace; cbn. now rewrite <- app_assoc.
    + unfold bind. rewrite pause_run, E, handleLine_run.
      cbn [directiveOf Split hd String.eqb Ascii.eqb Bool.eqb].
      rewrite pause_run. reflexivity.
  - assert (E : State_eqb (state (cl s)) Active = false)
      by (destruct (state (cl s)); try reflexivity; congruence).
    split.
    + unfold bind. rewrite resume_run, E, resume_run.
      unfold addTrace; cbn [cl with_trace trace]. rewrite E.
      unfold with_trace; cbn. now rewrite <- app_assoc.
    + unfold bind. rewrite resume_run, E, handleLine_run.
      cbn [directiveOf Split hd String.eqb Ascii.eqb Bool.eqb].
      rewrite resume_run. reflexivity.
Qed.

Lemma pause_until_acknowledged_witness :
  state (cl (initSys (node1 Active))) <> Paused
  /\ (pause okEnv ;;; handleLine okEnv "PAUSED" ;;; pause okEnv)
       (initSys (node1 Active))
     = (Ret (Some errAlreadyPaused),
        addTrace (setState (initSys (node1 Active)) Paused)
          [EvWriteLine "PAUSE node1"])
  /\ state (cl (initSys (node1 Paused))) <> Active
  /\ (resume okEnv ;;; handleLine okEnv "RESUMED" ;;; resume okEnv)
       (initSys (node1 Paused))
     = (Ret (Some errAlreadyActive),
        addTrace (setState (initSys (node1 Paused)) Active)
          [EvWriteLine "RESUME node1"]).
Proof.
  assert (H1 : state (cl (initSys (node1 Active))) <> Paused) by discriminate.
  assert (H2 : state (cl (initSys (node1 Paused))) <> Active) by discriminate.
  split; [exact H1|]. split.
  - exact (proj2 (proj1 (pause_until_acknowledged okEnv
                           (initSys (node1 Active))) H1)).
  - split; [exact H2|].
    exact (proj2 (proj2 (pause_until_acknowledged okEnv
                           (initSys (node1 Paused))) H2)).
Defined.

(** X11.  [deregister] followed by the shutdown procedure sends exactly one
    DEREGISTER line, the one of [deregister], from whatever state; the
    shutdown procedure then goes through its closes and the detachment to
    the exit of the process. *)
Theorem deregister_then_shutdown (env : Env) (s : Sys) :
  (deregister env ;;; gracefulStop env) s =
    (Exited 0,
     addTrace (setState s Deregistering)
       (EvWriteLine ("DEREGISTER " ++ name (cl s))%string
        :: [EvCommClose; EvListenerClose]
        ++ detachEvents env (cl s)
        ++ match recover env with Some r => [EvLog Error r] | None => [] end
        ++ [EvExit 0]))
  /\ countDeregister
       (trace (snd ((deregister env ;;; gracefulStop env) s)))
     = S (countDeregister (trace s)).
Proof.
  assert (E : (deregister env ;;; gracefulStop env) s =
    (Exited 0,
     addTrace (setState s Deregistering)
       (EvWriteLine ("DEREGISTER " ++ name (cl s))%string
        :: [EvCommClose; EvListenerClose]
        ++ detachEvents env (cl s)
        ++ match recover env with Some r => [EvLog Error r] | None => [] end
        ++ [EvExit 0]))).
  { unfold bind. rewrite deregister_run, gracefulStop_run.
    unfold shutdownEvents, addTrace, setState, with_trace, with_cl; cbn.
    now rewrite <- app_assoc. }
  split; [exact E|]. rewrite E.
  unfold addTrace; cbn [snd trace with_trace].
  rewrite countDeregister_app.
  change (EvWriteLine ("DEREGISTER " ++ name (cl s))%string
            :: [EvCommClose; EvListenerClose]
            ++ detachEvents env (cl s)
            ++ match recover env with
               | Some r => [EvLog Error r] | None => [] end
            ++ [EvExit 0])
    with ([EvWriteLine ("DEREGISTER " ++ name (cl s))%string]
            ++ [EvCommClose; EvListenerClose]
            ++ detachEvents env (cl s)
            ++ match recover env with
               | Some r => [EvLog Error r] | None => [] end
            ++ [EvExit 0]).
  rewrite countDeregister_app. unfold countDeregister at 2. cbn [filter].
  rewrite isDeregister_line. unfold detachEvents.
  destruct (LinkByName env "lo"), (recover env); cbn;
    unfold countDeregister; lia.
Qed.





(* ================================================================== *)
(** ** Workers outside the running states, and the attached address *)

Lemma handlePacketsInit_run (env : Env) (s : Sys) :
  To4 (vip (cl s)) <> None ->
  handlePacketsInit env s =
  (Ret (Socket env, mkSockaddrInet4 0 (firstn 4 (vip (cl s)))),
   addTrace s [EvSocket]).
Proof.
  intros H. destruct (To4 (vip (cl s))) as [x|] eqn:E; [|congruence].
  assert (L : 4 <= List.length (vip (cl s))).
  { destruct (To4_length _ E) as [L|L]; rewrite L; lia. }
  unfold handlePacketsInit, bind, ret, emit, getClient, modify, gets, panic,
    addTrace.
  cbn [cl with_trace fst snd].
  now rewrite E, (sliceTo_4 _ L), (copy4_firstn _ L).
Qed.

(** X13.  A worker that finds the state neither Active nor Paused at its
    first check returns at once: it has opened its socket, takes no packet
    from the channel and sends nothing ([listen] starts its workers before
    it sets the state to Active).  A worker that finds the state Active or
    Paused and the channel empty waits on the channel. *)
Theorem worker_outside_running_state (env : Env)
        (sends : list (option string)) (s : Sys) :
  To4 (vip (cl s)) <> None ->
  (running (state (cl s)) = false ->
   handlePackets env sends s = (Ret tt, addTrace s [EvSocket]))
  /\ (running (state (cl s)) = true -> packets s = [] ->
      forall sendErr,
        handlePackets env (sendErr :: sends) s
        = (Blocked, addTrace s [EvSocket])).
Proof.
  intros H4. split.
  - intros R. unfold handlePackets. unfold bind at 1.
    rewrite (handlePacketsInit_run env s H4). cbn [fst snd].
    destruct sends; cbn [relayLoop]; unfold bind at 1;
      unfold getState at 1, gets;
      cbn [cl addTrace with_trace]; now rewrite R.
  - intros R Q sendErr. unfold handlePackets. unfold bind at 1.
    rewrite (handlePacketsInit_run env s H4). cbn [fst snd relayLoop].
    unfold bind at 1. unfold getState at 1, gets.
    cbn [cl addTrace with_trace]. rewrite R.
    unfold bind at 1. unfold relayStep, bind, gets.
    cbn [packets addTrace with_trace]. now rewrite Q.
Qed.

Lemma worker_outside_running_state_witness :
  To4 (vip (cl (initSys (node1 Deregistering)))) <> None
  /\ running (state (cl (initSys (node1 Deregistering)))) = false
  /\ handlePackets okEnv [None; None] (initSys (node1 Deregistering))
     = (Ret tt, addTrace (initSys (node1 Deregistering)) [EvSocket])
  /\ running (state (cl (initSys (node1 Active)))) = true
  /\ handlePackets okEnv [None] (initSys (node1 Active))
     = (Blocked, addTrace (initSys (node1 Active)) [EvSocket]).
Proof.
  assert (H4 : To4 (vip (cl (initSys (node1 Deregistering)))) <> None)
    by discriminate.
  assert (H4' : To4 (vip (cl (initSys (node1 Active)))) <> None)
    by discriminate.
  split; [exact H4|]. split; [reflexivity|]. split.
  - exact (proj1 (worker_outside_running_state okEnv [None; None]
                    (initSys (node1 Deregistering)) H4) eq_refl).
  - split; [reflexivity|].
    exact (proj2 (worker_outside_running_state okEnv []
                    (initSys (node1 Active)) H4') eq_refl eq_refl None).
Defined.

Lemma land_255 (n : N) : (n < 256)%N -> N.land n 255 = n.
Proof.
  intros H. change 255%N with (N.ones 8).
  rewrite N.land_ones. now apply N.mod_small.
Qed.

(** X14.  The address that [attachVIP] adds and [detachVIP] removes is
    host-scoped: for a four-byte VIP, the only four-byte address inside
    the network handed to netlink is the VIP itself. *)
Theorem vipNet_contains_only_vip (c : Client) (ip : IP) :
  List.length (vip c) = 4 -> Forall (fun b => (b < 256)%N) (vip c) ->
  List.length ip = 4 -> Forall (fun b => (b < 256)%N) ip ->
  (Contains (vipNet c) ip = true <-> ip = vip c).
Proof.
  destruct c as [st nm v d hr]. cbn [vip]. intros Lv Bv Li Bi.
  destruct v as [|v0 [|v1 [|v2 [|v3 [|]]]]]; try discriminate.
  destruct ip as [|i0 [|i1 [|i2 [|i3 [|]]]]]; try discriminate.
  repeat match goal with
         | H : Forall _ (_ :: _) |- _ => inversion H; clear H; subst
         end.
  unfold vipNet. cbn [vip].
  change (CIDRMask 32 32) with [255; 255; 255; 255]%N.
  cbv -[N.land N.eqb andb].
  rewrite !land_255 by assumption.
  rewrite !andb_true_iff, !N.eqb_eq.
  split.
  - intros (-> & -> & -> & -> & _). reflexivity.
  - intros H. inversion H. now repeat split.
Qed.

Lemma vipNet_contains_only_vip_witness :
  List.length (vip (node1 Active)) = 4
  /\ Forall (fun b => (b < 256)%N) (vip (node1 Active))
  /\ (Contains (vipNet (node1 Active)) [10;0;0;100]%N = true
      <-> [10;0;0;100]%N = vip (node1 Active))
  /\ Contains (vipNet (node1 Active)) [10;0;0;101]%N = false.
Proof.
  assert (B : Forall (fun b => (b < 256)%N) [10;0;0;100]%N)
    by (repeat constructor).
  split; [reflexivity|]. split; [exact B|]. split; [|reflexivity].
  exact (@vipNet_contains_only_vip (node1 Active) [10;0;0;100]%N
           eq_refl B eq_refl B).
Defined.

(* ================================================================== *)
(** ** Packets and frames *)

Lemma filled_frame (pkt : rawPacket) (d : list byte) (m : nat) :
  List.length (payload pkt) = m ->
  firstn (Z.to_nat (size (filled pkt d))) (payload (filled pkt d))
  = firstn m d.
Proof.
  intros L. unfold filled. cbn [size payload]. rewrite L, Nat2Z.id.
  rewrite firstn_app, firstn_firstn, Nat.min_id, length_firstn.
  replace (Nat.min (List.length d) m
           - Nat.min (Nat.min (List.length d) m) (List.length d)) with 0
    by lia.
  cbn [firstn]. rewrite app_nil_r.
  destruct (Nat.le_ge_cases (List.length d) m) as [H|H].
  - rewrite Nat.min_l by exact H.
    now rewrite firstn_all, firstn_all2 by exact H.
  - now rewrite Nat.min_r by exact H.
Qed.

Lemma filled_length (pkt : rawPacket) (d : list byte) :
  List.length (payload (filled pkt d)) = List.length (payload pkt).
Proof.
  unfold filled. cbn [payload].
  rewrite length_app, length_firstn, length_skipn. lia.
Qed.

Lemma newPacket_length (n : Z) :
  List.length (payload (newPacket n)) = Z.to_nat n.
Proof. unfold newPacket. cbn [payload]. apply repeat_length. Qed.

Lemma nth_error_setNth_other {A} (l : list A) (i j : nat) (x : A) :
  i <> j -> nth_error (setNth l j x) i = nth_error l i.
Proof.
  revert i j. induction l as [|a l IH]; intros [|i] [|j] H; cbn;
    try reflexivity; try congruence. apply IH. congruence.
Qed.

Lemma sentData_app (a b : list Event) :
  sentData (a ++ b) = sentData a ++ sentData b.
Proof. unfold sentData. apply flat_map_app. Qed.

(* ================================================================== *)
(** ** The pipeline, statement by statement: counting packets *)

Lemma occ_nil (p : ptr) : occ [] p = 0.
Proof. reflexivity. Qed.

Lemma occ_cons (q : ptr) (l : list ptr) (p : ptr) :
  occ (q :: l) p = (if Nat.eqb p q then 1 else 0) + occ l p.
Proof.
  unfold occ. cbn [count_occ].
  destruct (Nat.eq_dec q p) as [E|E], (Nat.eqb_spec p q); subst;
    try reflexivity; congruence.
Qed.

Lemma occ_app (a b : list ptr) (p : ptr) : occ (a ++ b) p = occ a p + occ b p.
Proof. apply count_occ_app. Qed.

Lemma occ_In (l : list ptr) (p : ptr) : In p l <-> 1 <= occ l p.
Proof. unfold occ. rewrite (count_occ_In Nat.eq_dec). lia. Qed.

Lemma removeNth_split {A} (l1 l2 : list A) (a : A) :
  removeNth (l1 ++ a :: l2) (List.length l1) = l1 ++ l2.
Proof.
  unfold removeNth.
  rewrite firstn_app, Nat.sub_diag, firstn_all. cbn [firstn].
  rewrite app_nil_r.
  replace (S (List.length l1)) with (List.length (l1 ++ [a]))
    by (rewrite length_app; cbn; lia).
  replace (l1 ++ a :: l2) with ((l1 ++ [a]) ++ l2)
    by (now rewrite <- app_assoc).
  now rewrite skipn_app, skipn_all, Nat.sub_diag.
Qed.

Lemma removeNth_none {A} (l : list A) (k : nat) :
  nth_error l k = None -> removeNth l k = l.
Proof.
  intros H. apply nth_error_None in H. unfold removeNth.
  rewrite firstn_all2 by exact H.
  rewrite skipn_all2 by lia. apply app_nil_r.
Qed.

Lemma occ_removeNth (l : list ptr) (k : nat) (q p : ptr) :
  nth_error l k = Some q ->
  occ l p = (if Nat.eqb p q then 1 else 0) + occ (removeNth l k) p.
Proof.
  intros H. destruct (nth_error_split _ _ H) as (l1 & l2 & E & L).
  subst l k. rewrite removeNth_split, !occ_app, occ_cons. lia.
Qed.

Lemma setNth_split {A} (l1 l2 : list A) (a b : A) :
  setNth (l1 ++ a :: l2) (List.length l1) b = l1 ++ b :: l2.
Proof. induction l1 as [|x l1 IH]; cbn; [reflexivity|]. now rewrite IH. Qed.

Lemma occ_workers (ws : list WorkPc) (w : nat) (pc pc' : WorkPc) (p : ptr) :
  nth_error ws w = Some pc ->
  occ (flat_map wheld (setNth ws w pc')) p + occ (wheld pc) p
  = occ (flat_map wheld ws) p + occ (wheld pc') p.
Proof.
  intros H. destruct (nth_error_split _ _ H) as (l1 & l2 & E & L).
  subst ws w. rewrite setNth_split, !flat_map_app. cbn [flat_map].
  rewrite !occ_app. lia.
Qed.

Lemma countGet_app (p : ptr) (a b : list Event) :
  countGet p (a ++ b) = countGet p a + countGet p b.
Proof. unfold countGet. now rewrite filter_app, length_app. Qed.

Lemma countPut_app (p : ptr) (a b : list Event) :
  countPut p (a ++ b) = countPut p a + countPut p b.
Proof. unfold countPut. now rewrite filter_app, length_app. Qed.

Lemma countGet_cons (p : ptr) (e : Event) (t : list Event) :
  countGet p (e :: t) = (if isGet p e then 1 else 0) + countGet p t.
Proof. unfold countGet. cbn [filter]. now destruct (isGet p e). Qed.

Lemma countPut_cons (p : ptr) (e : Event) (t : list Event) :
  countPut p (e :: t) = (if isPut p e then 1 else 0) + countPut p t.
Proof. unfold countPut. cbn [filter]. now destruct (isPut p e). Qed.

Lemma countGet_nil (p : ptr) : countGet p [] = 0.
Proof. reflexivity. Qed.

Lemma countPut_nil (p : ptr) : countPut p [] = 0.
Proof. reflexivity. Qed.


Lemma readInto_run (p : ptr) (d : list byte) (s : Sys) (pkt : rawPacket) :
  nth_error (heap s) p = Some pkt ->
  readInto p d s = (Ret tt, with_heap s (setNth (heap s) p (filled pkt d))).
Proof.
  intros Hp.
  assert (Hlt : p < List.length (heap s))
    by (apply nth_error_Some; congruence).
  unfold readInto, bind, load, store, modify, ret, with_heap.
  rewrite Hp. cbn [cl trace heap idle packets poolSize payload size].
  rewrite nth_error_setNth by exact Hlt.
  cbn [cl trace heap idle packets poolSize payload size].
  now rewrite setNth_setNth.
Qed.

Lemma readInto_nil (p : ptr) (d : list byte) (s : Sys) :
  nth_error (heap s) p = None ->
  readInto p d s =
  (Panicked "invalid memory address or nil pointer dereference", s).
Proof. intros Hp. unfold readInto, bind, load. now rewrite Hp. Qed.

Lemma sendPacket_run (fd : Z) (addr : SockaddrInet4) (sendErr : option string)
      (p : ptr) (s : Sys) (pkt : rawPacket) :
  nth_error (heap s) p = Some pkt ->
  wellSized pkt ->
  sendPacket fd addr sendErr p s =
  (Ret tt,
   addTrace s
     (EvSendto fd (firstn (Z.to_nat (size pkt)) (payload pkt)) addr
      :: match sendErr with
         | Some _ => [EvLog Warn "Failed to write packet to local vip"]
         | None => []
         end)).
Proof.
  intros Hp [Hlo Hhi].
  unfold sendPacket, bind, load, emit, when, modify, ret, addTrace, with_trace.
  rewrite Hp. unfold sliceTo.
  replace (0 <=? size pkt)%Z with true by (symmetry; now apply Z.leb_le).
  replace (size pkt <=? Z.of_nat (List.length (payload pkt)))%Z with true
    by (symmetry; now apply Z.leb_le).
  cbn [andb]. destruct sendErr; cbn [cl trace heap idle packets poolSize];
    now rewrite <- ?app_assoc.
Qed.

(** Whatever they answer, the statements of a worker other than its
    receive and its release move no packet; the Sendto sends one frame at
    most. *)
Lemma sendPacket_cases (fd : Z) (addr : SockaddrInet4)
      (sendErr : option string) (p : ptr) (s : Sys) :
  exists o evs,
    sendPacket fd addr sendErr p s = (o, addTrace s evs)
    /\ (forall q, countGet q evs = 0 /\ countPut q evs = 0)
    /\ (forall code, o <> Exited code) /\ o <> Blocked
    /\ allGets evs = 0 /\ List.length (sentData evs) <= 1
    /\ (forall v, o = Panicked v -> evs = []).
Proof.
  unfold sendPacket, bind, load, emit, when, modify, ret, panic, addTrace,
    with_trace.
  destruct (nth_error (heap s) p) as [pkt|].
  - destruct (sliceTo (payload pkt) (size pkt)) as [data|].
    + destruct sendErr; cbn [cl trace heap idle packets poolSize];
        eexists _, _; (split; [rewrite <- ?app_assoc; reflexivity|]);
        (split; [intros q; split; reflexivity|]);
        (split; [congruence|]); (split; [congruence|]);
        (split; [reflexivity|]); (split; [cbn; lia | congruence]).
    + exists (Panicked "slice bounds out of range"), [].
      rewrite app_nil_r. destruct s; cbn.
      split; [reflexivity|]. split; [now split|].
      split; [congruence|]. split; [congruence|]. split; [reflexivity|].
      split; [lia | reflexivity].
  - eexists _, []. rewrite app_nil_r. destruct s; cbn.
    split; [reflexivity|]. split; [now split|].
    split; [congruence|]. split; [congruence|]. split; [reflexivity|].
    split; [lia | reflexivity].
Qed.

Lemma handlePacketsInit_cases (env : Env) (s : Sys) :
  exists o evs,
    handlePacketsInit env s = (o, addTrace s evs)
    /\ (forall q, countGet q evs = 0 /\ countPut q evs = 0)
    /\ (forall code, o <> Exited code) /\ o <> Blocked
    /\ allGets evs = 0 /\ sentData evs = [].
Proof.
  unfold handlePacketsInit, bind, emit, getClient, gets, modify, ret, panic,
    addTrace, with_trace.
  cbn [cl trace heap idle packets poolSize].
  destruct (To4 (vip (cl s))).
  - destruct (sliceTo (vip (cl s)) 4);
      eexists _, _; (split; [reflexivity|]);
      (split; [intros q; split; reflexivity|]);
      (split; [congruence|]); (split; [congruence|]); split; reflexivity.
  - eexists _, [_; _].
    split; [cbn [cl trace heap idle packets poolSize];
            rewrite <- app_assoc; reflexivity|].
    split; [intros q; split; reflexivity|].
    split; [congruence|]. split; [congruence|]. split; reflexivity.
Qed.

Ltac pipe_simpl :=
  unfold addTrace, setState in *;
  cbn [sys chanCap capPc workPcs crashed cl trace heap idle packets poolSize
       with_sys with_capPc with_worker with_crashed with_trace with_heap
       with_idle with_packets with_cl with_poolSize fst snd] in *.

Ltac occs :=
  unfold heldOut in *; pipe_simpl; cbn [capHeld wheld] in *;
  rewrite ?occ_app, ?occ_cons, ?occ_nil, ?countGet_app, ?countPut_app,
    ?countGet_cons, ?countPut_cons, ?countGet_nil, ?countPut_nil in *;
  cbn [isGet isPut] in *.

Ltac eqbs :=
  repeat match goal with
         | |- context [Nat.eqb ?a ?b] => destruct (Nat.eqb_spec a b)
         | H : context [Nat.eqb ?a ?b] |- _ => destruct (Nat.eqb_spec a b)
         end.

Ltac same_place := unfold moved; cbv zeta; occs; left; lia.

Lemma moved_refl (m : Move) (P : Pipe) (p : ptr) : moved m P P p.
Proof. unfold moved. cbv zeta. left. auto. Qed.

Lemma pstep_moved (env : Env) (m : Move) (P : Pipe) (p : ptr) :
  moved m P (pstep env m P) p.
Proof.
  destruct P as [[c t h i q n] cap cp ws cr].
  unfold pstep. cbn [crashed]. destruct cr as [v|]; [apply moved_refl|].
  destruct m as [choice|r|w|w sendErr|st|k].
  - (* the capture loop *)
    unfold captureMove. cbn [capPc].
    destruct cp as [| | |p0|p0|]; try apply moved_refl.
    + unfold act, putState, modify. same_place.
    + pipe_simpl. destruct (running (state c)); [same_place|].
      unfold act, emit, modify. same_place.
    + unfold act, bind, poolGetAny, poolNew, emit, modify, ret. pipe_simpl.
      destruct choice as [k|]; [destruct (nth_error i k) as [p0|] eqn:Ek|].
      * pipe_simpl. unfold moved. cbv zeta. occs.
        rewrite (occ_removeNth i k p Ek). eqbs; subst; lia.
      * destruct (n <? 0)%Z; [same_place|].
        pipe_simpl. unfold moved. cbv zeta. occs.
        rewrite length_app. cbn [List.length]. eqbs; subst; lia.
      * destruct (n <? 0)%Z; [same_place|].
        pipe_simpl. unfold moved. cbv zeta. occs.
        rewrite length_app. cbn [List.length]. eqbs; subst; lia.
    + pipe_simpl. destruct (Nat.ltb (List.length q) cap);
        [|apply moved_refl].
      unfold act, enqueue, modify. same_place.
  - (* the read returns *)
    unfold readMove. cbn [capPc].
    destruct cp as [| | |p0|p0|]; try apply moved_refl.
    destruct r as [d|err].
    + unfold act. pipe_simpl.
      destruct (nth_error h p0) as [pkt|] eqn:Ep.
      * rewrite (readInto_run p0 d (mkSys c t h i q n) Ep). same_place.
      * rewrite readInto_nil by exact Ep. same_place.
    + unfold act, emit, modify. pipe_simpl. unfold moved. cbv zeta. occs.
      eqbs; subst; lia.
  - (* hand-over *)
    unfold handoffMove. cbn [capPc sys packets workPcs].
    destruct cp as [| | |p0|p0|]; try apply moved_refl.
    destruct q as [|q0 q]; [|apply moved_refl].
    destruct (nth_error ws w) as [[|fd addr [| | |]|]|] eqn:Ew;
      try apply moved_refl.
    pose proof (@occ_workers ws w _ (WLoop fd addr (LSend p0)) p Ew) as Hw.
    unfold moved. cbv zeta. occs. left. eqbs; subst; lia.
  - (* a worker *)
    unfold workerMove. cbn [workPcs].
    pose proof (fun pc pc' (E : nth_error ws w = Some pc) =>
                  @occ_workers ws w pc pc' p E) as Hw.
    destruct (nth_error ws w) as [[|fd addr [| |p0|p0]|]|] eqn:Ew;
      try apply moved_refl.
    + unfold act. pipe_simpl.
      destruct (handlePacketsInit_cases env (mkSys c t h i q n))
        as (o & evs & E & Hq & Hx & Hb & _). rewrite E.
      destruct (Hq p) as [Hg Hp].
      destruct o as [r| | |]; [| exfalso; now apply (Hx code) | |congruence].
      * specialize (Hw _ (WLoop (fst r) (snd r) LGuard) eq_refl).
        unfold moved. cbv zeta. occs. rewrite Hg, Hp. left. lia.
      * unfold moved. cbv zeta. occs. rewrite Hg, Hp. left. lia.
    + pipe_simpl.
      destruct (running (state c));
        [specialize (Hw _ (WLoop fd addr LRecv) eq_refl)
        | specialize (Hw _ WReturned eq_refl)];
        unfold moved; cbv zeta; occs; left; lia.
    + pipe_simpl. destruct q as [|p0 q]; [apply moved_refl|].
      specialize (Hw _ (WLoop fd addr (LSend p0)) eq_refl).
      unfold moved. cbv zeta. occs. left. eqbs; subst; lia.
    + unfold act. pipe_simpl.
      destruct (sendPacket_cases fd addr sendErr p0 (mkSys c t h i q n))
        as (o & evs & E & Hq & Hx & Hb & _). rewrite E.
      destruct (Hq p) as [Hg Hp].
      destruct o as [r| | |]; [| exfalso; now apply (Hx code) | |congruence].
      * specialize (Hw _ (WLoop fd addr (LPut p0)) eq_refl).
        unfold moved. cbv zeta. occs. rewrite Hg, Hp. left. lia.
      * unfold moved. cbv zeta. occs. rewrite Hg, Hp. left. lia.
    + unfold act, poolPut, modify. pipe_simpl.
      specialize (Hw _ (WLoop fd addr LGuard) eq_refl).
      unfold moved. cbv zeta. occs. eqbs; subst; lia.
  - unfold act, putState, modify. same_place.
  - pipe_simpl. destruct (nth_error i k) as [p0|] eqn:Ek.
    + unfold moved. cbv zeta. occs.
      rewrite (occ_removeNth i k p Ek). eqbs; subst; lia.
    + rewrite removeNth_none by exact Ek. apply moved_refl.
Qed.

(** The heap only grows, and sizes stay within the payloads. *)
Lemma pstep_heap (env : Env) (m : Move) (P : Pipe) :
  Forall wellSized (heap (sys P)) ->
  List.length (heap (sys P)) <= List.length (heap (sys (pstep env m P)))
  /\ Forall wellSized (heap (sys (pstep env m P))).
Proof.
  intros Hsz. destruct P as [[c t h i q n] cap cp ws cr].
  unfold pstep. cbn [crashed]. destruct cr as [v|]; [now split|].
  assert (Hnew : List.length h <= List.length (h ++ [newPacket n])
                 /\ Forall wellSized (h ++ [newPacket n])).
  { rewrite length_app. split; [lia|]. apply Forall_app.
    split; [exact Hsz|]. constructor; [apply wellSized_new | constructor]. }
  destruct m as [choice|r|w|w sendErr|st|k].
  - unfold captureMove. cbn [capPc].
    destruct cp as [| | |p0|p0|]; try (now split).
    + pipe_simpl. destruct (running (state c)); now split.
    + unfold act, bind, poolGetAny, poolNew, emit, modify, ret. pipe_simpl.
      destruct choice as [k|]; [destruct (nth_error i k) as [p0|]|];
        try destruct (n <? 0)%Z; pipe_simpl; try exact Hnew; now split.
    + pipe_simpl. destruct (Nat.ltb (List.length q) cap); now split.
  - unfold readMove. cbn [capPc].
    destruct cp as [| | |p0|p0|]; try (now split).
    destruct r as [d|err]; [|now split].
    unfold act. pipe_simpl.
    destruct (nth_error h p0) as [pkt|] eqn:Ep.
    + rewrite (readInto_run p0 d (mkSys c t h i q n) Ep). pipe_simpl.
      rewrite length_setNth. split; [lia|].
      apply Forall_setNth; [exact Hsz | apply wellSized_filled].
    + rewrite readInto_nil by exact Ep. now split.
  - unfold handoffMove. cbn [capPc sys packets workPcs].
    destruct cp as [| | |p0|p0|]; try (now split).
    destruct q as [|q0 q]; [|now split].
    destruct (nth_error ws w) as [[|fd addr [| | |]|]|]; now split.
  - unfold workerMove. cbn [workPcs].
    destruct (nth_error ws w) as [[|fd addr [| |p0|p0]|]|];
      try (now split).
    + unfold act. pipe_simpl.
      destruct (handlePacketsInit_cases env (mkSys c t h i q n))
        as (o & evs & E & _). rewrite E.
      destruct o; now split.
    + pipe_simpl. destruct q; now split.
    + unfold act. pipe_simpl.
      destruct (sendPacket_cases fd addr sendErr p0 (mkSys c t h i q n))
        as (o & evs & E & _). rewrite E.
      destruct o; now split.
  - now split.
  - now split.
Qed.

Lemma Accounted_at (P : Pipe) :
  Accounted P <-> (forall p, acctAt P p) /\ Forall wellSized (heap (sys P)).
Proof.
  split.
  - intros [H1 H2 H3 H4 H5 H6]. split; [|exact H6].
    intros p. unfold acctAt. auto 10.
  - intros [H H6]. constructor; try exact H6; intros p; apply (H p).
Qed.

Lemma pstep_Accounted (env : Env) (m : Move) (P : Pipe) :
  Accounted P -> Accounted (pstep env m P).
Proof.
  intros H. apply Accounted_at in H. destruct H as [H Hsz].
  destruct (pstep_heap env m P Hsz) as [Hlen Hsz'].
  apply Accounted_at. split; [|exact Hsz'].
  intros p. specialize (H p). pose proof (pstep_moved env m P p) as Hm.
  unfold acctAt, moved in *. cbv zeta in Hm. lia.
Qed.

Lemma Accounted_start (c : Client) (mtu : Z) (cap : nat) :
  Accounted (pipeStart c mtu cap).
Proof.
  apply Accounted_at. split; [|constructor].
  intros p. unfold acctAt. cbn. lia.
Qed.

Lemma prun_snoc (env : Env) (moves : list Move) (m : Move) (P : Pipe) :
  prun env (moves ++ [m]) P = pstep env m (prun env moves P).
Proof. unfold prun. now rewrite fold_left_app. Qed.

Lemma prun_Accounted (env : Env) (moves : list Move) :
  forall P, Accounted P -> Accounted (prun env moves P).
Proof.
  induction moves as [|m moves IH]; intros P H; [exact H|].
  cbn [prun fold_left]. apply IH. now apply pstep_Accounted.
Qed.

(** Only a read that fails takes a packet from its holder without giving
    it to another one or back to the pool. *)
Lemma pstep_NoLoss (env : Env) (m : Move) (P : Pipe) :
  match m with MRead (inr _) => False | _ => True end ->
  NoLoss P -> NoLoss (pstep env m P).
Proof.
  intros Hm H p. specialize (H p).
  pose proof (pstep_moved env m P p) as Hp.
  unfold moved in Hp. cbv zeta in Hp.
  destruct m as [| [|] | | | |]; try contradiction; lia.
Qed.

Lemma NoLoss_start (c : Client) (mtu : Z) (cap : nat) :
  NoLoss (pipeStart c mtu cap).
Proof. intros p. reflexivity. Qed.

Lemma prun_NoLoss (env : Env) (moves : list Move) :
  forall P, noReadError moves = true -> NoLoss P -> NoLoss (prun env moves P).
Proof.
  induction moves as [|m moves IH]; intros P Hn H; [exact H|].
  cbn [noReadError forallb] in Hn. apply andb_prop in Hn.
  destruct Hn as [Hm Hn].
  cbn [prun fold_left]. apply IH; [exact Hn|].
  apply pstep_NoLoss; [|exact H].
  destruct m as [| [|] | | | |]; try exact I. discriminate.
Qed.


(** A packet that exists and that nobody holds stays so, and is neither
    taken nor given back again. *)
Lemma pstep_forgotten (env : Env) (m : Move) (P : Pipe) (p : ptr) :
  Accounted P ->
  p < List.length (heap (sys P)) ->
  occ (idle (sys P)) p = 0 -> occ (heldOut P) p = 0 ->
  p < List.length (heap (sys (pstep env m P)))
  /\ occ (idle (sys (pstep env m P))) p = 0
  /\ occ (heldOut (pstep env m P)) p = 0
  /\ countGet p (trace (sys (pstep env m P))) = countGet p (trace (sys P))
  /\ countPut p (trace (sys (pstep env m P))) = countPut p (trace (sys P)).
Proof.
  intros H Hp Hi Ho.
  destruct (pstep_heap env m P (acc_sized H)) as [Hlen _].
  pose proof (pstep_moved env m P p) as Hm.
  unfold moved in Hm. cbv zeta in Hm. lia.
Qed.

Lemma prun_forgotten (env : Env) (moves : list Move) (p : ptr) :
  forall P,
    Accounted P ->
    p < List.length (heap (sys P)) ->
    occ (idle (sys P)) p = 0 -> occ (heldOut P) p = 0 ->
    occ (idle (sys (prun env moves P))) p = 0
    /\ occ (heldOut (prun env moves P)) p = 0
    /\ countGet p (trace (sys (prun env moves P))) = countGet p (trace (sys P))
    /\ countPut p (trace (sys (prun env moves P))) = countPut p (trace (sys P)).
Proof.
  induction moves as [|m moves IH]; intros P H Hp Hi Ho; [now repeat split|].
  cbn [prun fold_left].
  destruct (@pstep_forgotten env m P p H Hp Hi Ho)
    as (Hp' & Hi' & Ho' & Hg & Hu).
  destruct (IH _ (@pstep_Accounted env m P H) Hp' Hi' Ho') as (A & B & C & D).
  fold (prun env moves (pstep env m P)). rewrite C, D, Hg, Hu. now repeat split.
Qed.

(** The two statements of a worker that holds packet [p]: the Sendto of
    the first [size] bytes, whatever it answers, and the release. *)
Lemma worker_sends (env : Env) (P : Pipe) (w : nat) (fd : Z)
      (addr : SockaddrInet4) (p : ptr) (sendErr : option string) :
  Accounted P -> crashed P = None ->
  nth_error (workPcs P) w = Some (WLoop fd addr (LSend p)) ->
  exists pkt,
    nth_error (heap (sys P)) p = Some pkt
    /\ wellSized pkt
    /\ pstep env (MWorker w sendErr) P =
       with_worker
         (with_sys P
            (addTrace (sys P)
               (EvSendto fd (firstn (Z.to_nat (size pkt)) (payload pkt)) addr
                :: match sendErr with
                   | Some _ => [EvLog Warn "Failed to write packet to local vip"]
                   | None => []
                   end)))
         w (WLoop fd addr (LPut p)).
Proof.
  intros H Hc Hw.
  assert (Hin : 1 <= occ (heldOut P) p).
  { unfold heldOut. rewrite !occ_app.
    destruct (nth_error_split _ _ Hw) as (l1 & l2 & E & _). rewrite E.
    rewrite flat_map_app. cbn [flat_map wheld]. rewrite !occ_app, occ_cons.
    rewrite Nat.eqb_refl. lia. }
  assert (Hlt : p < List.length (heap (sys P))) by (apply (acc_heap H); lia).
  destruct (nth_error (heap (sys P)) p) as [pkt|] eqn:Ep;
    [|apply nth_error_None in Ep; lia].
  assert (Hwell : wellSized pkt).
  { pose proof (acc_sized H) as Hsz. rewrite Forall_forall in Hsz.
    apply Hsz. eapply nth_error_In; eauto. }
  exists pkt. split; [reflexivity|]. split; [exact Hwell|].
  unfold pstep. rewrite Hc. unfold workerMove. rewrite Hw. unfold act.
  now rewrite (sendPacket_run fd addr sendErr p (sys P) Ep Hwell).
Qed.

Lemma worker_puts (env : Env) (P : Pipe) (w : nat) (fd : Z)
      (addr : SockaddrInet4) (p : ptr) (sendErr : option string) :
  crashed P = None ->
  nth_error (workPcs P) w = Some (WLoop fd addr (LPut p)) ->
  pstep env (MWorker w sendErr) P =
  with_worker
    (with_sys P (with_trace (with_idle (sys P) (p :: idle (sys P)))
                            (trace (sys P) ++ [EvPoolPut p])))
    w (WLoop fd addr LGuard).
Proof.
  intros Hc Hw. unfold pstep. rewrite Hc. unfold workerMove. rewrite Hw.
  reflexivity.
Qed.

(** C4, amended.  In every interleaving of the capture loop, the workers,
    the assignments of the state by other goroutines and whatever the pool
    does (any idle packet or a new one at each Get, idle packets dropped at
    any time): a packet is never given back more often than it was taken,
    nor taken again before it was given back; it is at one place at most
    (idle in the pool, held by the capture loop, in the channel, held by a
    worker), an idle packet having been given back as often as taken and a
    held one once less; a worker that has received a packet passes it to
    Sendto and then gives it back, exactly once, whatever Sendto answers;
    and as long as no read has failed, every packet that was taken and not
    given back is held by the capture loop, by the channel or by a
    worker. *)
Theorem pool_release_accounting (env : Env) (c : Client) (mtu : Z)
        (cap : nat) (moves : list Move) :
  let P := prun env moves (pipeStart c mtu cap) in
  (forall p, countPut p (trace (sys P)) <= countGet p (trace (sys P))
             <= S (countPut p (trace (sys P))))
  /\ NoDup (idle (sys P) ++ heldOut P)
  /\ (forall p, In p (idle (sys P)) ->
                countGet p (trace (sys P)) = countPut p (trace (sys P)))
  /\ (forall p, In p (heldOut P) ->
                countGet p (trace (sys P)) = S (countPut p (trace (sys P))))
  /\ (forall w fd addr p sendErr e,
        crashed P = None ->
        nth_error (workPcs P) w = Some (WLoop fd addr (LSend p)) ->
        let P2 := prun env [MWorker w sendErr; MWorker w e] P in
        nth_error (workPcs P2) w = Some (WLoop fd addr LGuard)
        /\ List.length (sentData (trace (sys P2)))
           = S (List.length (sentData (trace (sys P))))
        /\ countPut p (trace (sys P2)) = S (countPut p (trace (sys P)))
        /\ countGet p (trace (sys P2)) = countGet p (trace (sys P))
        /\ In p (idle (sys P2)))
  /\ (noReadError moves = true ->
      forall p, countGet p (trace (sys P)) = S (countPut p (trace (sys P))) ->
                In p (heldOut P)).
Proof.
  intros P.
  assert (H : Accounted P)
    by (apply prun_Accounted, Accounted_start).
  split; [|split; [|split; [|split; [|split]]]].
  - intros p. pose proof (acc_count H p). lia.
  - apply (NoDup_count_occ Nat.eq_dec). intros p.
    rewrite count_occ_app. apply (acc_one H).
  - intros p Hin. apply (acc_idle H). now apply occ_In.
  - intros p Hin. apply occ_In in Hin.
    pose proof (acc_count H p). lia.
  - intros w fd addr p sendErr e Hc Hw.
    destruct (@worker_sends env P w fd addr p sendErr H Hc Hw)
      as (pkt & Ep & Hwell & E1).
    assert (Hlt : w < List.length (workPcs P))
      by (apply nth_error_Some; congruence).
    cbv zeta. cbn [prun fold_left]. rewrite E1.
    match goal with
    | |- context [pstep env (MWorker w e) ?Q] =>
        rewrite (@worker_puts env Q w fd addr p e)
    end;
      [|exact Hc
       |cbn [workPcs with_worker with_sys]; now apply nth_error_setNth].
    cbn [workPcs with_worker with_sys sys trace idle with_trace with_idle
         addTrace].
    split; [apply nth_error_setNth; now rewrite length_setNth|].
    unfold addTrace. cbn [trace with_trace].
    rewrite !sentData_app, !length_app, !countPut_app, !countGet_app.
    split; [destruct sendErr; unfold sentData;
            cbn [flat_map app List.length]; lia|].
    rewrite !countPut_cons, !countGet_cons, countPut_nil, countGet_nil.
    cbn [isPut isGet]. rewrite Nat.eqb_refl.
    split; [destruct sendErr;
            rewrite ?countPut_cons, ?countPut_nil; cbn [isPut]; lia|].
    split; [destruct sendErr;
            rewrite ?countGet_cons, ?countGet_nil; cbn [isGet]; lia
           |now left].
  - intros Hn p Hp.
    pose proof (prun_NoLoss env moves Hn (NoLoss_start c mtu cap) p) as Hl.
    fold P in Hl. apply occ_In. lia.
Qed.


Lemma pool_release_accounting_witness :
  let moves := [MCapture None; MWorker 0 None; MWorker 0 None;
                MCapture None; MCapture None; MRead (inl [x01; x02]);
                MHandoff 0; MCapture None; MCapture None] in
  let P := prun okEnv moves (pipeStart (node1 Active) 8 0) in
  let P2 := prun okEnv [MWorker 0 (Some "network is unreachable");
                        MWorker 0 None] P in
  noReadError moves = true
  /\ crashed P = None
  /\ capPc P = CapRead 1
  /\ nth_error (workPcs P) 0
     = Some (WLoop 3 (mkSockaddrInet4 0 [10; 0; 0; 100]%N) (LSend 0))
  /\ (nth_error (workPcs P2) 0
      = Some (WLoop 3 (mkSockaddrInet4 0 [10; 0; 0; 100]%N) LGuard)
      /\ List.length (sentData (trace (sys P2)))
         = S (List.length (sentData (trace (sys P))))
      /\ countPut 0 (trace (sys P2)) = S (countPut 0 (trace (sys P)))
      /\ countGet 0 (trace (sys P2)) = countGet 0 (trace (sys P))
      /\ In 0 (idle (sys P2)))
  /\ forall p, countGet p (trace (sys P)) = S (countPut p (trace (sys P))) ->
               In p (heldOut P).
Proof.
  cbv zeta.
  pose proof (pool_release_accounting okEnv (node1 Active) 8 0
                [MCapture None; MWorker 0 None; MWorker 0 None;
                 MCapture None; MCapture None; MRead (inl [x01; x02]);
                 MHandoff 0; MCapture None; MCapture None]) as H.
  cbv zeta in H. destruct H as (_ & _ & _ & _ & H5 & H6).
  split; [reflexivity|]. split; [reflexivity|]. split; [reflexivity|].
  split; [reflexivity|].
  split; [|exact (H6 eq_refl)].
  exact (H5 0 3%Z (mkSockaddrInet4 0 [10; 0; 0; 100]%N) 0
            (Some "network is unreachable") None eq_refl eq_refl).
Defined.

(** C4 as stated fails on the read-error exit of the capture loop: [listen]
    returns with the packet it took for that read.  The capture loop has
    returned, packet 0 has been taken once and never given back, nobody
    holds it, and whatever the workers, the pool and the other goroutines do
    from there on, it is never given back. *)
Lemma read_error_loses_buffer :
  let P := prun okEnv
             [MCapture None; MCapture None; MCapture None;
              MRead (inr "use of closed network connection")]
             (pipeStart (node1 Active) 8 4) in
  capPc P = CapReturned
  /\ countGet 0 (trace (sys P)) = 1
  /\ countPut 0 (trace (sys P)) = 0
  /\ idle (sys P) = [] /\ heldOut P = []
  /\ (forall moves,
        countGet 0 (trace (sys (prun okEnv moves P))) = 1
        /\ countPut 0 (trace (sys (prun okEnv moves P))) = 0
        /\ ~ In 0 (idle (sys (prun okEnv moves P))))
  /\ fst (listen okEnv [inr "use of closed network connection"]
            (initSys (node1 Active)))
     = Ret (Some "use of closed network connection")
  /\ filter (fun e => isGet 0 e || isPut 0 e)
       (trace (snd (listen okEnv [inr "use of closed network connection"]
                      (initSys (node1 Active)))))
     = [EvPoolGet 0].
Proof.
  cbv zeta.
  split; [reflexivity|]. split; [reflexivity|]. split; [reflexivity|].
  split; [reflexivity|]. split; [reflexivity|].
  split; [|split; reflexivity].
  intros moves.
  set (P := prun okEnv
              [MCapture None; MCapture None; MCapture None;
               MRead (inr "use of closed network connection")]
              (pipeStart (node1 Active) 8 4)).
  assert (H : Accounted P) by (apply prun_Accounted, Accounted_start).
  destruct (@prun_forgotten okEnv moves 0 P H) as (Hi & _ & Hg & Hu);
    try reflexivity; [cbn; lia|].
  rewrite Hg, Hu. split; [reflexivity|]. split; [reflexivity|].
  intros Hin. apply occ_In in Hin. lia.
Qed.


(* ================================================================== *)
(** ** What a worker sends, and where to *)

(** One pass of a worker from its start: the socket, then for the oldest
    packet of the channel the Sendto of its first [size] bytes to the
    address made of the first four bytes of [c.vip], the warning when the
    Sendto fails, and the release. *)
Lemma handlePackets_pass (env : Env) (s : Sys) (p : ptr) (rest : list ptr)
      (pkt : rawPacket) (sendErr : option string) :
  To4 (vip (cl s)) <> None ->
  running (state (cl s)) = true ->
  packets s = p :: rest ->
  nth_error (heap s) p = Some pkt ->
  wellSized pkt ->
  handlePackets env [sendErr] s =
  (Ret tt,
   mkSys (cl s)
     (trace s
      ++ [EvSocket;
          EvSendto (Socket env) (firstn (Z.to_nat (size pkt)) (payload pkt))
                   (mkSockaddrInet4 0 (firstn 4 (vip (cl s))))]
      ++ match sendErr with
         | Some _ => [EvLog Warn "Failed to write packet to local vip"]
         | None => []
         end
      ++ [EvPoolPut p])
     (heap s) (p :: idle s) rest (poolSize s)).
Proof.
  intros H4 R Q Hp Hw.
  unfold handlePackets. unfold bind at 1.
  rewrite (handlePacketsInit_run env s H4). cbn [fst snd relayLoop].
  unfold bind at 1. unfold getState at 1, gets.
  cbn [cl addTrace with_trace]. rewrite R.
  unfold bind at 1.
  rewrite (@relayStep_run (Socket env)
             (mkSockaddrInet4 0 (firstn 4 (vip (cl s)))) sendErr
             (addTrace s [EvSocket]) p rest pkt Q Hp Hw).
  unfold bind, getState, gets, ret.
  cbn [cl trace heap idle packets poolSize addTrace with_trace].
  destruct (running (state (cl s)));
    now rewrite <- !app_assoc.
Qed.

(** C7.  A worker sends exactly the first [size] bytes of the packet it
    dequeued, once, and gives the packet back whether or not the Sendto
    failed; but it sends them to the address made of the first four bytes
    of [c.vip], which is not the VIP when the VIP is an IPv4 address in its
    sixteen-byte form: [To4] accepts such a VIP as a.b.c.d, and the packet
    goes to 0.0.0.0. *)
Theorem relay_misses_mapped_vip (env : Env) (s : Sys) (a b c d : N)
        (p : ptr) (rest : list ptr) (pkt : rawPacket)
        (sendErr : option string) :
  vip (cl s) = [0; 0; 0; 0; 0; 0; 0; 0; 0; 0; 255; 255; a; b; c; d]%N ->
  running (state (cl s)) = true ->
  packets s = p :: rest ->
  nth_error (heap s) p = Some pkt ->
  wellSized pkt ->
  To4 (vip (cl s)) = Some [a; b; c; d]%N
  /\ handlePackets env [sendErr] s =
     (Ret tt,
      mkSys (cl s)
        (trace s
         ++ [EvSocket;
             EvSendto (Socket env)
                      (firstn (Z.to_nat (size pkt)) (payload pkt))
                      (mkSockaddrInet4 0 [0; 0; 0; 0]%N)]
         ++ match sendErr with
            | Some _ => [EvLog Warn "Failed to write packet to local vip"]
            | None => []
            end
         ++ [EvPoolPut p])
        (heap s) (p :: idle s) rest (poolSize s)).
Proof.
  intros Hv R Q Hp Hw.
  assert (E4 : To4 (vip (cl s)) = Some [a; b; c; d]%N)
    by (rewrite Hv; reflexivity).
  split; [exact E4|].
  rewrite (@handlePackets_pass env s p rest pkt sendErr); try assumption.
  - now rewrite Hv.
  - congruence.
Qed.

Lemma relay_misses_mapped_vip_witness :
  let s := mkSys (mkClient Active "node1"
                    [0; 0; 0; 0; 0; 0; 0; 0; 0; 0; 255; 255; 10; 0; 0; 100]%N
                    [10; 0; 0; 7]%N 5)
                 [] [mkRawPacket 2 [x45; x00; xff; xff]] [] [0] 4 in
  To4 (vip (cl s)) = Some [10; 0; 0; 100]%N
  /\ handlePackets okEnv [Some "invalid argument"] s =
     (Ret tt,
      mkSys (cl s)
        [EvSocket; EvSendto 3 [x45; x00] (mkSockaddrInet4 0 [0; 0; 0; 0]%N);
         EvLog Warn "Failed to write packet to local vip"; EvPoolPut 0]
        [mkRawPacket 2 [x45; x00; xff; xff]] [0] [] 4).
Proof.
  cbv zeta.
  refine (@relay_misses_mapped_vip okEnv
            (mkSys (mkClient Active "node1"
                      [0; 0; 0; 0; 0; 0; 0; 0; 0; 0; 255; 255; 10; 0; 0; 100]%N
                      [10; 0; 0; 7]%N 5)
                   [] [mkRawPacket 2 [x45; x00; xff; xff]] [] [0] 4)
            10 0 0 100 0 []
            (mkRawPacket 2 [x45; x00; xff; xff]) (Some "invalid argument")
            eq_refl eq_refl eq_refl eq_refl _).
  unfold wellSized. cbn. lia.
Defined.


(** X20.  A worker started on an IPv4 VIP, the state Active or Paused, that
    finds a packet in the channel: it opens its socket, passes exactly the
    first [size] bytes of that packet to one Sendto, addressed to the first
    four bytes of [c.vip] at port 0, logs a warning when the Sendto fails,
    and gives the packet back to the pool in both cases; the channel loses
    its oldest packet and nothing else changes.  For a VIP held in four
    bytes the destination is the VIP. *)
Theorem worker_pass_closed_form (env : Env) (s : Sys) (p : ptr)
        (rest : list ptr) (pkt : rawPacket) (sendErr : option string) :
  To4 (vip (cl s)) <> None ->
  running (state (cl s)) = true ->
  packets s = p :: rest ->
  nth_error (heap s) p = Some pkt ->
  wellSized pkt ->
  handlePackets env [sendErr] s =
    (Ret tt,
     mkSys (cl s)
       (trace s
        ++ [EvSocket;
            EvSendto (Socket env) (firstn (Z.to_nat (size pkt)) (payload pkt))
                     (mkSockaddrInet4 0 (firstn 4 (vip (cl s))))]
        ++ match sendErr with
           | Some _ => [EvLog Warn "Failed to write packet to local vip"]
           | None => []
           end
        ++ [EvPoolPut p])
       (heap s) (p :: idle s) rest (poolSize s))
  /\ (List.length (vip (cl s)) = 4 -> firstn 4 (vip (cl s)) = vip (cl s)).
Proof.
  intros H4 R Q Hp Hw. split.
  - now apply handlePackets_pass.
  - intros L. rewrite <- L. apply firstn_all.
Qed.

Lemma worker_pass_closed_form_witness :
  let s := mkSys (node1 Paused) [] [mkRawPacket 3 [x45; x00; x00; xff]] []
                 [0] 4 in
  To4 (vip (cl s)) <> None
  /\ handlePackets okEnv [None] s =
     (Ret tt,
      mkSys (node1 Paused)
        [EvSocket;
         EvSendto 3 [x45; x00; x00] (mkSockaddrInet4 0 [10; 0; 0; 100]%N);
         EvPoolPut 0]
        [mkRawPacket 3 [x45; x00; x00; xff]] [0] [] 4).
Proof.
  cbv zeta.
  assert (H4 : To4 (vip (node1 Paused)) <> None) by discriminate.
  split; [exact H4|].
  refine (proj1 (@worker_pass_closed_form okEnv
                   (mkSys (node1 Paused) []
                      [mkRawPacket 3 [x45; x00; x00; xff]] [] [0] 4)
                   0 [] (mkRawPacket 3 [x45; x00; x00; xff]) None
                   H4 eq_refl eq_refl eq_refl _)).
  unfold wellSized. cbn. lia.
Defined.

(* ================================================================== *)
(** ** After the state has left Active and Paused *)

Lemma passes_setNth (ws : list WorkPc) (w : nat) (pc pc' : WorkPc) :
  nth_error ws w = Some pc ->
  passes (setNth ws w pc') + inPass pc = passes ws + inPass pc'.
Proof.
  intros H. destruct (nth_error_split _ _ H) as (l1 & l2 & E & L).
  subst ws w. rewrite setNth_split. unfold passes.
  rewrite !map_app, !list_sum_app. cbn [map list_sum fold_right]. lia.
Qed.

Lemma allGets_app (a b : list Event) : allGets (a ++ b) = allGets a + allGets b.
Proof. unfold allGets. now rewrite filter_app, length_app. Qed.

Lemma pstep_stopped (env : Env) (m : Move) (P : Pipe) :
  running (state (cl (sys P))) = false ->
  capPc P <> CapStart ->
  match m with MState _ => False | _ => True end ->
  state (cl (sys (pstep env m P))) = state (cl (sys P))
  /\ capPc (pstep env m P) <> CapStart
  /\ allGets (trace (sys (pstep env m P))) + getPending (capPc (pstep env m P))
     <= allGets (trace (sys P)) + getPending (capPc P)
  /\ List.length (sentData (trace (sys (pstep env m P))))
       + passes (workPcs (pstep env m P))
     <= List.length (sentData (trace (sys P))) + passes (workPcs P).
Proof.
  intros R Hs Hm. destruct P as [[c t h i q n] cap cp ws cr].
  pipe_simpl.
  assert (Hsame : state c = state c /\ cp <> CapStart
                  /\ allGets t + getPending cp <= allGets t + getPending cp
                  /\ List.length (sentData t) + passes ws
                     <= List.length (sentData t) + passes ws)
    by (repeat split; [exact Hs | lia | lia]).
  unfold pstep. cbn [crashed]. destruct cr as [v|]; [exact Hsame|].
  destruct m as [choice|r|w|w sendErr|st|k]; [| | | |contradiction|].
  - unfold captureMove. cbn [capPc].
    destruct cp as [| | |p0|p0|];
      [congruence| | |exact Hsame| |exact Hsame].
    + pipe_simpl. rewrite R. unfold act, emit, modify. pipe_simpl.
      rewrite allGets_app, sentData_app, length_app. cbn.
      repeat split; [congruence | lia | lia].
    + unfold act, bind, poolGetAny, poolNew, emit, modify, ret. pipe_simpl.
      cbn [getPending].
      destruct choice as [k|]; [destruct (nth_error i k) as [p0|]|];
        try destruct (n <? 0)%Z; pipe_simpl;
        rewrite ?allGets_app, ?sentData_app, ?length_app; cbn;
        repeat split; try congruence; lia.
    + pipe_simpl. destruct (Nat.ltb (List.length q) cap); [|exact Hsame].
      unfold act, enqueue, modify. pipe_simpl. cbn.
      repeat split; [congruence | lia | lia].
  - unfold readMove. cbn [capPc].
    destruct cp as [| | |p0|p0|]; try exact Hsame.
    destruct r as [d|err].
    + unfold act. pipe_simpl.
      destruct (nth_error h p0) as [pkt|] eqn:Ep.
      * rewrite (readInto_run p0 d (mkSys c t h i q n) Ep). pipe_simpl.
        cbn. repeat split; [congruence | lia | lia].
      * rewrite readInto_nil by exact Ep. pipe_simpl.
        cbn. repeat split; [congruence | lia | lia].
    + unfold act, emit, modify. pipe_simpl.
      rewrite allGets_app, sentData_app, length_app. cbn.
      repeat split; [congruence | lia | lia].
  - unfold handoffMove. cbn [capPc sys packets workPcs].
    destruct cp as [| | |p0|p0|]; try exact Hsame.
    destruct q as [|q0 q]; [|exact Hsame].
    destruct (nth_error ws w) as [[|fd addr [| | |]|]|] eqn:Ew;
      try exact Hsame.
    pose proof (@passes_setNth ws w _ (WLoop fd addr (LSend p0)) Ew) as Hw.
    pipe_simpl. cbn [inPass] in Hw. cbn [getPending].
    repeat split; [congruence | lia | lia].
  - unfold workerMove. cbn [workPcs].
    pose proof (fun pc pc' (E : nth_error ws w = Some pc) =>
                  @passes_setNth ws w pc pc' E) as Hw.
    destruct (nth_error ws w) as [[|fd addr [| |p0|p0]|]|] eqn:Ew;
      try exact Hsame.
    + unfold act. pipe_simpl.
      destruct (handlePacketsInit_cases env (mkSys c t h i q n))
        as (o & evs & E & _ & Hx & Hb & Hg & Hd). rewrite E.
      destruct o as [r| | |]; [| exfalso; now apply (Hx code) | |congruence].
      * specialize (Hw _ (WLoop (fst r) (snd r) LGuard) eq_refl).
        pipe_simpl. cbn [inPass] in Hw.
        rewrite allGets_app, sentData_app, length_app, Hg, Hd. cbn.
        repeat split; [exact Hs | lia | lia].
      * pipe_simpl.
        rewrite allGets_app, sentData_app, length_app, Hg, Hd. cbn.
        repeat split; [exact Hs | lia | lia].
    + pipe_simpl. rewrite R.
      specialize (Hw _ WReturned eq_refl). cbn [inPass] in Hw.
      repeat split; [exact Hs | lia | lia].
    + pipe_simpl. destruct q as [|p0 q]; [exact Hsame|].
      specialize (Hw _ (WLoop fd addr (LSend p0)) eq_refl).
      pipe_simpl. cbn [inPass] in Hw.
      repeat split; [exact Hs | lia | lia].
    + unfold act. pipe_simpl.
      destruct (sendPacket_cases fd addr sendErr p0 (mkSys c t h i q n))
        as (o & evs & E & _ & Hx & Hb & Hg & Hd & Hv). rewrite E.
      destruct o as [r| | |]; [| exfalso; now apply (Hx code) | |congruence].
      * specialize (Hw _ (WLoop fd addr (LPut p0)) eq_refl).
        pipe_simpl. cbn [inPass] in Hw.
        rewrite allGets_app, sentData_app, length_app, Hg.
        repeat split; [exact Hs | lia | lia].
      * rewrite (Hv _ eq_refl). pipe_simpl. rewrite app_nil_r.
        repeat split; [exact Hs | lia | lia].
    + unfold act, poolPut, modify. pipe_simpl.
      specialize (Hw _ (WLoop fd addr LGuard) eq_refl). cbn [inPass] in Hw.
      rewrite allGets_app, sentData_app, length_app. cbn.
      repeat split; [exact Hs | lia | lia].
  - pipe_simpl. exact Hsame.
Qed.

Lemma prun_stopped (env : Env) (moves : list Move) :
  forall P,
    running (state (cl (sys P))) = false ->
    capPc P <> CapStart ->
    noStateMove moves = true ->
    state (cl (sys (prun env moves P))) = state (cl (sys P))
    /\ allGets (trace (sys (prun env moves P)))
         + getPending (capPc (prun env moves P))
       <= allGets (trace (sys P)) + getPending (capPc P)
    /\ List.length (sentData (trace (sys (prun env moves P))))
         + passes (workPcs (prun env moves P))
       <= List.length (sentData (trace (sys P))) + passes (workPcs P).
Proof.
  induction moves as [|m moves IH]; intros P R Hs Hn.
  - cbn. repeat split; lia.
  - cbn [noStateMove forallb] in Hn. apply andb_prop in Hn.
    destruct Hn as [Hm Hn].
    assert (Hm' : match m with MState _ => False | _ => True end)
      by (destruct m; try exact I; discriminate).
    destruct (@pstep_stopped env m P R Hs Hm') as (A & B & C & D).
    cbn [prun fold_left]. fold (prun env moves (pstep env m P)).
    destruct (IH (pstep env m P)) as (A' & C' & D');
      [congruence | exact B | exact Hn |].
    repeat split; [congruence | lia | lia].
Qed.

(** X18.  Once the state is neither Active nor Paused, and as long as
    nobody assigns it again, the loops go on only as far as the pass they
    are in: the capture loop takes no further packet from the pool, but
    for the one it was about to take when it had tested its guard already;
    the workers send at most one more packet each, the one a worker holds
    or waits for; and a loop that comes to its guard returns. *)
Theorem pipeline_stops_with_state (env : Env) (moves : list Move) (P : Pipe) :
  running (state (cl (sys P))) = false ->
  capPc P <> CapStart ->
  noStateMove moves = true ->
  let P' := prun env moves P in
  state (cl (sys P')) = state (cl (sys P))
  /\ allGets (trace (sys P')) + getPending (capPc P')
     <= allGets (trace (sys P)) + getPending (capPc P)
  /\ List.length (sentData (trace (sys P'))) + passes (workPcs P')
     <= List.length (sentData (trace (sys P))) + passes (workPcs P)
  /\ (crashed P' = None -> capPc P' = CapGuard ->
      forall choice, capPc (pstep env (MCapture choice) P') = CapReturned)
  /\ (crashed P' = None ->
      forall w fd addr e,
        nth_error (workPcs P') w = Some (WLoop fd addr LGuard) ->
        nth_error (workPcs (pstep env (MWorker w e) P')) w = Some WReturned).
Proof.
  intros R Hs Hn P'.
  destruct (@prun_stopped env moves P R Hs Hn) as (A & B & C).
  fold P' in A, B, C.
  assert (R' : running (state (cl (sys P'))) = false) by congruence.
  split; [exact A|]. split; [exact B|]. split; [exact C|]. split.
  - intros Hc Hg choice. unfold pstep. rewrite Hc.
    unfold captureMove. rewrite Hg, R'. reflexivity.
  - intros Hc w fd addr e Hw. unfold pstep. rewrite Hc.
    unfold workerMove. rewrite Hw, R'. cbn [workPcs with_worker].
    apply nth_error_setNth. apply nth_error_Some. congruence.
Qed.

Lemma pipeline_stops_with_state_witness :
  let P := prun okEnv [MCapture None; MCapture None; MCapture None;
                       MWorker 0 None; MWorker 0 None; MState Deregistering]
             (pipeStart (node1 Active) 8 4) in
  let moves := [MRead (inl [x01]); MCapture None; MCapture (Some 0);
                MWorker 0 None; MWorker 0 None; MWorker 0 None;
                MWorker 0 None; MWorker 1 None; MWorker 1 None] in
  running (state (cl (sys P))) = false
  /\ capPc P = CapRead 0
  /\ passes (workPcs P) = 1
  /\ allGets (trace (sys (prun okEnv moves P))) = 1
  /\ sentData (trace (sys (prun okEnv moves P))) = [[x01]]
  /\ capPc (prun okEnv moves P) = CapReturned
  /\ List.length (sentData (trace (sys (prun okEnv moves P))))
       + passes (workPcs (prun okEnv moves P))
     <= List.length (sentData (trace (sys P))) + passes (workPcs P).
Proof.
  cbv zeta.
  split; [reflexivity|]. split; [reflexivity|]. split; [reflexivity|].
  split; [reflexivity|]. split; [reflexivity|]. split; [reflexivity|].
  refine (proj1 (proj2 (proj2
            (@pipeline_stops_with_state okEnv
               [MRead (inl [x01]); MCapture None; MCapture (Some 0);
                MWorker 0 None; MWorker 0 None; MWorker 0 None;
                MWorker 0 None; MWorker 1 None; MWorker 1 None]
               (prun okEnv [MCapture None; MCapture None; MCapture None;
                            MWorker 0 None; MWorker 0 None;
                            MState Deregistering]
                  (pipeStart (node1 Active) 8 4))
               eq_refl _ eq_refl)))).
  discriminate.
Defined.

(* ================================================================== *)
(** ** Frames: what is read and what is sent *)

Lemma focc_nil (f : list byte) : focc [] f = 0.
Proof. reflexivity. Qed.

Lemma focc_app (a b : list (list byte)) (f : list byte) :
  focc (a ++ b) f = focc a f + focc b f.
Proof. apply count_occ_app. Qed.

Lemma focc_cons (g : list byte) (l : list (list byte)) (f : list byte) :
  focc (g :: l) f = focc [g] f + focc l f.
Proof. change (g :: l) with ([g] ++ l). apply focc_app. Qed.

Lemma focc_In (l : list (list byte)) (f : list byte) :
  In f l <-> 1 <= focc l f.
Proof.
  unfold focc. rewrite (count_occ_In (list_eq_dec Byte.byte_eq_dec)). lia.
Qed.

Lemma map_flat_map {A B C} (g : B -> C) (F : A -> list B) (l : list A) :
  map g (flat_map F l) = flat_map (fun a => map g (F a)) l.
Proof.
  induction l as [|a l IH]; cbn; [reflexivity|]. now rewrite map_app, IH.
Qed.

Lemma focc_workers (F : WorkPc -> list (list byte)) (ws : list WorkPc)
      (w : nat) (pc pc' : WorkPc) (f : list byte) :
  nth_error ws w = Some pc ->
  focc (flat_map F (setNth ws w pc')) f + focc (F pc) f
  = focc (flat_map F ws) f + focc (F pc') f.
Proof.
  intros H. destruct (nth_error_split _ _ H) as (l1 & l2 & E & L).
  subst ws w. rewrite setNth_split, !flat_map_app. cbn [flat_map].
  rewrite !focc_app. lia.
Qed.

Lemma frameOf_app (h h' : list rawPacket) (p : ptr) :
  p < List.length h -> frameOf (h ++ h') p = frameOf h p.
Proof. intros H. unfold frameOf. now rewrite nth_error_app1. Qed.

Lemma frameOf_setNth_other (h : list rawPacket) (p0 p : ptr) (pkt : rawPacket) :
  p <> p0 -> frameOf (setNth h p0 pkt) p = frameOf h p.
Proof. intros H. unfold frameOf. now rewrite nth_error_setNth_other. Qed.

Lemma frameOf_filled (h : list rawPacket) (p : ptr) (pkt : rawPacket)
      (d : list byte) :
  nth_error h p = Some pkt ->
  frameOf (setNth h p (filled pkt d)) p = firstn (List.length (payload pkt)) d.
Proof.
  intros H. unfold frameOf.
  rewrite nth_error_setNth by (apply nth_error_Some; congruence).
  now apply filled_frame.
Qed.

(** A packet with a frame to send is a packet that is held. *)
Lemma wFramed_held (ws : list WorkPc) (p : ptr) :
  occ (flat_map wFramed ws) p <= occ (flat_map wheld ws) p.
Proof.
  induction ws as [|pc ws IH]; cbn [flat_map]; [lia|].
  rewrite !occ_app.
  assert (occ (wFramed pc) p <= occ (wheld pc) p)
    by (destruct pc as [|fd addr [| | |]|]; cbn; lia).
  lia.
Qed.

Lemma unsent_held (P : Pipe) (p : ptr) : occ (unsent P) p <= occ (heldOut P) p.
Proof.
  unfold unsent, heldOut. rewrite !occ_app.
  assert (H1 : occ (capFramed (capPc P)) p <= occ (capHeld (capPc P)) p)
    by (destruct (capPc P); cbn; lia).
  pose proof (wFramed_held (workPcs P) p). lia.
Qed.

Ltac frs :=
  unfold framesOf, unsent in *; pipe_simpl; cbn [capFramed wFramed] in *;
  rewrite ?map_app, ?map_flat_map in *; cbn [map] in *;
  rewrite ?sentData_app, ?focc_app, ?focc_nil in *.

Lemma pstep_frames (env : Env) (m : Move) (P : Pipe) (f : list byte) :
  Accounted P -> payloadLen P ->
  focc (sentData (trace (sys (pstep env m P)))) f
    + focc (framesOf (pstep env m P)) f
  <= focc (sentData (trace (sys P))) f + focc (framesOf P) f
     + focc (map (firstn (Z.to_nat (poolSize (sys P)))) (delivered [m])) f
  /\ payloadLen (pstep env m P)
  /\ poolSize (sys (pstep env m P)) = poolSize (sys P).
Proof.
  intros HA HL.
  assert (Hsame : focc (sentData (trace (sys P))) f + focc (framesOf P) f
                  <= focc (sentData (trace (sys P))) f + focc (framesOf P) f
                     + focc (map (firstn (Z.to_nat (poolSize (sys P))))
                                 (delivered [m])) f
                  /\ payloadLen P /\ poolSize (sys P) = poolSize (sys P))
    by (split; [lia | now split]).
  destruct (crashed P) as [v|] eqn:Hc;
    [unfold pstep; rewrite Hc; exact Hsame|].
  destruct m as [choice|r|w|w sendErr|st|k].
  - (* the capture loop *)
    destruct P as [[c t h i q n] cap cp ws cr]. pipe_simpl. subst cr.
    unfold pstep. cbn [crashed]. unfold captureMove. cbn [capPc].
    destruct cp as [| | |p0|p0|];
      [exact Hsame | | | exact Hsame | | exact Hsame].
    + pipe_simpl. destruct (running (state c)).
      * split; [|now split]. frs. lia.
      * unfold act, emit, modify. pipe_simpl. split; [|now split].
        frs. cbn [sentData flat_map app]. frs. lia.
    + unfold act, bind, poolGetAny, poolNew, emit, modify, ret. pipe_simpl.
      assert (Hnew : forall X, X =
                mkPipe (mkSys c ((t ++ [EvPoolGet (List.length h)])
                                    ++ [EvReadFrom (List.length h)])
                              (h ++ [newPacket n]) i q n)
                       cap (CapRead (List.length h)) ws None ->
                focc (sentData (trace (sys X))) f + focc (framesOf X) f
                <= focc (sentData t) f
                   + focc (framesOf
                             (mkPipe (mkSys c t h i q n) cap CapGet ws
                                     None)) f
                   + focc (map (firstn (Z.to_nat n))
                               (delivered [MCapture choice])) f
                /\ payloadLen X /\ poolSize (sys X) = n).
      { intros X ->. split; [|split; [|reflexivity]].
        - frs. cbn [sentData flat_map app]. frs.
          assert (E : forall l,
                     (forall p, In p l ->
                                1 <= occ (heldOut (mkPipe (mkSys c t h i q n)
                                                     cap CapGet ws None)) p) ->
                     map (frameOf (h ++ [newPacket n])) l
                     = map (frameOf h) l).
          { intros l Hl. apply map_ext_in. intros p Hp.
            apply frameOf_app. apply (acc_heap HA). specialize (Hl p Hp).
            lia. }
          rewrite (E q), <- !map_flat_map, (E (flat_map wFramed ws)).
          + lia.
          + intros p Hp. apply occ_In in Hp.
            pose proof (wFramed_held ws p). occs. lia.
          + intros p Hp. apply occ_In in Hp. occs. lia.
        - unfold payloadLen in *. pipe_simpl. apply Forall_app.
          split; [exact HL|]. constructor; [|constructor].
          apply newPacket_length. }
      destruct choice as [k|]; [destruct (nth_error i k) as [p0|] eqn:Ek|].
      * pipe_simpl. split; [|now split].
        frs. cbn [sentData flat_map app]. frs. lia.
      * destruct (n <? 0)%Z; [exact Hsame|]. now apply Hnew.
      * destruct (n <? 0)%Z; [exact Hsame|]. now apply Hnew.
    + pipe_simpl. destruct (Nat.ltb (List.length q) cap); [|exact Hsame].
      unfold act, enqueue, modify. pipe_simpl. split; [|now split].
      frs. lia.
  - (* the read returns *)
    destruct P as [[c t h i q n] cap cp ws cr]. pipe_simpl. subst cr.
    unfold pstep. cbn [crashed]. unfold readMove. cbn [capPc].
    destruct cp as [| | |p0|p0|];
      [exact Hsame | exact Hsame | exact Hsame | | exact Hsame | exact Hsame].
    destruct r as [d|err].
    + unfold act. pipe_simpl.
      destruct (nth_error h p0) as [pkt|] eqn:Ep.
      * rewrite (readInto_run p0 d (mkSys c t h i q n) Ep). pipe_simpl.
        split; [|split; [|reflexivity]].
        -- frs. cbn [delivered flat_map app map]. frs.
           assert (E : forall l, occ l p0 = 0 ->
                                 map (frameOf (setNth h p0 (filled pkt d))) l
                                 = map (frameOf h) l).
           { intros l Hl. apply map_ext_in. intros p Hp.
             apply frameOf_setNth_other. intros ->.
             apply occ_In in Hp. lia. }
           pose proof (acc_one HA p0) as H1. occs.
           rewrite Nat.eqb_refl in H1.
           pose proof (wFramed_held ws p0) as H2.
           rewrite (E q), <- !map_flat_map, (E (flat_map wFramed ws))
             by lia.
           rewrite (frameOf_filled h p0 d Ep).
           unfold payloadLen in HL. pipe_simpl.
           rewrite Forall_forall in HL.
           rewrite (HL pkt (nth_error_In _ _ Ep)). lia.
        -- unfold payloadLen in *. pipe_simpl.
           apply Forall_setNth; [exact HL|].
           rewrite filled_length. rewrite Forall_forall in HL.
           apply HL. eapply nth_error_In; eauto.
      * rewrite readInto_nil by exact Ep. pipe_simpl.
        split; [cbn [delivered flat_map]; frs; lia | now split].
    + unfold act, emit, modify. pipe_simpl. split; [|now split].
      frs. cbn [sentData flat_map app]. frs. lia.
  - (* hand-over *)
    destruct P as [[c t h i q n] cap cp ws cr]. pipe_simpl. subst cr.
    unfold pstep. cbn [crashed]. unfold handoffMove.
    cbn [capPc sys packets workPcs].
    destruct cp as [| | |p0|p0|]; try exact Hsame.
    destruct q as [|q0 q]; [|exact Hsame].
    destruct (nth_error ws w) as [[|fd addr [| | |]|]|] eqn:Ew;
      try exact Hsame.
    pose proof (@focc_workers (fun pc => map (frameOf h) (wFramed pc)) ws w _
                  (WLoop fd addr (LSend p0)) f Ew) as Hw.
    pipe_simpl. split; [|now split]. frs. cbn [wFramed map] in Hw. frs. lia.
  - (* a worker *)
    destruct (nth_error (workPcs P) w) as [pc|] eqn:Ew;
      [|unfold pstep, workerMove; rewrite Hc, Ew; exact Hsame].
    destruct pc as [|fd addr [| |p0|p0]|].
    + destruct P as [[c t h i q n] cap cp ws cr]. pipe_simpl. subst cr.
      unfold pstep. cbn [crashed]. unfold workerMove. cbn [workPcs].
      rewrite Ew. unfold act. pipe_simpl.
      destruct (handlePacketsInit_cases env (mkSys c t h i q n))
        as (o & evs & E & _ & Hx & Hb & Hg & Hd). rewrite E.
      destruct o as [r| | |]; [| exfalso; now apply (Hx code) | |congruence].
      * pose proof (@focc_workers (fun pc => map (frameOf h) (wFramed pc))
                      ws w _ (WLoop (fst r) (snd r) LGuard) f Ew) as Hw.
        pipe_simpl. split; [|now split].
        frs. rewrite Hd. cbn [wFramed map] in Hw. frs. lia.
      * pipe_simpl. split; [|now split]. frs. rewrite Hd. frs. lia.
    + destruct P as [[c t h i q n] cap cp ws cr]. pipe_simpl. subst cr.
      unfold pstep. cbn [crashed]. unfold workerMove. cbn [workPcs].
      rewrite Ew. pipe_simpl. split; [|now split].
      destruct (running (state c)).
      * pose proof (@focc_workers (fun pc => map (frameOf h) (wFramed pc))
                      ws w _ (WLoop fd addr LRecv) f Ew) as Hw.
        frs. cbn [wFramed map] in Hw. frs. lia.
      * pose proof (@focc_workers (fun pc => map (frameOf h) (wFramed pc))
                      ws w _ WReturned f Ew) as Hw.
        frs. cbn [wFramed map] in Hw. frs. lia.
    + destruct P as [[c t h i q n] cap cp ws cr]. pipe_simpl. subst cr.
      unfold pstep. cbn [crashed]. unfold workerMove. cbn [workPcs].
      rewrite Ew. pipe_simpl. destruct q as [|p0 q]; [exact Hsame|].
      pose proof (@focc_workers (fun pc => map (frameOf h) (wFramed pc))
                    ws w _ (WLoop fd addr (LSend p0)) f Ew) as Hw.
      pipe_simpl. split; [|now split].
      frs. cbn [wFramed map] in Hw. frs. rewrite focc_cons. lia.
    + destruct (@worker_sends env P w fd addr p0 sendErr HA Hc Ew)
        as (pkt & Ep & Hwell & E1).
      rewrite E1.
      destruct P as [[c t h i q n] cap cp ws cr]. pipe_simpl. subst cr.
      pose proof (@focc_workers (fun pc => map (frameOf h) (wFramed pc))
                    ws w _ (WLoop fd addr (LPut p0)) f Ew) as Hw.
      split; [|now split].
      frs. cbn [wFramed map] in Hw. frs.
      assert (Ef : frameOf h p0 = firstn (Z.to_nat (size pkt)) (payload pkt))
        by (unfold frameOf; now rewrite Ep).
      rewrite Ef in Hw.
      destruct sendErr; cbn [sentData flat_map app]; frs; lia.
    + rewrite (@worker_puts env P w fd addr p0 sendErr Hc Ew).
      destruct P as [[c t h i q n] cap cp ws cr]. pipe_simpl. subst cr.
      pose proof (@focc_workers (fun pc => map (frameOf h) (wFramed pc))
                    ws w _ (WLoop fd addr LGuard) f Ew) as Hw.
      split; [|now split].
      frs. cbn [wFramed map] in Hw. cbn [sentData flat_map app]. frs. lia.
    + unfold pstep, workerMove. rewrite Hc, Ew. exact Hsame.
  - destruct P as [[c t h i q n] cap cp ws cr]. pipe_simpl. subst cr.
    unfold pstep. cbn [crashed]. unfold act, putState, modify. pipe_simpl.
    exact Hsame.
  - destruct P as [[c t h i q n] cap cp ws cr]. pipe_simpl. subst cr.
    unfold pstep. cbn [crashed]. pipe_simpl. exact Hsame.
Qed.


Lemma prun_frames (env : Env) (moves : list Move) (f : list byte) :
  forall P B,
    Accounted P -> payloadLen P ->
    focc (sentData (trace (sys P))) f + focc (framesOf P) f <= B ->
    focc (sentData (trace (sys (prun env moves P)))) f
      + focc (framesOf (prun env moves P)) f
    <= B + focc (map (firstn (Z.to_nat (poolSize (sys P))))
                     (delivered moves)) f.
Proof.
  induction moves as [|m moves IH]; intros P B HA HL HB.
  - cbn. lia.
  - destruct (@pstep_frames env m P f HA HL) as (H1 & H2 & H3).
    cbn [prun fold_left]. fold (prun env moves (pstep env m P)).
    change (m :: moves) with ([m] ++ moves).
    unfold delivered at 1. rewrite flat_map_app.
    fold (delivered [m]). fold (delivered moves).
    rewrite map_app, focc_app.
    pose proof (IH (pstep env m P)
                  (B + focc (map (firstn (Z.to_nat (poolSize (sys P))))
                                 (delivered [m])) f)
                  (@pstep_Accounted env m P HA) H2) as H.
    rewrite H3 in H.
    assert (Hpre : focc (sentData (trace (sys (pstep env m P)))) f
                     + focc (framesOf (pstep env m P)) f
                   <= B + focc (map (firstn (Z.to_nat (poolSize (sys P))))
                                    (delivered [m])) f) by lia.
    specialize (H Hpre). lia.
Qed.

(** X16.  In every interleaving of the capture loop and the workers, every
    frame handed to Sendto is a datagram that a read delivered, cut to the
    size of the payloads, and no frame is sent more often than it was
    read, the frames that still wait to be sent counted in. *)
Theorem frames_sent_at_most_once (env : Env) (c : Client) (mtu : Z)
        (cap : nat) (moves : list Move) :
  let P := prun env moves (pipeStart c mtu cap) in
  (forall f,
      focc (sentData (trace (sys P))) f + focc (framesOf P) f
      <= focc (map (firstn (Z.to_nat mtu)) (delivered moves)) f)
  /\ (forall f,
        In f (sentData (trace (sys P))) ->
        In f (map (firstn (Z.to_nat mtu)) (delivered moves))).
Proof.
  intros P.
  assert (H : forall f,
             focc (sentData (trace (sys P))) f + focc (framesOf P) f
             <= focc (map (firstn (Z.to_nat mtu)) (delivered moves)) f).
  { intros f.
    pose proof (@prun_frames env moves f (pipeStart c mtu cap) 0
                  (Accounted_start c mtu cap)) as Hf.
    cbn [poolSize sys pipeStart] in Hf. apply Hf.
    - constructor.
    - cbn. lia. }
  split; [exact H|].
  intros f Hin. apply focc_In. apply focc_In in Hin. specialize (H f). lia.
Qed.

(** Two workers can send in the opposite order of the reads. *)
Example relay_out_of_order :
  let P := prun okEnv
             [MCapture None; MWorker 0 None; MWorker 1 None;
              MWorker 0 None; MWorker 1 None;
              MCapture None; MCapture None; MRead (inl [x01]); MCapture None;
              MCapture None; MCapture None; MRead (inl [x02]); MCapture None;
              MWorker 0 None; MWorker 1 None;
              MWorker 1 None; MWorker 0 None]
             (pipeStart (node1 Active) 8 4) in
  delivered [MRead (inl [x01]); MRead (inl [x02])] = [[x01]; [x02]]
  /\ sentData (trace (sys P)) = [[x02]; [x01]].
Proof. split; reflexivity. Qed.


(* ================================================================== *)
(** ** No panic in the pipeline *)

Lemma held_exists (P : Pipe) (p : ptr) :
  Accounted P -> 1 <= occ (heldOut P) p ->
  exists pkt, nth_error (heap (sys P)) p = Some pkt /\ wellSized pkt.
Proof.
  intros H Hin.
  assert (Hlt : p < List.length (heap (sys P))) by (apply (acc_heap H); lia).
  destruct (nth_error (heap (sys P)) p) as [pkt|] eqn:Ep;
    [|apply nth_error_None in Ep; lia].
  exists pkt. split; [reflexivity|].
  pose proof (acc_sized H) as Hsz. rewrite Forall_forall in Hsz.
  apply Hsz. eapply nth_error_In; eauto.
Qed.

Lemma pstep_safe (env : Env) (m : Move) (P : Pipe) :
  Accounted P -> crashed P = None ->
  To4 (vip (cl (sys P))) <> None -> (0 <= poolSize (sys P))%Z ->
  crashed (pstep env m P) = None
  /\ vip (cl (sys (pstep env m P))) = vip (cl (sys P))
  /\ poolSize (sys (pstep env m P)) = poolSize (sys P).
Proof.
  intros HA Hc H4 Hn.
  destruct m as [choice|r|w|w sendErr|st|k].
  - destruct P as [[c t h i q n] cap cp ws cr]. pipe_simpl. subst cr.
    unfold pstep. cbn [crashed]. unfold captureMove. cbn [capPc].
    destruct cp as [| | |p0|p0|]; try (now repeat split).
    + pipe_simpl. destruct (running (state c)); now repeat split.
    + unfold act, bind, poolGetAny, poolNew, emit, modify, ret. pipe_simpl.
      replace (n <? 0)%Z with false by (symmetry; apply Z.ltb_ge; lia).
      destruct choice as [k|]; [destruct (nth_error i k) as [p0|]|];
        now repeat split.
    + pipe_simpl. destruct (Nat.ltb (List.length q) cap); now repeat split.
  - destruct (capPc P) as [| | |p0|p0|] eqn:Ecp;
      try (unfold pstep, readMove; rewrite Hc, Ecp; now repeat split).
    destruct r as [d|err];
      [|unfold pstep, readMove; rewrite Hc, Ecp; now repeat split].
    destruct (@held_exists P p0 HA) as (pkt & Ep & _).
    { unfold heldOut. rewrite Ecp, !occ_app. cbn [capHeld].
      rewrite occ_cons, Nat.eqb_refl. lia. }
    unfold pstep, readMove. rewrite Hc, Ecp. unfold act.
    rewrite (readInto_run p0 d (sys P) Ep). now repeat split.
  - destruct P as [[c t h i q n] cap cp ws cr]. pipe_simpl. subst cr.
    unfold pstep. cbn [crashed]. unfold handoffMove.
    cbn [capPc sys packets workPcs].
    destruct cp as [| | |p0|p0|]; try (now repeat split).
    destruct q as [|q0 q]; [|now repeat split].
    destruct (nth_error ws w) as [[|fd addr [| | |]|]|]; now repeat split.
  - destruct (nth_error (workPcs P) w) as [pc|] eqn:Ew;
      [|unfold pstep, workerMove; rewrite Hc, Ew; now repeat split].
    destruct pc as [|fd addr [| |p0|p0]|].
    + unfold pstep, workerMove. rewrite Hc, Ew. unfold act.
      rewrite (handlePacketsInit_run env (sys P) H4). now repeat split.
    + unfold pstep, workerMove. rewrite Hc, Ew. now repeat split.
    + unfold pstep, workerMove. rewrite Hc, Ew.
      destruct (packets (sys P)); now repeat split.
    + destruct (@worker_sends env P w fd addr p0 sendErr HA Hc Ew)
        as (pkt & Ep & Hwell & E1).
      rewrite E1. now repeat split.
    + rewrite (@worker_puts env P w fd addr p0 sendErr Hc Ew).
      now repeat split.
    + unfold pstep, workerMove. rewrite Hc, Ew. now repeat split.
  - unfold pstep. rewrite Hc. now repeat split.
  - unfold pstep. rewrite Hc. now repeat split.
Qed.

(** X21.  With an IPv4 VIP and a payload size that is not negative, no
    interleaving of reads, sends, assignments of the state and pool
    behaviour makes the capture loop or a worker panic: every packet that
    is read into or sent exists, and its [size] is within its payload. *)
Theorem pipeline_never_panics (env : Env) (c : Client) (mtu : Z) (cap : nat)
        (moves : list Move) :
  To4 (vip c) <> None -> (0 <= mtu)%Z ->
  crashed (prun env moves (pipeStart c mtu cap)) = None.
Proof.
  intros H4 Hn.
  assert (G : forall P,
             Accounted P -> crashed P = None ->
             To4 (vip (cl (sys P))) <> None -> (0 <= poolSize (sys P))%Z ->
             crashed (prun env moves P) = None).
  { induction moves as [|m moves IH]; intros P HA Hc HP HS; [exact Hc|].
    destruct (@pstep_safe env m P HA Hc HP HS) as (A & B & C).
    cbn [prun fold_left]. apply IH.
    - now apply pstep_Accounted.
    - exact A.
    - now rewrite B.
    - now rewrite C. }
  apply G; [apply Accounted_start | reflexivity | exact H4 | exact Hn].
Qed.

Lemma pipeline_never_panics_witness :
  To4 (vip (node1 Active)) <> None /\ (0 <= 1500)%Z
  /\ crashed (prun okEnv
                [MCapture None; MCapture None; MCapture None;
                 MWorker 3 None;
                 MRead (inl [x01; x02]); MCapture None; MWorker 3 None;
                 MWorker 3 None; MWorker 3 (Some "no buffer space available");
                 MWorker 3 None; MCollect 0; MCapture (Some 0)]
                (pipeStart (node1 Active) 1500 4)) = None.
Proof.
  assert (H4 : To4 (vip (node1 Active)) <> None) by discriminate.
  assert (Hn : (0 <= 1500)%Z) by lia.
  split; [exact H4|]. split; [exact Hn|].
  exact (@pipeline_never_panics okEnv (node1 Active) 1500 4
           [MCapture None; MCapture None; MCapture None; MWorker 3 None;
            MRead (inl [x01; x02]); MCapture None; MWorker 3 None;
            MWorker 3 None; MWorker 3 (Some "no buffer space available");
            MWorker 3 None; MCollect 0; MCapture (Some 0)] H4 Hn).
Defined.

(** A VIP that is not IPv4 ends the process at the start of the first
    worker, and a negative payload size at the first allocation. *)
Example pipeline_panics :
  crashed (prun okEnv [MWorker 7 None]
             (pipeStart (mkClient Active "node1" [1; 2; 3]%N [] 5) 1500 4))
  = Some "vip is not ipv4"
  /\ crashed (prun okEnv [MCapture None; MCapture None; MCapture None]
                (pipeStart (node1 Active) (-1) 4))
     = Some "makeslice: len out of range".
Proof. split; reflexivity. Qed.

(* ================================================================== *)
(** ** The loops of the source inside the interleaved model *)

(** A pass of the capture loop that no other goroutine interrupts, with
    the pool handing out its idle packets last in first out, is
    [captureStep]. *)
Lemma capture_pass_sequential (env : Env) (P : Pipe) (d : list byte) :
  crashed P = None -> capPc P = CapGuard ->
  running (state (cl (sys P))) = true ->
  List.length (packets (sys P)) < chanCap P ->
  (0 <= poolSize (sys P))%Z ->
  sys (prun env [MCapture None; MCapture (Some 0); MRead (inl d);
                 MCapture None] P)
  = snd (captureStep (Some (inl d)) (sys P)).
Proof.
  intros Hc Hg R Hq Hn.
  destruct P as [[c t h i q n] cap cp ws cr]. pipe_simpl. subst cr cp.
  apply Nat.ltb_lt in Hq.
  unfold prun. cbn [fold_left].
  unfold pstep at 4. cbn [crashed].
  unfold captureMove at 1. cbn [capPc]. pipe_simpl. rewrite R.
  unfold pstep at 3. cbn [crashed].
  unfold captureMove at 1. cbn [capPc]. pipe_simpl.
  unfold act, bind, poolGetAny, poolNew, emit, modify, ret. pipe_simpl.
  replace (n <? 0)%Z with false by (symmetry; apply Z.ltb_ge; lia).
  unfold captureStep, poolGet, bind, emit, modify, ret, load, store, enqueue.
  destruct i as [|p0 i]; cbn [nth_error idle]; pipe_simpl.
  - unfold pstep at 2. cbn [crashed]. unfold readMove. cbn [capPc].
    unfold act, readInto, bind, load, store, modify, ret. pipe_simpl.
    destruct (nth_error (h ++ [newPacket n]) (List.length h)) as [pkt|] eqn:Ep.
    + pipe_simpl. rewrite nth_error_setNth
        by (apply nth_error_Some; congruence).
      pipe_simpl. unfold pstep. cbn [crashed]. unfold captureMove.
      cbn [capPc]. pipe_simpl. rewrite Hq. reflexivity.
    + reflexivity.
  - unfold removeNth. cbn [firstn skipn app].
    unfold pstep at 2. cbn [crashed]. unfold readMove. cbn [capPc].
    unfold act, readInto, bind, load, store, modify, ret. pipe_simpl.
    destruct (nth_error h p0) as [pkt|] eqn:Ep.
    + pipe_simpl. rewrite nth_error_setNth
        by (apply nth_error_Some; congruence).
      pipe_simpl. unfold pstep. cbn [crashed]. unfold captureMove.
      cbn [capPc]. pipe_simpl. rewrite Hq. reflexivity.
    + reflexivity.
Qed.

Lemma worker_guards (env : Env) (P : Pipe) (w : nat) (fd : Z)
      (addr : SockaddrInet4) (e : option string) :
  crashed P = None ->
  nth_error (workPcs P) w = Some (WLoop fd addr LGuard) ->
  pstep env (MWorker w e) P =
  with_worker P w (if running (state (cl (sys P)))
                   then WLoop fd addr LRecv else WReturned).
Proof.
  intros Hc Hw. unfold pstep. rewrite Hc. unfold workerMove. now rewrite Hw.
Qed.

Lemma worker_receives (env : Env) (P : Pipe) (w : nat) (fd : Z)
      (addr : SockaddrInet4) (e : option string) (p : ptr) (rest : list ptr) :
  crashed P = None ->
  nth_error (workPcs P) w = Some (WLoop fd addr LRecv) ->
  packets (sys P) = p :: rest ->
  pstep env (MWorker w e) P =
  with_worker (with_sys P (with_packets (sys P) rest)) w
              (WLoop fd addr (LSend p)).
Proof.
  intros Hc Hw Hq. unfold pstep. rewrite Hc. unfold workerMove.
  now rewrite Hw, Hq.
Qed.

Lemma worker_sends_packet (env : Env) (P : Pipe) (w : nat) (fd : Z)
      (addr : SockaddrInet4) (p : ptr) (sendErr : option string)
      (pkt : rawPacket) :
  crashed P = None ->
  nth_error (workPcs P) w = Some (WLoop fd addr (LSend p)) ->
  nth_error (heap (sys P)) p = Some pkt -> wellSized pkt ->
  pstep env (MWorker w sendErr) P =
  with_worker
    (with_sys P
       (addTrace (sys P)
          (EvSendto fd (firstn (Z.to_nat (size pkt)) (payload pkt)) addr
           :: match sendErr with
              | Some _ => [EvLog Warn "Failed to write packet to local vip"]
              | None => []
              end)))
    w (WLoop fd addr (LPut p)).
Proof.
  intros Hc Hw Ep Hwell.
  unfold pstep. rewrite Hc. unfold workerMove. rewrite Hw. unfold act.
  now rewrite (sendPacket_run fd addr sendErr p (sys P) Ep Hwell).
Qed.

(** A pass of a worker that no other goroutine interrupts is [relayStep]. *)
Lemma worker_pass_sequential (env : Env) (P : Pipe) (w : nat) (fd : Z)
      (addr : SockaddrInet4) (e : option string) (p : ptr) (rest : list ptr) :
  crashed P = None ->
  nth_error (workPcs P) w = Some (WLoop fd addr LGuard) ->
  running (state (cl (sys P))) = true ->
  packets (sys P) = p :: rest ->
  (exists pkt, nth_error (heap (sys P)) p = Some pkt /\ wellSized pkt) ->
  sys (prun env [MWorker w e; MWorker w e; MWorker w e; MWorker w e] P)
  = snd (relayStep fd addr e (sys P)).
Proof.
  intros Hc Hw R Hq (pkt & Ep & Hwell).
  assert (Hlt : w < List.length (workPcs P))
    by (apply nth_error_Some; congruence).
  rewrite (@relayStep_run fd addr e (sys P) p rest pkt Hq Ep Hwell).
  unfold prun. cbn [fold_left].
  rewrite (@worker_guards env P w fd addr e Hc Hw), R.
  rewrite (@worker_receives env (with_worker P w (WLoop fd addr LRecv))
             w fd addr e p rest);
    [|exact Hc
     |cbn [workPcs with_worker]; now apply nth_error_setNth | exact Hq].
  match goal with
  | |- context [pstep env (MWorker w e) (pstep env (MWorker w e) ?Q)] =>
      rewrite (@worker_sends_packet env Q w fd addr p e pkt);
        [|exact Hc
         |cbn [workPcs with_worker with_sys];
          apply nth_error_setNth; now rewrite length_setNth
         |exact Ep | exact Hwell]
  end.
  match goal with
  | |- context [pstep env (MWorker w e) ?Q] =>
      rewrite (@worker_puts env Q w fd addr p e);
        [|exact Hc
         |cbn [workPcs with_worker with_sys];
          apply nth_error_setNth; now rewrite !length_setNth]
  end.
  destruct P as [[c t h i q n] cap cp ws cr]. pipe_simpl.
  destruct e; cbn [app]; now rewrite <- ?app_assoc.
Qed.
